(** * Media Stickies: the card / avatar registry of the main process

    A shallow embedding of [modules_main/card.ts] (the registry, the [Card]
    and [Avatar] classes, the focus and blur listeners) and of the
    main-process entry point [main.ts] (the [ready] handler and the
    [ipcMain] handlers), with theorems about deleting, updating and creating
    cards, the one-shot focus flags, start-up and the z-order requests.

    JavaScript state is threaded explicitly: a [World] holds the two registry
    maps, the focus gate, the workspace, the persistence layer and the log of
    effects on the outside (windows, console, timers, disk requests).
    An [async] function is a state transformer whose result is an [Outcome]:
    it returns, throws, or stays pending for ever. *)

From Stdlib Require Import ZArith NArith Lia List Ascii String Sorted Permutation.
From stdpp Require Import base strings list gmap.
Import ListNotations.

Local Open Scope Z_scope.
Local Open Scope string_scope.

(** ** Insertion-ordered maps

    A JavaScript [Map] and the own string-keyed properties of an object are
    both enumerated in insertion order, and the code enumerates them
    ([for ... in], [Object.keys], [avatars.keys()], [avatars.values()]).
    They are association lists here: [set] overwrites in place or appends,
    [delete] removes the key. (Integer-like property names, which an object
    enumerates first, do not occur: the keys are location urls.) *)
Module JsMap.
Section Defs.
Context {V : Type}.

Definition t : Type := list (string * V).

Definition empty : t := [].

Fixpoint get (k : string) (m : t) : option V :=
  match m with
  | [] => None
  | (k', v) :: r => if String.eqb k k' then Some v else get k r
  end.

Fixpoint set (k : string) (v : V) (m : t) : t :=
  match m with
  | [] => [(k, v)]
  | (k', v') :: r =>
      if String.eqb k k' then (k, v) :: r else (k', v') :: set k v r
  end.

Fixpoint delete (k : string) (m : t) : t :=
  match m with
  | [] => []
  | (k', v) :: r =>
      if String.eqb k k' then delete k r else (k', v) :: delete k r
  end.

Definition keys (m : t) : list string := map fst m.
Definition values (m : t) : list V := map snd m.

End Defs.
Arguments t : clear implicits.
End JsMap.

(** ** Version-4 UUIDs

    [generateNewCardId] returns [uuidv4()]. The generator of the [uuid]
    package formats sixteen random bytes, with the version and variant bits
    forced, as 8-4-4-4-12 hexadecimal digits. The random bytes are taken
    from the world's entropy; a missing byte reads as zero. *)
Module Uuid.
Definition hexDigit (n : N) : ascii :=
  match n with
  | 0 => "0" | 1 => "1" | 2 => "2" | 3 => "3" | 4 => "4" | 5 => "5"
  | 6 => "6" | 7 => "7" | 8 => "8" | 9 => "9" | 10 => "a" | 11 => "b"
  | 12 => "c" | 13 => "d" | 14 => "e" | _ => "f"
  end%N%char.

Definition hexByte (b : N) (rest : string) : string :=
  String (hexDigit (N.shiftr (N.land b 255) 4))
      (String (hexDigit (N.land b 15)) rest).

Definition byteAt (rnds : list N) (i : nat) : N :=
  let b := nth i rnds 0%N in
  match i with
  | 6%nat => N.lor (N.land b 15) 64
  | 8%nat => N.lor (N.land b 63) 128
  | _ => b
  end.

Fixpoint hexBytes (rnds : list N) (idx : list nat) (rest : string) : string :=
  match idx with
  | [] => rest
  | i :: idx' => hexByte (byteAt rnds i) (hexBytes rnds idx' rest)
  end.

Definition v4 (rnds : list N) : string :=
  hexBytes rnds [0; 1; 2; 3]%nat ("-" +:+
  hexBytes rnds [4; 5]%nat ("-" +:+
  hexBytes rnds [6; 7]%nat ("-" +:+
  hexBytes rnds [8; 9]%nat ("-" +:+
  hexBytes rnds [10; 11; 12; 13; 14; 15]%nat "")))).

End Uuid.

(** ** Property model

    The fields are those the main process reads and writes. [Style], the
    timestamps and the two wire forms are never inspected by the code
    below and stay abstract. *)

(** Modelled from the spec: the payload types declared in
    [modules_common/cardprop.ts], which is not among the sources. The
    registry only moves values of these types around. *)
Class Payload : Type := {
  Style : Type;
  CardDate : Type;
  CardPropSerializable : Type;
  AvatarPropSerializable : Type
}.

(** JavaScript numbers holding window coordinates and the z order are
    integers here. Comparing them is the same in both. The sums the
    program forms from them ([z + 1], [z - 1]) are sums of doubles, which
    are the sums of the integers as long as the values stay below 2^53 in
    magnitude; a theorem about such a sum carries that bound as a
    hypothesis. *)
Module Geometry.
Record t : Type := mk {
  x : Z;
  y : Z;
  z : Z;
  width : Z;
  height : Z
}.
End Geometry.

Record Condition : Type := { locked : bool }.

Module TransformableFeature.
Section Defs.
Context {P : Payload}.
Record t : Type := mk {
  geometry : Geometry.t;
  style : Style;
  condition : Condition;
  date : CardDate
}.
End Defs.
Arguments t : clear implicits.
Arguments t {P}.
End TransformableFeature.

Module CardProp.
Section Defs.
Context {P : Payload}.
Record t : Type := mk {
  id : string;
  data : string;
  avatars : JsMap.t TransformableFeature.t
}.

Definition set_id (v : string) (p : t) : t :=
  {| id := v; data := data p; avatars := avatars p |}.
Definition set_data (v : string) (p : t) : t :=
  {| id := id p; data := v; avatars := avatars p |}.
Definition set_avatars (v : JsMap.t TransformableFeature.t) (p : t) : t :=
  {| id := id p; data := data p; avatars := v |}.
End Defs.
Arguments t : clear implicits.
Arguments t {P}.
End CardProp.

Module AvatarProp.
Section Defs.
Context {P : Payload}.
Record t : Type := mk {
  url : string;
  data : string;
  geometry : Geometry.t;
  style : Style;
  condition : Condition;
  date : CardDate
}.
End Defs.
Arguments t : clear implicits.
Arguments t {P}.
End AvatarProp.

(** ** Errors and outcomes *)

(** [Error] and [TypeError] are the two classes the code throws itself;
    [NotFound] and [IOFailure] are what the persistence layer rejects with. *)
Inductive ErrorKind : Type := GenericError | TypeErr | NotFound | IOFailure.

Record JsError : Type := mkError { kind : ErrorKind; message : string }.

Definition Error (msg : string) : JsError := mkError GenericError msg.
Definition TypeError (msg : string) : JsError := mkError TypeErr msg.

(** The result of calling a function or of awaiting a promise. *)
Inductive Outcome (A : Type) : Type :=
| Returned (a : A)
| Thrown (e : JsError)
| Pending.
Arguments Returned {A} a.
Arguments Thrown {A} e.
Arguments Pending {A}.

(** ** Cards and avatars *)

Inductive CardInitializeType : Type := New | Load.

(** The closure stored in [Card.loadOrCreateCardData]. *)
Inductive Loader : Type :=
| ResolveAtOnce
| GetCardData (id : string).

Module Card.
Section Defs.
Context {P : Payload}.
(** [prop] is declared with a definite-assignment assertion: a card built
    as ['Load'] has none until its loader has run. *)
Record t : Type := mk {
  cardInitializeType : CardInitializeType;
  prop : option CardProp.t;
  loadOrCreateCardData : Loader
}.

Definition set_prop (p : CardProp.t) (c : t) : t :=
  {| cardInitializeType := cardInitializeType c;
     prop := Some p;
     loadOrCreateCardData := loadOrCreateCardData c |}.
End Defs.
Arguments t : clear implicits.
Arguments t {P}.
End Card.

Module Avatar.
Section Defs.
Context {P : Payload}.
(** [window] is the handle of the [BrowserWindow] the avatar owns. *)
Record t : Type := mk {
  prop : AvatarProp.t;
  window : nat;
  suppressFocusEventOnce : bool;
  suppressBlurEventOnce : bool;
  recaptureGlobalFocusEventAfterLocalFocusEvent : bool;
  renderingCompleted : bool
}.

Definition set_suppressFocusEventOnce (b : bool) (a : t) : t :=
  {| prop := prop a; window := window a;
     suppressFocusEventOnce := b;
     suppressBlurEventOnce := suppressBlurEventOnce a;
     recaptureGlobalFocusEventAfterLocalFocusEvent :=
       recaptureGlobalFocusEventAfterLocalFocusEvent a;
     renderingCompleted := renderingCompleted a |}.

Definition set_suppressBlurEventOnce (b : bool) (a : t) : t :=
  {| prop := prop a; window := window a;
     suppressFocusEventOnce := suppressFocusEventOnce a;
     suppressBlurEventOnce := b;
     recaptureGlobalFocusEventAfterLocalFocusEvent :=
       recaptureGlobalFocusEventAfterLocalFocusEvent a;
     renderingCompleted := renderingCompleted a |}.

Definition set_recaptureGlobalFocusEventAfterLocalFocusEvent
    (b : bool) (a : t) : t :=
  {| prop := prop a; window := window a;
     suppressFocusEventOnce := suppressFocusEventOnce a;
     suppressBlurEventOnce := suppressBlurEventOnce a;
     recaptureGlobalFocusEventAfterLocalFocusEvent := b;
     renderingCompleted := renderingCompleted a |}.

Definition set_renderingCompleted (b : bool) (a : t) : t :=
  {| prop := prop a; window := window a;
     suppressFocusEventOnce := suppressFocusEventOnce a;
     suppressBlurEventOnce := suppressBlurEventOnce a;
     recaptureGlobalFocusEventAfterLocalFocusEvent :=
       recaptureGlobalFocusEventAfterLocalFocusEvent a;
     renderingCompleted := b |}.
End Defs.
Arguments t : clear implicits.
Arguments t {P}.
End Avatar.

(** ** The outside world *)

(** Effects on windows, console, timers and the disk, in the order the
    main process issues them. [console.debug] output is left out. *)
Inductive Event : Type :=
| WinCreate (w : nat) (avatarUrl : string)
| WinLoadURL (w : nat)
| WinSetSize (w : nat) (width height : Z)
| WinSetPosition (w : nat) (x y : Z)
| WinShowInactive (w : nat)
| WinSend (w : nat) (channel : string)
| WinDestroy (w : nat)
| WinBlur (w : nat)
| WinFocus (w : nat)
| WinMoveTop (w : nat)
| ConsoleError (msg : string)
| Sleep (ms : Z)
| IoGetAvatarUrlList (workspaceId : string)
| IoAddAvatarUrl (workspaceId avatarUrl : string)
| IoDeleteAvatarUrl (workspaceId avatarUrl : string)
| IoGetCardData (id : string)
| IoUpdateOrCreateCardData (id : string)
| IoDeleteCardData (id : string).

(** How the renderer process answers [Avatar.render]: the page loads and
    the render is acknowledged, the load fails, or the acknowledgement
    never arrives (the 200 ms poll in [_renderCard] then never stops). *)
Inductive RenderAnswer : Type :=
| RenderCompleted
| LoadFailed (description : string)
| NeverAcknowledged.

(** Modelled from the spec: a workspace of [modules_main/workspace.ts],
    which is not among the sources: a named collection of avatar
    placements. *)
Record Workspace : Type := { ws_avatars : list string }.

Section WorldDef.
Context {P : Payload}.

Record World : Type := mkWorld {
  (* module state of card.ts *)
  cards : gmap string Card.t;
  avatars : JsMap.t Avatar.t;
  globalFocusListenerPermission : bool;
  (* module state of workspace.ts *)
  currentWorkspaceId : string;
  currentWorkspaceUrl : string;
  workspaces : gmap string Workspace;
  (* the persistence layer behind CardIO *)
  store : gmap string CardProp.t;
  placements : gmap string (list string);
  faults : list bool;
  (* the runtime *)
  entropy : list (list N);
  renderer : string -> RenderAnswer;
  nextWindow : nat;
  trace : list Event
}.

Definition set_cards (f : gmap string Card.t -> gmap string Card.t)
    (w : World) : World :=
  mkWorld (f (cards w)) (avatars w) (globalFocusListenerPermission w)
    (currentWorkspaceId w) (currentWorkspaceUrl w) (workspaces w)
    (store w) (placements w) (faults w)
    (entropy w) (renderer w) (nextWindow w) (trace w).

Definition set_avatars (f : JsMap.t Avatar.t -> JsMap.t Avatar.t)
    (w : World) : World :=
  mkWorld (cards w) (f (avatars w)) (globalFocusListenerPermission w)
    (currentWorkspaceId w) (currentWorkspaceUrl w) (workspaces w)
    (store w) (placements w) (faults w)
    (entropy w) (renderer w) (nextWindow w) (trace w).

Definition setGlobalFocusEventListenerPermission
    (canExecuteFocusEventListener : bool) (w : World) : World :=
  mkWorld (cards w) (avatars w) canExecuteFocusEventListener
    (currentWorkspaceId w) (currentWorkspaceUrl w) (workspaces w)
    (store w) (placements w) (faults w)
    (entropy w) (renderer w) (nextWindow w) (trace w).

Definition getGlobalFocusEventListenerPermission (w : World) : bool :=
  globalFocusListenerPermission w.

Definition set_workspaces
    (f : gmap string Workspace -> gmap string Workspace) (w : World) : World :=
  mkWorld (cards w) (avatars w) (globalFocusListenerPermission w)
    (currentWorkspaceId w) (currentWorkspaceUrl w) (f (workspaces w))
    (store w) (placements w) (faults w)
    (entropy w) (renderer w) (nextWindow w) (trace w).

Definition set_store
    (f : gmap string CardProp.t -> gmap string CardProp.t) (w : World)
    : World :=
  mkWorld (cards w) (avatars w) (globalFocusListenerPermission w)
    (currentWorkspaceId w) (currentWorkspaceUrl w) (workspaces w)
    (f (store w)) (placements w) (faults w)
    (entropy w) (renderer w) (nextWindow w) (trace w).

Definition set_placements
    (f : gmap string (list string) -> gmap string (list string))
    (w : World) : World :=
  mkWorld (cards w) (avatars w) (globalFocusListenerPermission w)
    (currentWorkspaceId w) (currentWorkspaceUrl w) (workspaces w)
    (store w) (f (placements w)) (faults w)
    (entropy w) (renderer w) (nextWindow w) (trace w).

Definition set_faults (f : list bool -> list bool) (w : World) : World :=
  mkWorld (cards w) (avatars w) (globalFocusListenerPermission w)
    (currentWorkspaceId w) (currentWorkspaceUrl w) (workspaces w)
    (store w) (placements w) (f (faults w))
    (entropy w) (renderer w) (nextWindow w) (trace w).

Definition set_entropy (f : list (list N) -> list (list N)) (w : World)
    : World :=
  mkWorld (cards w) (avatars w) (globalFocusListenerPermission w)
    (currentWorkspaceId w) (currentWorkspaceUrl w) (workspaces w)
    (store w) (placements w) (faults w)
    (f (entropy w)) (renderer w) (nextWindow w) (trace w).

Definition set_nextWindow (f : nat -> nat) (w : World) : World :=
  mkWorld (cards w) (avatars w) (globalFocusListenerPermission w)
    (currentWorkspaceId w) (currentWorkspaceUrl w) (workspaces w)
    (store w) (placements w) (faults w)
    (entropy w) (renderer w) (f (nextWindow w)) (trace w).

(** Appends one event to the log. *)
Definition emit (e : Event) (w : World) : World :=
  mkWorld (cards w) (avatars w) (globalFocusListenerPermission w)
    (currentWorkspaceId w) (currentWorkspaceUrl w) (workspaces w)
    (store w) (placements w) (faults w)
    (entropy w) (renderer w) (nextWindow w) (trace w ++ [e]).

(** Whether the [n]-th request to the persistence layer from now on meets
    an I/O failure. *)
Definition faultAt (n : nat) (w : World) : bool := nth n (faults w) false.

(** The events logged between two worlds, the second a later state of
    the first. *)
Definition traceSince (w w' : World) : list Event :=
  skipn (length (trace w)) (trace w').

Definition isSleep (e : Event) : bool :=
  match e with
  | Sleep _ => true
  | _ => false
  end.

Definition isConsoleError (e : Event) : bool :=
  match e with
  | ConsoleError _ => true
  | _ => false
  end.

Definition isIoDeleteCardData (e : Event) : bool :=
  match e with
  | IoDeleteCardData _ => true
  | _ => false
  end.

Definition count (f : Event -> bool) (t : list Event) : nat :=
  length (List.filter f t).

Definition isIoGetCardData (id : string) (e : Event) : bool :=
  match e with
  | IoGetCardData id' => String.eqb id id'
  | _ => false
  end.

Definition isWinMoveTop (e : Event) : bool :=
  match e with
  | WinMoveTop _ => true
  | _ => false
  end.

Definition isWinCreate (e : Event) : bool :=
  match e with
  | WinCreate _ _ => true
  | _ => false
  end.

Definition isAnyWinDestroy (e : Event) : bool :=
  match e with
  | WinDestroy _ => true
  | _ => false
  end.

(** The windows raised by [moveTop], in the order of the calls. *)
Fixpoint raisedWindows (t : list Event) : list nat :=
  match t with
  | [] => []
  | WinMoveTop h :: r => h :: raisedWindows r
  | _ :: r => raisedWindows r
  end.

(** The kinds of event the start-up theorems follow through the log. *)
Definition watched (f : Event -> bool) : Prop :=
  (exists id, f = isIoGetCardData id) \/ f = isWinMoveTop \/
  f = isAnyWinDestroy.

(** [quiet w w']: the log has grown between [w] and [w'], by no event of
    a watched kind. *)
Definition quiet (w w' : World) : Prop :=
  exists t, trace w' = (trace w ++ t)%list /\
            forall f, watched f -> forallb (fun e => negb (f e)) t = true.

(** The list the [ready] handler works with: the recorded urls of the
    current workspace, or nothing when they cannot be read. *)
Definition recordedUrls (w : World) : list string :=
  if faultAt 0 w then []
  else default [] (placements w !! currentWorkspaceId w).

(** The registry of avatars up to the flags: keys, properties and window
    handles. *)
Definition shape (avs : JsMap.t Avatar.t)
    : list (string * AvatarProp.t * nat) :=
  map (fun ka => (fst ka, Avatar.prop (snd ka), Avatar.window (snd ka))) avs.

(** Every avatar is registered once, under the url of its own [prop]. *)
Definition wellKeyed (avs : JsMap.t Avatar.t) : Prop :=
  NoDup (JsMap.keys avs) /\
  forall k a, In (k, a) avs -> AvatarProp.url (Avatar.prop a) = k.

Definition windowOf (avs : JsMap.t Avatar.t) (k : string) : nat :=
  match JsMap.get k avs with
  | Some a => Avatar.window a
  | None => 0%nat
  end.

(** ** Functions with effects

    [Js A] is a JavaScript computation with a result of type [A]. State
    changes made before a throw are kept, as in JavaScript. Awaiting is
    sequencing: a promise's body runs when it is created, and [spawn] keeps
    its outcome as a value to be awaited later. *)
Definition Js (A : Type) : Type := World -> Outcome A * World.

Definition ret {A} (a : A) : Js A := fun w => (Returned a, w).

Definition bind {A B} (m : Js A) (k : A -> Js B) : Js B :=
  fun w =>
    match m w with
    | (Returned a, w') => k a w'
    | (Thrown e, w') => (Thrown e, w')
    | (Pending, w') => (Pending, w')
    end.

Definition throw {A} (e : JsError) : Js A := fun w => (Thrown e, w).

Definition tryCatch {A} (m : Js A) (handler : JsError -> Js A) : Js A :=
  fun w =>
    match m w with
    | (Thrown e, w') => handler e w'
    | r => r
    end.

Definition spawn {A} (m : Js A) : Js (Outcome A) :=
  fun w => let '(o, w') := m w in (Returned o, w').

Definition await {A} (o : Outcome A) : Js A := fun w => (o, w).

Definition pending {A} : Js A := fun w => (Pending, w).

Definition gets {A} (f : World -> A) : Js A := fun w => (Returned (f w), w).

Definition modify (f : World -> World) : Js unit :=
  fun w => (Returned tt, f w).

Definition log (e : Event) : Js unit := modify (emit e).

(** [maintains R m]: whatever the outcome of [m], the world it leaves is
    related by [R] to the world it started in. *)
Definition maintains {A} (R : World -> World -> Prop) (m : Js A) : Prop :=
  forall w, R w (snd (m w)).

(** The parts of the world that opening and rendering avatars never
    change. *)
Definition sameSetting (w w' : World) : Prop :=
  cards w' = cards w /\ store w' = store w /\
  currentWorkspaceId w' = currentWorkspaceId w /\
  currentWorkspaceUrl w' = currentWorkspaceUrl w /\
  renderer w' = renderer w /\ entropy w' = entropy w.


(** Every registered card has its [prop]: cards are registered after they
    have been built or loaded. *)
Definition cardsLoaded (w : World) : Prop :=
  forall k c, cards w !! k = Some c -> is_Some (Card.prop c).

(** [preserves f m]: [m] never changes the component [f] of the world. *)
Definition preserves {A X} (f : World -> X) (m : Js A) : Prop :=
  maintains (fun w w' => f w' = f w) m.

End WorldDef.

Declare Scope js_scope.
Delimit Scope js_scope with js.
Notation "'let!' x ':=' m 'in' k" := (bind m (fun x => k))
  (at level 10, x name, m at level 100, k at level 200) : js_scope.
Notation "m ';;' k" := (bind m (fun _ => k))
  (at level 100, k at level 200, right associativity) : js_scope.
Local Open Scope js_scope.

(** ** What the registry imports

    [getIdFromUrl], [getAvatarLocation], the two [fromObject] hydrators and
    the two constructors live in [modules_common/cardprop.ts], which is not
    among the sources; the registry is verified for every implementation of
    them. [stringMatch loc pattern] is the truth value of JavaScript's
    [loc.match(pattern)]. *)
Class CardPropModule {P : Payload} : Type := {
  getIdFromUrl : string -> string;
  getAvatarLocation : string -> string;
  CardProp_fromObject : CardPropSerializable -> JsError + CardProp.t;
  AvatarProp_fromObject : AvatarPropSerializable -> JsError + AvatarProp.t;
  CardProp_new : string -> CardProp.t;
  AvatarProp_new :
    string -> option string -> option TransformableFeature.t -> AvatarProp.t;
  stringMatch : string -> string -> bool
}.

Section Registry.
Context {P : Payload} {M : CardPropModule}.

Fixpoint forEach {A} (l : list A) (body : A -> Js unit) : Js unit :=
  match l with
  | [] => ret tt
  | a :: r => body a ;; forEach r body
  end.

Definition liftSum {A} (r : JsError + A) : Js A :=
  match r with
  | inl e => throw e
  | inr a => ret a
  end.

(** *** Runtime services *)

Definition consoleError (msg : string) : Js unit := log (ConsoleError msg).

Definition sleep (ms : Z) : Js unit := log (Sleep ms).

Definition uuidv4 : Js string :=
  fun w =>
    (Returned (Uuid.v4 (hd [] (entropy w))), set_entropy (@tl (list N)) w).

Definition newBrowserWindow (avatarUrl : string) : Js nat :=
  let! h := gets nextWindow in
  modify (set_nextWindow S) ;;
  log (WinCreate h avatarUrl) ;;
  ret h.

Definition isWinDestroy (h : nat) (e : Event) : bool :=
  match e with
  | WinDestroy h' => Nat.eqb h h'
  | _ => false
  end.

Definition isDestroyed (h : nat) (w : World) : bool :=
  existsb (isWinDestroy h) (trace w).

Definition windowDestroy (h : nat) : Js unit := log (WinDestroy h).

(** *** The persistence layer *)

(** Modelled from the spec: [CardIO] of [modules_main/io.ts], which is not
    among the sources. A map from card id to record and, per workspace, the
    ordered set of placed avatar urls; reading or deleting an unknown id
    fails with NotFound; writing upserts. Any request can also fail with an
    IOFailure: the next entry of [faults] says whether this one does. *)
Definition ioFault : Js unit :=
  fun w =>
    (if faultAt 0 w then Thrown (mkError IOFailure "I/O failure")
     else Returned tt,
     set_faults (@tl bool) w).

Definition notFound (id : string) : JsError :=
  mkError NotFound ("not found: " +:+ id).

Definition CardIO_getCardData (id : string) : Js CardProp.t :=
  log (IoGetCardData id) ;;
  ioFault ;;
  let! st := gets store in
  match st !! id with
  | Some p => ret p
  | None => throw (notFound id)
  end.

Definition CardIO_updateOrCreateCardData (prop : CardProp.t) : Js string :=
  log (IoUpdateOrCreateCardData (CardProp.id prop)) ;;
  ioFault ;;
  modify (set_store (insert (CardProp.id prop) prop)) ;;
  ret (CardProp.id prop).

Definition CardIO_deleteCardData (id : string) : Js string :=
  log (IoDeleteCardData id) ;;
  ioFault ;;
  let! st := gets store in
  match st !! id with
  | Some _ => modify (set_store (delete id)) ;; ret id
  | None => throw (notFound id)
  end.

Definition mem (u : string) (l : list string) : bool :=
  existsb (String.eqb u) l.

Definition remove (u : string) (l : list string) : list string :=
  List.filter (fun v => negb (String.eqb v u)) l.

Definition placed (workspaceId : string) (w : World) : list string :=
  default [] (placements w !! workspaceId).

Definition CardIO_getAvatarUrlList (workspaceId : string) : Js (list string) :=
  log (IoGetAvatarUrlList workspaceId) ;;
  ioFault ;;
  gets (placed workspaceId).

Definition CardIO_addAvatarUrl (workspaceId avatarUrl : string) : Js unit :=
  log (IoAddAvatarUrl workspaceId avatarUrl) ;;
  ioFault ;;
  let! l := gets (placed workspaceId) in
  if mem avatarUrl l then ret tt
  else modify (set_placements (insert workspaceId (l ++ [avatarUrl])%list)).

Definition CardIO_deleteAvatarUrl (workspaceId avatarUrl : string) : Js unit :=
  log (IoDeleteAvatarUrl workspaceId avatarUrl) ;;
  ioFault ;;
  let! l := gets (placed workspaceId) in
  modify (set_placements (insert workspaceId (remove avatarUrl l))).

(** *** workspace.ts *)

Definition getCurrentWorkspace (w : World) : option Workspace :=
  workspaces w !! currentWorkspaceId w.

(** *** Promises *)

(** [Promise.all]: rejected as soon as one member is rejected, fulfilled
    when all are, pending otherwise. Of several rejections the first of the
    list is reported. *)
Fixpoint firstThrown (os : list (Outcome unit)) : option JsError :=
  match os with
  | [] => None
  | Thrown e :: _ => Some e
  | _ :: r => firstThrown r
  end.

Definition isPending (o : Outcome unit) : bool :=
  match o with
  | Pending => true
  | _ => false
  end.

Definition promiseAll (os : list (Outcome unit)) : Outcome unit :=
  match firstThrown os with
  | Some e => Thrown e
  | None => if existsb isPending os then Pending else Returned tt
  end.

(** *** card.ts: lookups *)

Definition getCardFromUrl (_url : string) (w : World) : option Card.t :=
  cards w !! getIdFromUrl _url.

Definition generateNewCardId : Js string := uuidv4.

(** Reading [card.prop.f] of a card whose [prop] is still undefined is a
    TypeError of the runtime. *)
Definition readProp (card : Card.t) : Js CardProp.t :=
  match Card.prop card with
  | Some p => ret p
  | None => throw (TypeError "Cannot read properties of undefined")
  end.

Definition getCardData (avatarUrl : string) : Js (option string) :=
  let! c := gets (getCardFromUrl avatarUrl) in
  match c with
  | None => ret None
  | Some card => let! p := readProp card in ret (Some (CardProp.data p))
  end.

Definition getAvatarProp (avatarUrl : string)
    : Js (option TransformableFeature.t) :=
  let! c := gets (getCardFromUrl avatarUrl) in
  match c with
  | None => ret None
  | Some card =>
      let! p := readProp card in
      ret (JsMap.get (getAvatarLocation avatarUrl) (CardProp.avatars p))
  end.

(** *** card.ts: class Card *)

(** The optional second argument of the constructor. *)
Inductive CardArg : Type :=
| ArgUndefined
| ArgCardProp (p : CardProp.t)
| ArgString (s : string).

(** [new Card(cardInitializeType, arg)]. With a [CardProp] argument the
    card keeps that very object: an id assigned here is seen by everyone
    holding it. *)
Definition Card_new (cardInitializeType : CardInitializeType) (arg : CardArg)
    : Js Card.t :=
  match cardInitializeType with
  | New =>
      match arg with
      | ArgUndefined =>
          let! id := generateNewCardId in
          ret (Card.mk New (Some (CardProp_new id)) ResolveAtOnce)
      | ArgCardProp p =>
          if String.eqb (CardProp.id p) "" then
            let! id := generateNewCardId in
            ret (Card.mk New (Some (CardProp.set_id id p)) ResolveAtOnce)
          else ret (Card.mk New (Some p) ResolveAtOnce)
      | ArgString _ =>
          throw (TypeError
            "Second parameter must be CardProp when creating new card.")
      end
  | Load =>
      match arg with
      | ArgString id => ret (Card.mk Load None (GetCardData id))
      | _ =>
          throw (TypeError
            "Second parameter must be id string when loading the card.")
      end
  end.

(** [card.loadOrCreateCardData()]; the result is the card as mutated. *)
Definition loadOrCreateCardData (card : Card.t) : Js Card.t :=
  match Card.loadOrCreateCardData card with
  | ResolveAtOnce => ret card
  | GetCardData id =>
      let! p := CardIO_getCardData id in
      ret (Card.set_prop p card)
  end.

(** *** main.ts: the [finish-render-card] handler

    The renderer's acknowledgement; [Avatar._renderCard] polls the flag it
    sets. *)
Definition finishRenderCard (url : string) : Js unit :=
  let! avs := gets avatars in
  match JsMap.get url avs with
  | Some avatar =>
      modify (set_avatars
        (JsMap.set url (Avatar.set_renderingCompleted true avatar)))
  | None => ret tt
  end.

(** *** card.ts: class Avatar *)

(** [new Avatar(_prop)]: a fresh window, all flags false. The listeners the
    constructor attaches are the functions [_focusListener],
    [_blurListener] and [closedListener] below; the runtime calls them. The
    navigation guard and the context menu are not modelled. *)
Definition Avatar_new (_prop : AvatarProp.t) : Js Avatar.t :=
  let! h := newBrowserWindow (AvatarProp.url _prop) in
  ret (Avatar.mk _prop h false false false false).

Definition closedListener (this : Avatar.t) : Js unit :=
  modify (set_avatars (JsMap.delete (AvatarProp.url (Avatar.prop this)))).

Definition _loadHTML (this : Avatar.t) : Js unit :=
  log (WinLoadURL (Avatar.window this)) ;;
  let! answer :=
    gets (fun w => renderer w (AvatarProp.url (Avatar.prop this))) in
  match answer with
  | LoadFailed description =>
      throw (Error ("Error in loadHTML: " +:+ description))
  | _ => ret tt
  end.

(** The poll of [_renderCard]: the promise is fulfilled once the avatar's
    [renderingCompleted] is true. The flag is read from the registry entry
    of this avatar, where the acknowledgement handler writes it. *)
Definition pollRenderingCompleted (this : Avatar.t) : Js unit :=
  let! avs := gets avatars in
  match JsMap.get (AvatarProp.url (Avatar.prop this)) avs with
  | Some a =>
      if Nat.eqb (Avatar.window a) (Avatar.window this)
         && Avatar.renderingCompleted a
      then ret tt else pending
  | None => pending
  end.

Definition _renderCard (this : Avatar.t) (_prop : AvatarProp.t) : Js unit :=
  let g := AvatarProp.geometry _prop in
  let h := Avatar.window this in
  log (WinSetSize h (Geometry.width g) (Geometry.height g)) ;;
  log (WinSetPosition h (Geometry.x g) (Geometry.y g)) ;;
  log (WinShowInactive h) ;;
  log (WinSend h "render-card") ;;
  let! answer := gets (fun w => renderer w (AvatarProp.url _prop)) in
  match answer with
  | RenderCompleted => finishRenderCard (AvatarProp.url _prop)
  | _ => ret tt
  end ;;
  pollRenderingCompleted this.

Definition render (this : Avatar.t) : Js unit :=
  tryCatch (_loadHTML this)
    (fun e => throw (Error ("Error in render(): " +:+ message e))) ;;
  tryCatch (_renderCard this (Avatar.prop this))
    (fun e => throw (Error ("Error in _renderCard(): " +:+ message e))).

(** The listeners mutate the avatar they are bound to; they return it. *)
Definition _focusListener (this : Avatar.t) (w : World) : Avatar.t * World :=
  let '(this1, w1) :=
    if Avatar.recaptureGlobalFocusEventAfterLocalFocusEvent this then
      (Avatar.set_recaptureGlobalFocusEventAfterLocalFocusEvent false this,
       setGlobalFocusEventListenerPermission true w)
    else (this, w) in
  if Avatar.suppressFocusEventOnce this1 then
    (Avatar.set_suppressFocusEventOnce false this1, w1)
  else if negb (getGlobalFocusEventListenerPermission w1) then
    (this1, w1)
  else
    (this1, emit (WinSend (Avatar.window this1) "card-focused") w1).

Definition _blurListener (this : Avatar.t) (w : World) : Avatar.t * World :=
  if Avatar.suppressBlurEventOnce this then
    (Avatar.set_suppressBlurEventOnce false this, w)
  else
    (this, emit (WinSend (Avatar.window this) "card-blurred") w).

(** *** card.ts: the registry operations *)

Definition saveCard (cardProp : CardProp.t) : Js unit :=
  tryCatch (CardIO_updateOrCreateCardData cardProp ;; ret tt)
    (fun e => consoleError (message e)).

(** [getCurrentWorkspace()!.avatars.push(avatarUrl)] *)
Definition pushWorkspaceAvatar (avatarUrl : string) : Js unit :=
  let! ws := gets getCurrentWorkspace in
  match ws with
  | None => throw (TypeError "Cannot read properties of undefined")
  | Some ws =>
      let! wsId := gets currentWorkspaceId in
      modify (set_workspaces
        (insert wsId {| ws_avatars := (ws_avatars ws ++ [avatarUrl])%list |}))
  end.

(** The body of the loop of [createCard] for a location of the current
    workspace; it returns the two promises it pushes. *)
Definition createAvatar (avatarUrl : string)
    : Js (Outcome unit * Outcome unit) :=
  let! d := getCardData avatarUrl in
  let! f := getAvatarProp avatarUrl in
  let! avatar := Avatar_new (AvatarProp_new avatarUrl d f) in
  modify (set_avatars (JsMap.set avatarUrl avatar)) ;;
  let! p1 := spawn (render avatar) in
  pushWorkspaceAvatar avatarUrl ;;
  let! wsId := gets currentWorkspaceId in
  let! p2 := spawn (CardIO_addAvatarUrl wsId avatarUrl) in
  ret (p1, p2).

(** The loop of [createCard] over the locations of the card; it returns
    the promises collected. *)
Fixpoint createAvatars (workspaceUrl id : string) (locs : list string)
    : Js (list (Outcome unit)) :=
  match locs with
  | [] => ret []
  | loc :: rest =>
      if stringMatch loc workspaceUrl then
        let! ps := createAvatar (loc +:+ id) in
        let! promises := createAvatars workspaceUrl id rest in
        ret (fst ps :: snd ps :: promises)
      else createAvatars workspaceUrl id rest
  end.

Definition createCard (propObject : CardPropSerializable) : Js string :=
  let! prop := liftSum (CardProp_fromObject propObject) in
  let! card := Card_new New (ArgCardProp prop) in
  (* [prop] and [card.prop] are one object from here on *)
  let! prop := readProp card in
  modify (set_cards (insert (CardProp.id prop) card)) ;;
  let! workspaceUrl := gets currentWorkspaceUrl in
  let! promises :=
    createAvatars workspaceUrl (CardProp.id prop)
      (JsMap.keys (CardProp.avatars prop)) in
  tryCatch (await (promiseAll promises))
    (fun e => consoleError ("Error in createCard: " +:+ message e)) ;;
  saveCard prop ;;
  ret (CardProp.id prop).

(** The body of the loop of [deleteCard]: [key] runs over the keys of
    [card.prop.avatars], which are locations, and is looked up in
    [avatars] as it is. *)
Definition destroyAvatarAt (key : string) : Js unit :=
  let! avs := gets avatars in
  match JsMap.get key avs with
  | Some avatar =>
      modify (set_avatars (JsMap.delete key)) ;;
      windowDestroy (Avatar.window avatar)
  | None => ret tt
  end.

(** The promise chain at the end of [deleteCard]:
    [deleteCardData(id).catch(..).then(..).catch(..)]. *)
Definition deleteCardRecord (id : string) : Js unit :=
  tryCatch
    (tryCatch (CardIO_deleteCardData id ;; ret tt)
       (fun e => throw (Error ("Error in delete-card: " +:+ message e))) ;;
     modify (set_cards (delete id)))
    (fun e => throw (Error ("Error in destroy window: " +:+ message e))).

Definition deleteCard (id : string) : Js unit :=
  let! cs := gets cards in
  match cs !! id with
  | None =>
      consoleError ("Error in deleteCard: card does not exist: " +:+ id)
  | Some card =>
      let! prop := readProp card in
      forEach (JsMap.keys (CardProp.avatars prop)) destroyAvatarAt ;;
      deleteCardRecord id
  end.

(** The [for] loop of [deleteCardWithRetry], with [n] iterations left. *)
Fixpoint deleteCardRetryLoop (n : nat) (id : string) : Js unit :=
  match n with
  | O => ret tt
  | S n' =>
      let! doRetry :=
        tryCatch (deleteCard id ;; ret false)
          (fun e => consoleError (message e) ;; ret true) in
      if negb doRetry then ret tt
      else sleep 1000 ;; deleteCardRetryLoop n' id
  end.

Definition deleteCardWithRetry (id : string) : Js unit :=
  deleteCardRetryLoop 5 id.

Definition deleteAvatar (_url : string) : Js unit :=
  let! avs := gets avatars in
  match JsMap.get _url avs with
  | Some avatar =>
      modify (set_avatars (JsMap.delete _url)) ;;
      windowDestroy (Avatar.window avatar) ;;
      let! wsId := gets currentWorkspaceId in
      CardIO_deleteAvatarUrl wsId _url ;;
      let! ws := gets getCurrentWorkspace in
      match ws with
      | Some ws =>
          modify (set_workspaces
            (insert wsId {| ws_avatars := remove _url (ws_avatars ws) |}))
      | None => ret tt
      end
  | None => ret tt
  end ;;
  let! c := gets (getCardFromUrl _url) in
  match c with
  | None => ret tt
  | Some card =>
      let! prop := readProp card in
      let prop' :=
        CardProp.set_avatars
          (JsMap.delete (getAvatarLocation _url) (CardProp.avatars prop))
          prop in
      modify (set_cards (insert (getIdFromUrl _url) (Card.set_prop prop' card))) ;;
      saveCard prop'
  end.

Definition updateAvatar (avatarPropObj : AvatarPropSerializable) : Js unit :=
  let! prop := liftSum (AvatarProp_fromObject avatarPropObj) in
  let! c := gets (getCardFromUrl (AvatarProp.url prop)) in
  match c with
  | None =>
      throw (Error ("The card is not registered in cards: "
                    +:+ AvatarProp.url prop))
  | Some card =>
      let feature :=
        TransformableFeature.mk (AvatarProp.geometry prop)
          (AvatarProp.style prop) (AvatarProp.condition prop)
          (AvatarProp.date prop) in
      let! cardProp := readProp card in
      let cardProp' :=
        CardProp.set_avatars
          (JsMap.set (getAvatarLocation (AvatarProp.url prop)) feature
             (CardProp.avatars cardProp))
          (CardProp.set_data (AvatarProp.data prop) cardProp) in
      modify (set_cards
        (insert (getIdFromUrl (AvatarProp.url prop))
           (Card.set_prop cardProp' card))) ;;
      saveCard cardProp'
  end.

(** *** main.ts: sorting the avatars back to front *)

(** [avatars.get(k)!.prop.geometry.z]. The keys compared are always keys of
    the map (lemma [zOf_registered]); zero stands for the unreachable
    undefined case. *)
Definition zOf (avs : JsMap.t Avatar.t) (k : string) : Z :=
  match JsMap.get k avs with
  | Some a => Geometry.z (AvatarProp.geometry (Avatar.prop a))
  | None => 0
  end.

(** The comparator handed to [sort] in the three places that sort. *)
Definition compareZ (avs : JsMap.t Avatar.t) (a b : string) : Z :=
  (if zOf avs a <? zOf avs b then -1
   else if zOf avs a >? zOf avs b then 1
   else 0)%Z.

(** [Array.prototype.sort] with a comparator: a stable sort. *)
Fixpoint insertSorted {A} (cmp : A -> A -> Z) (a : A) (l : list A) : list A :=
  match l with
  | [] => [a]
  | b :: r =>
      if (cmp a b <=? 0)%Z then a :: b :: r else b :: insertSorted cmp a r
  end.

Fixpoint sort {A} (cmp : A -> A -> Z) (l : list A) : list A :=
  match l with
  | [] => []
  | a :: r => insertSorted cmp a (sort cmp r)
  end.

Definition backToFrontOf (avs : JsMap.t Avatar.t) : list string :=
  sort (compareZ avs) (JsMap.keys avs).

Fixpoint removeFirst (u : string) (l : list string) : list string :=
  match l with
  | [] => []
  | v :: r => if String.eqb v u then r else v :: removeFirst u r
  end.

(** [l.splice(l.indexOf(u), 1)]: an absent [u] has index -1, and
    [splice(-1, 1)] removes the last element. *)
Definition spliceOut (u : string) (l : list string) : list string :=
  if mem u l then removeFirst u l else removelast l.

(** The body of the rearranging loops: arm the flag, then focus. *)
Definition suppressAndFocus (key : string) : Js unit :=
  let! avs := gets avatars in
  match JsMap.get key avs with
  | Some a =>
      modify (set_avatars
        (JsMap.set key (Avatar.set_suppressFocusEventOnce true a))) ;;
      log (WinFocus (Avatar.window a))
  | None => throw (TypeError "Cannot set properties of undefined")
  end.

(** [avatars.get(key)!.prop.geometry.z] for an optional key. *)
Definition zOfKey (key : option string) : Js Z :=
  let! avs := gets avatars in
  match key with
  | Some k =>
      match JsMap.get k avs with
      | Some a => ret (Geometry.z (AvatarProp.geometry (Avatar.prop a)))
      | None => throw (TypeError "Cannot read properties of undefined")
      end
  | None => throw (TypeError "Cannot read properties of undefined")
  end.

(** *** main.ts: the z-order handlers; [None] is JavaScript's undefined *)

Definition bringToFront (url : string) (rearrange : bool) : Js (option Z) :=
  let! avs := gets avatars in
  match JsMap.get url avs with
  | None => ret None
  | Some avatar =>
      let backToFront := backToFrontOf avs in
      let! zLast := zOfKey (last backToFront) in
      let newZ := zLast + 1 in
      let backToFront := (spliceOut url backToFront ++ [url])%list in
      (if rearrange then forEach backToFront suppressAndFocus else ret tt) ;;
      ret (Some newZ)
  end.

Definition sendToBack (url : string) : Js (option Z) :=
  let! avs := gets avatars in
  match JsMap.get url avs with
  | None => ret None
  | Some avatar =>
      let backToFront := backToFrontOf avs in
      let! zFirst := zOfKey (head backToFront) in
      let newZ := zFirst - 1 in
      let backToFront := url :: spliceOut url backToFront in
      forEach backToFront suppressAndFocus ;;
      ret (Some newZ)
  end.

(** *** main.ts: the focus handlers *)

Definition blurAndFocusWithSuppressEvents (url : string) : Js unit :=
  let! avs := gets avatars in
  match JsMap.get url avs with
  | Some avatar =>
      modify (setGlobalFocusEventListenerPermission false) ;;
      let avatar := Avatar.set_suppressBlurEventOnce true avatar in
      modify (set_avatars (JsMap.set url avatar)) ;;
      log (WinBlur (Avatar.window avatar)) ;;
      let avatar :=
        Avatar.set_recaptureGlobalFocusEventAfterLocalFocusEvent true
          (Avatar.set_suppressFocusEventOnce true avatar) in
      modify (set_avatars (JsMap.set url avatar)) ;;
      log (WinFocus (Avatar.window avatar))
  | None => ret tt
  end.

Definition blurAndFocusWithSuppressFocusEvent (url : string) : Js unit :=
  let! avs := gets avatars in
  match JsMap.get url avs with
  | Some avatar =>
      modify (setGlobalFocusEventListenerPermission false) ;;
      log (WinBlur (Avatar.window avatar)) ;;
      let avatar :=
        Avatar.set_recaptureGlobalFocusEventAfterLocalFocusEvent true avatar in
      modify (set_avatars (JsMap.set url avatar)) ;;
      log (WinFocus (Avatar.window avatar))
  | None => ret tt
  end.

(** *** main.ts: the [ready] handler *)

(** [[...new Set(l)]]: the first occurrences, in order. *)
Fixpoint uniqueFrom (seen l : list string) : list string :=
  match l with
  | [] => []
  | a :: r =>
      if mem a seen then uniqueFrom seen r else a :: uniqueFrom (a :: seen) r
  end.

Definition unique (l : list string) : list string := uniqueFrom [] l.

Fixpoint mapJs {A B} (f : A -> Js B) (l : list A) : Js (list B) :=
  match l with
  | [] => ret []
  | a :: r => let! b := f a in let! bs := mapJs f r in ret (b :: bs)
  end.

(** [loadCard], the loader of one card, in its two halves. Up to its
    [await] the read of the card is requested. *)
Definition requestCardData (card : Card.t) : Js (Outcome Card.t) :=
  spawn (loadOrCreateCardData card).

(** When the read has settled the loader resumes: it registers the card,
    or rejects with the error of the read. *)
Definition resumeLoadCard (loaded : Outcome Card.t) : Js unit :=
  let! card := await loaded in
  let! prop := readProp card in
  modify (set_cards (insert (CardProp.id prop) card)).

Definition loadCard (card : Card.t) : Js unit :=
  let! loaded := requestCardData card in
  resumeLoadCard loaded.

Definition setAvatarEntry (avatar : Avatar.t) : Js unit :=
  modify (set_avatars (JsMap.set (AvatarProp.url (Avatar.prop avatar)) avatar)).

(** [CardIO.updateOrCreateCardData(card.prop).catch(..)] as written in
    the handler; the same as [saveCard]. *)
Definition saveCardAtStartup (prop : CardProp.t) : Js unit :=
  tryCatch (CardIO_updateOrCreateCardData prop ;; ret tt)
    (fun e => consoleError (message e)).

(** The body of the loop over the locations of the new card. The promise
    of [addAvatarUrl] is not awaited: a rejection goes nowhere. *)
Definition recordPlacement (wsId id loc : string) : Js unit :=
  let _url := loc +:+ id in
  pushWorkspaceAvatar _url ;;
  spawn (CardIO_addAvatarUrl wsId _url) ;;
  ret tt.

(** The branch taken when no avatar url is recorded: one new card. It
    returns the urls of the avatars to open. *)
Definition createDefaultCard : Js (list string) :=
  let! card := Card_new New ArgUndefined in
  let! card := loadOrCreateCardData card in
  let! prop := readProp card in
  let avatarLocs := JsMap.keys (CardProp.avatars prop) in
  let! wsId := gets currentWorkspaceId in
  forEach avatarLocs (recordPlacement wsId (CardProp.id prop)) ;;
  modify (set_cards (insert (CardProp.id prop) card)) ;;
  saveCardAtStartup prop ;;
  ret (map (fun loc => loc +:+ CardProp.id prop) avatarLocs).

(** One loader of the other branch, [loadCard(new Card('Load', id))], up
    to its [await]: the loaders are all started before any of them
    resumes. *)
Definition loadCardById (id : string) : Js (Outcome Card.t) :=
  let! card := Card_new Load (ArgString id) in
  requestCardData card.

(** [await Promise.all(loaders).catch(..)]. The reads settle in the order
    of their requests, and each loader resumes when its read has settled
    (a request to this [CardIO] always settles). While the loaders fulfil,
    the handler waits; at the first rejection [Promise.all] rejects and
    the handler reports it and goes on. The loaders that have not resumed
    by then are returned: they resume behind the handler. *)
Fixpoint awaitLoaders (loaders : list (Outcome Card.t))
    : Js (list (Outcome Card.t)) :=
  match loaders with
  | [] => ret []
  | loaded :: rest =>
      let! rejected :=
        tryCatch (resumeLoadCard loaded ;; ret None)
          (fun e => ret (Some e)) in
      match rejected with
      | None => awaitLoaders rest
      | Some e =>
          consoleError
            ("Error while loading cards in ready event: " +:+ message e) ;;
          ret rest
      end
  end.

(** The other branch: every card behind the recorded urls is loaded. The
    result is the loaders still to resume when the handler goes on. *)
Definition loadCards (avatarIdArray : list string)
    : Js (list (Outcome Card.t)) :=
  let cardIdArray := map getIdFromUrl avatarIdArray in
  let uniqueCardIdArray := unique cardIdArray in
  let! loaders := mapJs loadCardById uniqueCardIdArray in
  awaitLoaders loaders.

(** The loaders left behind resume at the next [await] of the handler;
    [Promise.all] has settled, and a rejection among them goes nowhere. *)
Definition resumeBehind (loaders : list (Outcome Card.t)) : Js unit :=
  forEach loaders
    (fun loaded => tryCatch (resumeLoadCard loaded) (fun _ => ret tt)).

Definition raiseWindow (key : string) : Js unit :=
  let! avs := gets avatars in
  match JsMap.get key avs with
  | Some avatar =>
      let! gone := gets (isDestroyed (Avatar.window avatar)) in
      if negb gone then log (WinMoveTop (Avatar.window avatar)) else ret tt
  | None => ret tt
  end.

(** The list of recorded avatar urls; a failure to read it is logged and
    counts as an empty list. *)
Definition getRecordedAvatarUrls : Js (list string) :=
  let! wsId := gets currentWorkspaceId in
  tryCatch (CardIO_getAvatarUrlList wsId)
    (fun e =>
       consoleError ("Cannot load a list of cards: " +:+ message e) ;;
       ret []).

Definition openAvatar (avatarUrl : string) : Js unit :=
  let! d := getCardData avatarUrl in
  let! f := getAvatarProp avatarUrl in
  let! avatar := Avatar_new (AvatarProp_new avatarUrl d f) in
  setAvatarEntry avatar.

Definition renderAvatars : Js unit :=
  let! avs := gets avatars in
  let! renderers :=
    mapJs (fun avatar => spawn (render avatar)) (JsMap.values avs) in
  tryCatch (await (promiseAll renderers))
    (fun e => consoleError
       ("Error while rendering cards in ready event: " +:+ message e)).

Definition raiseWindows : Js unit :=
  let! avs := gets avatars in
  forEach (backToFrontOf avs) raiseWindow.

(** The part of the handler that deals with cards; the locale, the
    settings window and the tray are left out. The avatars are built as
    soon as the handler goes on after the loaders, from the cards
    registered by then. Its next [await] is that of the renders, where
    the loaders left behind resume; they are run before the renders here,
    which makes no difference: they log nothing and a render reads no
    card. *)
Definition onReady : Js unit :=
  let! avatarIdArray := getRecordedAvatarUrls in
  let! started :=
    match avatarIdArray with
    | [] => let! urls := createDefaultCard in ret (urls, [])
    | _ => let! behind := loadCards avatarIdArray in ret (avatarIdArray, behind)
    end in
  forEach (fst started) openAvatar ;;
  resumeBehind (snd started) ;;
  renderAvatars ;;
  raiseWindows.

(** *** What the loaders leave

    The outcome of the read of card [id] when it is the request number
    [i] from [w] on. *)
Definition readAt (w : World) (i : nat) (id : string) : Outcome Card.t :=
  if faultAt i w then Thrown (mkError IOFailure "I/O failure")
  else match store w !! id with
       | Some p => Returned (Card.mk Load (Some p) (GetCardData id))
       | None => Thrown (notFound id)
       end.

Fixpoint readsFrom (w : World) (i : nat) (ids : list string)
    : list (Outcome Card.t) :=
  match ids with
  | [] => []
  | id :: rest => readAt w i id :: readsFrom w (S i) rest
  end.

(** The registry after a loader has resumed. *)
Definition registerLoaded (cs : gmap string Card.t) (loaded : Outcome Card.t)
    : gmap string Card.t :=
  match loaded with
  | Returned card =>
      match Card.prop card with
      | Some p => <[CardProp.id p := card]> cs
      | None => cs
      end
  | _ => cs
  end.

(** A loader that resumes to completion or by rejecting with the error
    of its read. *)
Definition settledLoader (loaded : Outcome Card.t) : Prop :=
  match loaded with
  | Returned card => is_Some (Card.prop card)
  | Thrown _ => True
  | Pending => False
  end.

(** The loaders that resume before the handler does, the first error, and
    the loaders left behind. *)
Fixpoint beforeRejection (loaders : list (Outcome Card.t))
    : list (Outcome Card.t) :=
  match loaders with
  | Returned card :: rest => Returned card :: beforeRejection rest
  | _ => []
  end.

Fixpoint afterRejection (loaders : list (Outcome Card.t))
    : list (Outcome Card.t) :=
  match loaders with
  | Returned _ :: rest => afterRejection rest
  | _ :: rest => rest
  | [] => []
  end.

(** The ids of the cards registered when the handler goes on: those
    before the first read that is rejected. *)
Fixpoint loadedBefore (w : World) (i : nat) (ids : list string)
    : list string :=
  match ids with
  | [] => []
  | id :: rest =>
      if faultAt i w then []
      else match store w !! id with
           | Some _ => id :: loadedBefore w (S i) rest
           | None => []
           end
  end.

End Registry.

(** ** Window events and the remaining handlers of main.ts *)
Section WindowEvents.
Context {P : Payload} {M : CardPropModule}.

(** The events the windowing system delivers to a card window. The
    constructor of [Avatar] attaches [_focusListener], [_blurListener] and
    the [closed] handler to them. *)
Inductive WindowEvent : Type :=
  | FocusEvent (url : string)
  | BlurEvent (url : string)
  | ClosedEvent (url : string).

(** The runtime's call of a listener: it runs on the avatar object that
    owns the window, which is the object held by the registry, so what
    the listener writes to [this] is seen through [avatars]. *)
Definition emitFocus (url : string) (w : World) : World :=
  match JsMap.get url (avatars w) with
  | Some this =>
      let '(this', w') := _focusListener this w in
      set_avatars (JsMap.set url this') w'
  | None => w
  end.

Definition emitBlur (url : string) (w : World) : World :=
  match JsMap.get url (avatars w) with
  | Some this =>
      let '(this', w') := _blurListener this w in
      set_avatars (JsMap.set url this') w'
  | None => w
  end.

Definition emitClosed (url : string) (w : World) : World :=
  match JsMap.get url (avatars w) with
  | Some this => snd (closedListener this w)
  | None => w
  end.

Definition deliver (e : WindowEvent) (w : World) : World :=
  match e with
  | FocusEvent url => emitFocus url w
  | BlurEvent url => emitBlur url w
  | ClosedEvent url => emitClosed url w
  end.

Definition deliverAll (es : list WindowEvent) (w : World) : World :=
  fold_left (fun w e => deliver e w) es w.

(** *** main.ts: the [blur] and [focus] handlers *)

Definition blur (url : string) : Js unit :=
  let! avs := gets avatars in
  match JsMap.get url avs with
  | Some avatar => log (WinBlur (Avatar.window avatar))
  | None => ret tt
  end.

Definition focus (url : string) : Js unit :=
  let! avs := gets avatars in
  match JsMap.get url avs with
  | Some avatar => log (WinFocus (Avatar.window avatar))
  | None => ret tt
  end.

(** The messages a window has been sent. *)
Definition isWinSend (e : Event) : bool :=
  match e with
  | WinSend _ _ => true
  | _ => false
  end.

Definition allFlagsClear (a : Avatar.t) : Prop :=
  Avatar.suppressFocusEventOnce a = false /\
  Avatar.suppressBlurEventOnce a = false /\
  Avatar.recaptureGlobalFocusEventAfterLocalFocusEvent a = false.

End WindowEvents.

(** ** renderer.ts: the renderer process of a card window *)
Module Renderer.

(** *** Strings *)

(** [s.slice(1)] *)
Definition slice1 (s : string) : string :=
  match s with
  | EmptyString => EmptyString
  | String _ r => r
  end.

(** [s.split(sep)] for a one-character separator; the result is never
    empty, and the empty string gives one empty piece. *)
Fixpoint split (sep : ascii) (s : string) : list string :=
  match s with
  | EmptyString => [EmptyString]
  | String c r =>
      if Ascii.eqb c sep then EmptyString :: split sep r
      else
        match split sep r with
        | piece :: pieces => String c piece :: pieces
        | [] => [String c EmptyString]
        end
  end.

(** *** [onload]: the query of the window's location *)

(** The object [params]: a property holds a string or undefined. Only the
    property [id] is read afterwards. *)
Definition setParam (params : JsMap.t (option string)) (s : string)
    : JsMap.t (option string) :=
  let pair := split "=" s in
  JsMap.set (List.hd EmptyString pair) (pair !! 1%nat) params.

Definition paramsOf (search : string) : JsMap.t (option string) :=
  let arr := split "&" (slice1 search) in
  fold_left setParam arr JsMap.empty.

(** How [onload] ends: with the alert that asks for a restart, or with
    ['finish-load'] sent for the id, after the user interface is set up.
    The computed styles [onload] reads in between are not modelled. *)
Inductive OnloadOutcome : Type :=
  | RestartAlert
  | FinishLoad (id : string).

Definition onload (search : string) : OnloadOutcome :=
  let params := paramsOf search in
  let id := mjoin (JsMap.get "id" params) in
  match id with
  | None => RestartAlert
  | Some id => if String.eqb id "" then RestartAlert else FinishLoad id
  end.

(** *** The save queue *)

Record Rect : Type := mkRect { x : Z; y : Z; width : Z; height : Z }.

Inductive RendererEvent : Type :=
  | SaveData (rect : Rect)
  | Render (options : list string).

(** The state of the renderer process that the handlers of the hand-made
    moves and resizes touch: [cardProp.rect], the offsets kept by
    card_renderer.ts, the clock, the timer held in
    [execSaveCommandTimeout] (the time at which it is due), and the calls
    made to [saveData] and [render]. *)
Record State : Type := mkState {
  rect : Rect;
  renderOffsetWidth : Z;
  renderOffsetHeight : Z;
  clock : Z;
  execSaveCommandTimeout : option Z;
  calls : list RendererEvent
}.

Definition set_rect (r : Rect) (s : State) : State :=
  mkState r (renderOffsetWidth s) (renderOffsetHeight s) (clock s)
    (execSaveCommandTimeout s) (calls s).

Definition call (e : RendererEvent) (s : State) : State :=
  mkState (rect s) (renderOffsetWidth s) (renderOffsetHeight s) (clock s)
    (execSaveCommandTimeout s) (calls s ++ [e]).

Definition execSaveCommand (s : State) : State := call (SaveData (rect s)) s.

(** [clearTimeout(execSaveCommandTimeout)] and
    [setTimeout(execSaveCommand, 1000)] *)
Definition queueSaveCommand (s : State) : State :=
  mkState (rect s) (renderOffsetWidth s) (renderOffsetHeight s) (clock s)
    (Some (clock s + 1000)%Z) (calls s).

(** The handler of ['resize-by-hand']. *)
Definition resizeByHand (newBounds : Rect) (s : State) : State :=
  let r := rect s in
  let r := mkRect (x r) (y r) (width newBounds + renderOffsetWidth s)%Z
             (height r) in
  let r := mkRect (x r) (y r) (width r)
             (height newBounds + renderOffsetHeight s)%Z in
  queueSaveCommand
    (call (Render ["TitleBar"; "ContentsRect"; "EditorRect"]) (set_rect r s)).

(** The handler of ['move-by-hand']. *)
Definition moveByHand (newBounds : Rect) (s : State) : State :=
  let r := rect s in
  let r := mkRect (x newBounds) (y r) (width r) (height r) in
  let r := mkRect (x r) (y newBounds) (width r) (height r) in
  queueSaveCommand (set_rect r s).

(** The runtime: [dt] milliseconds pass with no message arriving; a timer
    that falls due in that time runs. *)
Definition elapse (dt : Z) (s : State) : State :=
  let later (s : State) :=
    mkState (rect s) (renderOffsetWidth s) (renderOffsetHeight s)
      (clock s + dt)%Z (execSaveCommandTimeout s) (calls s) in
  match execSaveCommandTimeout s with
  | Some due =>
      if (due <=? clock s + dt)%Z then
        later (execSaveCommand
                 (mkState (rect s) (renderOffsetWidth s)
                    (renderOffsetHeight s) (clock s) None (calls s)))
      else later s
  | None => later s
  end.

Inductive HandEvent : Type :=
  | MoveByHand (newBounds : Rect)
  | ResizeByHand (newBounds : Rect).

Definition handle (e : HandEvent) (s : State) : State :=
  match e with
  | MoveByHand b => moveByHand b s
  | ResizeByHand b => resizeByHand b s
  end.

(** A run of messages, each arriving [gap] milliseconds after the one
    before it. *)
Definition arrive (s : State) (m : Z * HandEvent) : State :=
  handle (snd m) (elapse (fst m) s).

Definition arriveAll (ms : list (Z * HandEvent)) (s : State) : State :=
  fold_left arrive ms s.

Definition isSaveData (e : RendererEvent) : bool :=
  match e with
  | SaveData _ => true
  | Render _ => false
  end.

End Renderer.

(** ** A concrete instance

    Used to run the operations on explicit registries. *)
Module Demo.

(** Wire forms: a card is its id, its content and the z order of each
    placement; an avatar is its url, its content and its z order. *)
Definition payload : Payload := {|
  Style := string;
  CardDate := string;
  CardPropSerializable := string * string * list (string * Z);
  AvatarPropSerializable := string * string * Z
|}.
#[export] Existing Instance payload.

(** Splits a string after its last slash. *)
Fixpoint splitLastSlash (s : string) : string * string :=
  match s with
  | EmptyString => ("", "")
  | String c r =>
      let '(p, i) := splitLastSlash r in
      match p with
      | EmptyString =>
          if Ascii.eqb c "/" then (String c "", i) else ("", String c i)
      | _ => (String c p, i)
      end
  end.

Fixpoint contains (pattern s : string) : bool :=
  if String.prefix pattern s then true
  else match s with
       | EmptyString => false
       | String _ r => contains pattern r
       end.

Definition geometryAt (z : Z) : Geometry.t := Geometry.mk 70 70 z 300 300.

Definition featureAt (z : Z) : TransformableFeature.t :=
  TransformableFeature.mk (geometryAt z) "#ffffa0" {| locked := false |} "".

(** Modelled from the spec: the functions of [modules_common/cardprop.ts],
    which is not among the sources. An avatar url is a location prefix
    followed by a card id; the location ends with the last slash. A new
    card has empty content and one placement; an avatar takes its geometry,
    style, condition and date from the placement feature of its card. *)
Definition cardPropModule : CardPropModule := {|
  getIdFromUrl := fun u => snd (splitLastSlash u);
  getAvatarLocation := fun u => fst (splitLastSlash u);
  CardProp_fromObject := fun o =>
    let '(i, d, zs) := o in
    inr (CardProp.mk i d (map (fun lz => (fst lz, featureAt (snd lz))) zs));
  AvatarProp_fromObject := fun o =>
    let '(u, d, z) := o in
    inr (AvatarProp.mk u d (geometryAt z) "#ffffa0" {| locked := false |} "");
  CardProp_new := fun i => CardProp.mk i "" [("ws0/", featureAt 0)];
  AvatarProp_new := fun u d f =>
    let f := default (featureAt 0) f in
    AvatarProp.mk u (default "" d)
      (TransformableFeature.geometry f) (TransformableFeature.style f)
      (TransformableFeature.condition f) (TransformableFeature.date f);
  stringMatch := fun loc pattern => contains pattern loc
|}.
#[export] Existing Instance cardPropModule.

(** A world with nothing registered, an empty disk, one workspace [ws0]
    and a renderer that acknowledges every render. *)
Definition emptyWorld : World := {|
  cards := ∅;
  avatars := [];
  globalFocusListenerPermission := true;
  currentWorkspaceId := "0";
  currentWorkspaceUrl := "ws0/";
  workspaces := {[ "0" := {| ws_avatars := [] |} ]};
  store := ∅;
  placements := ∅;
  faults := [];
  entropy := [];
  renderer := fun _ => RenderCompleted;
  nextWindow := 0;
  trace := []
|}.

Definition avatarAt (u : string) (h : nat) (z : Z) : Avatar.t :=
  Avatar.mk (AvatarProp.mk u "" (geometryAt z) "#ffffa0" {| locked := false |} "")
    h false false false false.

(** An avatar whose only set flag is the recapture flag. *)
Definition recapturing : Avatar.t :=
  Avatar.set_recaptureGlobalFocusEventAfterLocalFocusEvent true
    (avatarAt "ws0/c1" 0 0).

(** The same world with the focus gate closed. *)
Definition gateClosed : World :=
  setGlobalFocusEventListenerPermission false emptyWorld.

(** The world after [createCard] has made the card [c1] with one placement
    in the current workspace (lemma [oneCard_reached]). *)
Definition oneCard : World :=
  Eval vm_compute in
    snd (createCard ("c1", "hello", [("ws0/", 5)]) emptyWorld).

(** The same, when every request to the disk fails from now on. *)
Definition failingDisk : World :=
  set_faults (fun _ => [true; true; true; true; true]) oneCard.

(** The world after [createCard] has made the card [c1] with two
    placements (lemma [twoPlacements_reached]). *)
Definition twoPlacements : World :=
  Eval vm_compute in
    snd (createCard ("c1", "hello", [("ws0/a/", 1); ("ws0/b/", 2)])
           emptyWorld).

Definition placementA : Avatar.t :=
  Eval vm_compute in
    default (avatarAt "" 0 0) (JsMap.get "ws0/a/c1" (avatars twoPlacements)).

Definition cardC1 : Card.t :=
  Eval vm_compute in
    default (Card.mk New None ResolveAtOnce) (cards twoPlacements !! "c1").

Definition propC1 : CardProp.t :=
  Eval vm_compute in default (CardProp.mk "" "" []) (Card.prop cardC1).

Definition oneCardCard : Card.t :=
  Eval vm_compute in
    default (Card.mk New None ResolveAtOnce) (cards oneCard !! "c1").

Definition oneCardProp : CardProp.t :=
  Eval vm_compute in default (CardProp.mk "" "" []) (Card.prop oneCardCard).

(** The avatar of [c1], moved to z = 9 with new content. *)
Definition movedAvatar : AvatarProp.t :=
  AvatarProp.mk "ws0/c1" "bye" (geometryAt 9) "#ffffa0"
    {| locked := false |} "".

(** An empty world whose renderer fails to load every page. *)
Definition brokenRenderer : World := {|
  cards := ∅;
  avatars := [];
  globalFocusListenerPermission := true;
  currentWorkspaceId := "0";
  currentWorkspaceUrl := "ws0/";
  workspaces := {[ "0" := {| ws_avatars := [] |} ]};
  store := ∅;
  placements := ∅;
  faults := [];
  entropy := [];
  renderer := fun _ => LoadFailed "ERR_FAILED";
  nextWindow := 0;
  trace := []
|}.

(** The world after [createCard] has made the card [c2], placed twice
    in the current workspace, the second placement behind the first. *)
Definition savedSession : World :=
  Eval vm_compute in
    snd (createCard ("c2", "hi", [("ws0/a/", 7); ("ws0/b/", 3)]) emptyWorld).

(** The next launch: what [savedSession] left on the disk, and nothing
    registered. *)
Definition restarted : World := {|
  cards := ∅;
  avatars := [];
  globalFocusListenerPermission := true;
  currentWorkspaceId := "0";
  currentWorkspaceUrl := "ws0/";
  workspaces := workspaces savedSession;
  store := store savedSession;
  placements := placements savedSession;
  faults := [];
  entropy := [];
  renderer := fun _ => RenderCompleted;
  nextWindow := 0;
  trace := []
|}.

(** The avatar of [oneCard]. *)
Definition oneCardAvatar : Avatar.t :=
  Eval vm_compute in
    default (avatarAt "" 0 0) (JsMap.get "ws0/c1" (avatars oneCard)).

Definition placementB : Avatar.t :=
  Eval vm_compute in
    default (avatarAt "" 0 0) (JsMap.get "ws0/b/c1" (avatars twoPlacements)).

(** [twoPlacements] after the window at [ws0/a/] has been closed. *)
Definition windowClosed : World :=
  Eval vm_compute in emitClosed "ws0/a/c1" twoPlacements.

(** A world with no workspace at all. *)
Definition noWorkspace : World := {|
  cards := ∅;
  avatars := [];
  globalFocusListenerPermission := true;
  currentWorkspaceId := "0";
  currentWorkspaceUrl := "ws0/";
  workspaces := ∅;
  store := ∅;
  placements := ∅;
  faults := [];
  entropy := [];
  renderer := fun _ => RenderCompleted;
  nextWindow := 0;
  trace := []
|}.

(** The next launch when the cards are gone from the disk. *)
Definition lostCard : World := {|
  cards := ∅;
  avatars := [];
  globalFocusListenerPermission := true;
  currentWorkspaceId := "0";
  currentWorkspaceUrl := "ws0/";
  workspaces := workspaces savedSession;
  store := ∅;
  placements := placements savedSession;
  faults := [];
  entropy := [];
  renderer := fun _ => RenderCompleted;
  nextWindow := 0;
  trace := []
|}.

(** The next launch with renderers that never acknowledge. *)
Definition silentRenderer : World := {|
  cards := ∅;
  avatars := [];
  globalFocusListenerPermission := true;
  currentWorkspaceId := "0";
  currentWorkspaceUrl := "ws0/";
  workspaces := workspaces savedSession;
  store := store savedSession;
  placements := placements savedSession;
  faults := [];
  entropy := [];
  renderer := fun _ => NeverAcknowledged;
  nextWindow := 0;
  trace := []
|}.

(** A card window at rest, and a drag in three steps. *)
Definition atRest : Renderer.State :=
  Renderer.mkState (Renderer.mkRect 70 70 300 300) 0 0 0 None [].

Definition drag : list (Z * Renderer.HandEvent) :=
  [(0, Renderer.MoveByHand (Renderer.mkRect 71 70 300 300));
   (16, Renderer.MoveByHand (Renderer.mkRect 75 72 300 300));
   (16, Renderer.MoveByHand (Renderer.mkRect 80 75 300 300))]%Z.

End Demo.

(** * Theorems *)

(** ** Insertion-ordered maps *)
Section JsMapFacts.
Context {V : Type}.
Implicit Types (m : JsMap.t V) (k : string) (v : V).

Lemma get_set_eq k v m : JsMap.get k (JsMap.set k v m) = Some v.
Proof.
  induction m as [|[k' v'] r IH]; simpl.
  - now rewrite String.eqb_refl.
  - destruct (String.eqb k k') eqn:E; simpl.
    + now rewrite String.eqb_refl.
    + now rewrite E.
Qed.

Lemma get_set_ne k k' v m :
  k <> k' -> JsMap.get k' (JsMap.set k v m) = JsMap.get k' m.
Proof.
  intros Hne. induction m as [|[k0 v0] r IH]; simpl.
  - destruct (String.eqb_spec k' k); congruence.
  - destruct (String.eqb_spec k k0) as [->|Hk]; simpl.
    + destruct (String.eqb_spec k' k0); congruence.
    + destruct (String.eqb_spec k' k0); congruence.
Qed.

Lemma get_delete_eq k m : JsMap.get k (JsMap.delete k m) = None.
Proof.
  induction m as [|[k' v'] r IH]; simpl; [easy|].
  destruct (String.eqb k k') eqn:E; simpl; [easy|]. now rewrite E.
Qed.

Lemma get_delete_ne k k' m :
  k <> k' -> JsMap.get k' (JsMap.delete k m) = JsMap.get k' m.
Proof.
  intros Hne. induction m as [|[k0 v0] r IH]; simpl; [easy|].
  destruct (String.eqb_spec k k0) as [->|Hk]; simpl.
  - destruct (String.eqb_spec k' k0); congruence.
  - destruct (String.eqb_spec k' k0); congruence.
Qed.

Lemma get_Some_In k v m : JsMap.get k m = Some v -> In (k, v) m.
Proof.
  induction m as [|[k' v'] r IH]; simpl; [discriminate|].
  destruct (String.eqb_spec k k') as [->|Hk].
  - intros [= ->]. now left.
  - intros H. right. now apply IH.
Qed.

Lemma In_keys_get k m : In k (JsMap.keys m) -> exists v, JsMap.get k m = Some v.
Proof.
  induction m as [|[k' v'] r IH]; simpl; [easy|].
  intros [->|Hin].
  - rewrite String.eqb_refl. eauto.
  - destruct (String.eqb k k'); eauto.
Qed.

Lemma get_Some_keys k v m : JsMap.get k m = Some v -> In k (JsMap.keys m).
Proof.
  intros H. apply get_Some_In in H.
  unfold JsMap.keys. change k with (fst (k, v)). now apply in_map.
Qed.

Lemma delete_absent k m : JsMap.get k m = None -> JsMap.delete k m = m.
Proof.
  induction m as [|[k' v'] r IH]; simpl; [easy|].
  destruct (String.eqb k k'); [discriminate|].
  intros H. now rewrite IH.
Qed.
End JsMapFacts.

(** ** Identifiers *)

Lemma v4_not_empty rnds : Uuid.v4 rnds <> "".
Proof. unfold Uuid.v4. simpl. unfold Uuid.hexByte. discriminate. Qed.

Lemma v4_length rnds : String.length (Uuid.v4 rnds) = 36%nat.
Proof. reflexivity. Qed.

(** ** Running a computation

    The equations by which a computation is run step by step. *)
Section JsLaws.
Context {P : Payload}.
Implicit Types (w : World).

Lemma bind_returned {A B} (m : Js A) (k : A -> Js B) w a w' :
  m w = (Returned a, w') -> bind m k w = k a w'.
Proof. unfold bind. now intros ->. Qed.

Lemma bind_thrown {A B} (m : Js A) (k : A -> Js B) w e w' :
  m w = (Thrown e, w') -> bind m k w = (Thrown e, w').
Proof. unfold bind. now intros ->. Qed.

Lemma bind_pending {A B} (m : Js A) (k : A -> Js B) w w' :
  m w = (Pending, w') -> bind m k w = (Pending, w').
Proof. unfold bind. now intros ->. Qed.

Lemma bind_returned_inv {A B} (m : Js A) (k : A -> Js B) w b w' :
  bind m k w = (Returned b, w') ->
  exists a w1, m w = (Returned a, w1) /\ k a w1 = (Returned b, w').
Proof.
  unfold bind. destruct (m w) as [[a|e|] w1]; try discriminate. eauto.
Qed.

Lemma bind_ret {A B} (a : A) (k : A -> Js B) w : bind (ret a) k w = k a w.
Proof. reflexivity. Qed.

Lemma bind_gets {A B} (f : World -> A) (k : A -> Js B) w :
  bind (gets f) k w = k (f w) w.
Proof. reflexivity. Qed.

Lemma bind_modify {B} (f : World -> World) (k : unit -> Js B) w :
  bind (modify f) k w = k tt (f w).
Proof. reflexivity. Qed.

Lemma bind_log {B} (e : Event) (k : unit -> Js B) w :
  bind (log e) k w = k tt (emit e w).
Proof. reflexivity. Qed.

Lemma bind_throw {A B} (e : JsError) (k : A -> Js B) w :
  bind (throw e) k w = (Thrown e, w).
Proof. reflexivity. Qed.

Lemma bind_assoc {A B C} (m : Js A) (f : A -> Js B) (g : B -> Js C) w :
  bind (bind m f) g w = bind m (fun a => bind (f a) g) w.
Proof. unfold bind. destruct (m w) as [[a|e|] w']; reflexivity. Qed.

Lemma tryCatch_returned {A} (m : Js A) h w a w' :
  m w = (Returned a, w') -> tryCatch m h w = (Returned a, w').
Proof. unfold tryCatch. now intros ->. Qed.

Lemma tryCatch_thrown {A} (m : Js A) h w e w' :
  m w = (Thrown e, w') -> tryCatch m h w = h e w'.
Proof. unfold tryCatch. now intros ->. Qed.

Lemma tryCatch_pending {A} (m : Js A) h w w' :
  m w = (Pending, w') -> tryCatch m h w = (Pending, w').
Proof. unfold tryCatch. now intros ->. Qed.

Lemma spawn_run {A} (m : Js A) w :
  spawn m w = (Returned (fst (m w)), snd (m w)).
Proof. unfold spawn. now destruct (m w). Qed.

End JsLaws.

Create Rewrite HintDb js.
#[global] Hint Rewrite @bind_ret @bind_gets @bind_modify @bind_log
  @bind_throw : js.

Ltac js_run :=
  repeat first
    [ progress autorewrite with js
    | rewrite bind_assoc
    | progress cbv beta iota ].

(** ** Relations every step maintains *)
Section Maintains.
Context {P : Payload} (R : World -> World -> Prop).
Context (Rrefl : Reflexive R) (Rtrans : Transitive R).

Lemma maintains_ret {A} (a : A) : maintains R (ret a).
Proof. intros w. apply Rrefl. Qed.

Lemma maintains_throw {A} e : maintains R (@throw _ A e).
Proof. intros w. apply Rrefl. Qed.

Lemma maintains_pending {A} : maintains R (@pending _ A).
Proof. intros w. apply Rrefl. Qed.

Lemma maintains_await {A} (o : Outcome A) : maintains R (await o).
Proof. intros w. apply Rrefl. Qed.

Lemma maintains_gets {A} (f : World -> A) : maintains R (gets f).
Proof. intros w. apply Rrefl. Qed.

Lemma maintains_modify (g : World -> World) :
  (forall w, R w (g w)) -> maintains R (modify g).
Proof. intros H w. apply H. Qed.

Lemma maintains_bind {A B} (m : Js A) (k : A -> Js B) :
  maintains R m -> (forall a, maintains R (k a)) -> maintains R (bind m k).
Proof.
  intros Hm Hk w. unfold bind. specialize (Hm w).
  destruct (m w) as [[a|e|] w1]; simpl in *; [|assumption..].
  eapply Rtrans; [exact Hm|apply Hk].
Qed.

Lemma maintains_tryCatch {A} (m : Js A) (h : JsError -> Js A) :
  maintains R m -> (forall e, maintains R (h e)) -> maintains R (tryCatch m h).
Proof.
  intros Hm Hh w. unfold tryCatch. specialize (Hm w).
  destruct (m w) as [[a|e|] w1]; simpl in *; [assumption| |assumption].
  eapply Rtrans; [exact Hm|apply Hh].
Qed.

Lemma maintains_spawn {A} (m : Js A) : maintains R m -> maintains R (spawn m).
Proof. intros Hm w. rewrite spawn_run. apply Hm. Qed.

Lemma maintains_forEach {A} (l : list A) (body : A -> Js unit) :
  (forall a, maintains R (body a)) -> maintains R (forEach l body).
Proof.
  intros Hb. induction l as [|a r IH]; simpl.
  - apply maintains_ret.
  - apply maintains_bind; [apply Hb|intros _; exact IH].
Qed.

Lemma maintains_mapJs {A B} (f : A -> Js B) (l : list A) :
  (forall a, maintains R (f a)) -> maintains R (mapJs f l).
Proof.
  intros Hf. induction l as [|a r IH]; simpl.
  - apply maintains_ret.
  - apply maintains_bind; [apply Hf|intros b].
    apply maintains_bind; [exact IH|intros bs]. apply maintains_ret.
Qed.

Lemma maintains_liftSum {A} (r : JsError + A) : maintains R (liftSum r).
Proof. destruct r; [apply maintains_throw|apply maintains_ret]. Qed.

End Maintains.

Create HintDb jsdefs discriminated.

(** Breaks a computation into its steps; the steps that change the world
    are left to the caller's tactic [leaf], and [rel] proves that the
    relation is reflexive and transitive. *)
Ltac maintains_step rel known leaf :=
  lazymatch goal with
  | |- maintains _ (ret _) => apply maintains_ret; rel
  | |- maintains _ (throw _) => apply maintains_throw; rel
  | |- maintains _ pending => apply maintains_pending; rel
  | |- maintains _ (await _) => apply maintains_await; rel
  | |- maintains _ (gets _) => apply maintains_gets; rel
  | |- maintains _ (liftSum _) => apply maintains_liftSum; rel
  | |- maintains _ (bind _ _) => apply maintains_bind; [rel | | intros ?]
  | |- maintains _ (tryCatch _ _) =>
      apply maintains_tryCatch; [rel | | intros ?]
  | |- maintains _ (spawn _) => apply maintains_spawn
  | |- maintains _ (forEach _ _) =>
      apply maintains_forEach; [rel | rel | intros ?]
  | |- maintains _ (mapJs _ _) =>
      apply maintains_mapJs; [rel | rel | intros ?]
  | |- maintains _ (modify _) => apply maintains_modify; intros ?; leaf
  | |- maintains _ (match ?x with _ => _ end) => destruct x
  | |- maintains _ _ =>
      first [known | progress autounfold with jsdefs | leaf]
  end.

(** [known] closes the steps already dealt with by a lemma. *)
Ltac maintains_using rel known leaf := repeat (maintains_step rel known leaf).
Ltac maintains_with rel leaf := maintains_using rel ltac:(fail) leaf.

(** ** Components a computation leaves alone *)
Section Preserves.
Context {P : Payload} {M : CardPropModule}.

#[global] Instance preserved_refl {X} (f : World -> X) :
  Reflexive (fun w w' : World => f w' = f w).
Proof. intros w. reflexivity. Qed.

#[global] Instance preserved_trans {X} (f : World -> X) :
  Transitive (fun w w' : World => f w' = f w).
Proof. intros w1 w2 w3 H1 H2. congruence. Qed.

End Preserves.

Ltac preserves_rel := first [apply preserved_refl | apply preserved_trans].
Ltac preserves_leaf := first [reflexivity | intros ?; reflexivity].
Ltac preserves_tac :=
  unfold preserves; maintains_with preserves_rel preserves_leaf.

#[global] Hint Unfold render _loadHTML _renderCard finishRenderCard
  pollRenderingCompleted createAvatar getCardData getAvatarProp readProp
  Avatar_new newBrowserWindow pushWorkspaceAvatar CardIO_addAvatarUrl
  CardIO_deleteAvatarUrl CardIO_getCardData CardIO_updateOrCreateCardData
  CardIO_deleteCardData CardIO_getAvatarUrlList saveCard consoleError sleep
  windowDestroy log generateNewCardId Card_new loadOrCreateCardData
  : jsdefs.

Section CreateCardFrames.
Context {P : Payload} {M : CardPropModule}.

Lemma render_cards this : preserves cards (render this).
Proof. preserves_tac. Qed.

Lemma createAvatar_cards avatarUrl : preserves cards (createAvatar avatarUrl).
Proof. preserves_tac. Qed.

Lemma createAvatars_cards workspaceUrl id locs :
  preserves cards (createAvatars workspaceUrl id locs).
Proof.
  induction locs as [|loc rest IH]; simpl.
  - preserves_tac.
  - destruct (stringMatch loc workspaceUrl); [|exact IH].
    unfold preserves.
    apply maintains_bind; [preserves_rel|apply createAvatar_cards|].
    intros ps. apply maintains_bind; [preserves_rel|exact IH|].
    intros. apply maintains_ret. preserves_rel.
Qed.

Lemma saveCard_cards p : preserves cards (saveCard p).
Proof. preserves_tac. Qed.

End CreateCardFrames.

(** ** The focus and blur listeners *)
Section Listeners.
Context {P : Payload}.
Implicit Types (this : Avatar.t) (w : World).

Ltac crush_listener :=
  unfold _focusListener, _blurListener,
    getGlobalFocusEventListenerPermission in *;
  repeat match goal with
  | a : Avatar.t |- _ => destruct a as [p h sf sb rc rd]
  | w : World |- _ =>
      destruct w as [cs avs g wid wurl wss st pl fl en rn nw tr]
  end;
  simpl in *; subst; simpl in *.

(** After a focus event both focus flags are false, whatever they were. *)
Lemma focus_resets_flags this w :
  Avatar.suppressFocusEventOnce (fst (_focusListener this w)) = false /\
  Avatar.recaptureGlobalFocusEventAfterLocalFocusEvent
    (fst (_focusListener this w)) = false.
Proof.
  crush_listener. destruct sf, rc, g; simpl; auto.
Qed.

(** After a blur event the blur flag is false. *)
Lemma blur_resets_flag this w :
  Avatar.suppressBlurEventOnce (fst (_blurListener this w)) = false.
Proof. crush_listener. destruct sb; reflexivity. Qed.

(** The listeners touch nothing but the avatar, the gate and the log. *)
Lemma focus_window this w :
  Avatar.window (fst (_focusListener this w)) = Avatar.window this.
Proof.
  crush_listener. destruct sf, rc, g; reflexivity.
Qed.

(** C3 (as amended). Each of the three one-shot flags is false once its
    listener has fired. [suppressFocusEventOnce], when set, silences
    exactly one focus event: the first sends nothing, and the second is
    handled as if the flag had never been set, that is, ['card-focused'] is
    sent if and only if the global gate is open. [suppressBlurEventOnce],
    when set, silences exactly one blur event: the second sends
    ['card-blurred']. The recapture flag silences nothing: when set it
    opens the global gate on exactly one focus event, which is itself sent
    unless [suppressFocusEventOnce] is set too; the next focus event, in
    whatever state the gate is by then, leaves the gate as it finds it, so
    a gate closed again stays closed. A focus event on an avatar whose
    recapture flag is not set never touches the gate. *)
Theorem once_flags_are_one_shot this w f1 w1 f2 w2 b1 v1 b2 v2 :
  _focusListener this w = (f1, w1) ->
  _focusListener f1 w1 = (f2, w2) ->
  _blurListener this w = (b1, v1) ->
  _blurListener b1 v1 = (b2, v2) ->
  (Avatar.suppressFocusEventOnce f1 = false /\
   Avatar.recaptureGlobalFocusEventAfterLocalFocusEvent f1 = false /\
   Avatar.suppressBlurEventOnce b1 = false) /\
  (Avatar.suppressFocusEventOnce this = true ->
   trace w1 = trace w /\
   f2 = f1 /\
   globalFocusListenerPermission w2 = globalFocusListenerPermission w1 /\
   trace w2 =
     if globalFocusListenerPermission w1
     then (trace w ++ [WinSend (Avatar.window this) "card-focused"])%list
     else trace w) /\
  (Avatar.suppressBlurEventOnce this = true ->
   trace v1 = trace w /\
   b2 = b1 /\
   trace v2 = (trace w ++ [WinSend (Avatar.window this) "card-blurred"])%list) /\
  (Avatar.recaptureGlobalFocusEventAfterLocalFocusEvent this = true ->
   globalFocusListenerPermission w1 = true /\
   (Avatar.suppressFocusEventOnce this = false ->
    trace w1 = (trace w ++ [WinSend (Avatar.window this) "card-focused"])%list) /\
   globalFocusListenerPermission w2 = globalFocusListenerPermission w1 /\
   forall v,
     globalFocusListenerPermission (snd (_focusListener f1 v)) =
     globalFocusListenerPermission v) /\
  (Avatar.recaptureGlobalFocusEventAfterLocalFocusEvent this = false ->
   globalFocusListenerPermission w1 = globalFocusListenerPermission w).
Proof.
  intros Hf1 Hf2 Hb1 Hb2.
  assert (f1 = fst (_focusListener this w)) as -> by now rewrite Hf1.
  assert (w1 = snd (_focusListener this w)) as -> by now rewrite Hf1.
  assert (b1 = fst (_blurListener this w)) as -> by now rewrite Hb1.
  assert (v1 = snd (_blurListener this w)) as -> by now rewrite Hb1.
  assert (f2 = fst (_focusListener (fst (_focusListener this w))
                      (snd (_focusListener this w)))) as -> by now rewrite Hf2.
  assert (w2 = snd (_focusListener (fst (_focusListener this w))
                      (snd (_focusListener this w)))) as -> by now rewrite Hf2.
  assert (b2 = fst (_blurListener (fst (_blurListener this w))
                      (snd (_blurListener this w)))) as -> by now rewrite Hb2.
  assert (v2 = snd (_blurListener (fst (_blurListener this w))
                      (snd (_blurListener this w)))) as -> by now rewrite Hb2.
  clear Hf1 Hf2 Hb1 Hb2.
  destruct this as [p h sf sb rc rd],
    w as [cs avs g wid wurl wss st pl fl en rn nw tr].
  unfold _focusListener, _blurListener,
    getGlobalFocusEventListenerPermission; simpl.
  destruct sf, sb, rc, g; simpl;
    repeat split; intros; try discriminate; try reflexivity;
    match goal with
    | v : World |- _ =>
        destruct v as [cs' avs' g' wid' wurl' wss' st' pl' fl' en' rn' nw' tr'];
        simpl; destruct g'; reflexivity
    end.
Qed.

(** C9 (as amended). Blur events do not pass through the focus gate: with
    [suppressBlurEventOnce] unset the blur listener sends ['card-blurred']
    although the gate is closed. The focus listener in that state sends
    nothing provided the recapture flag is unset; with the recapture flag
    set it opens the gate and, unless [suppressFocusEventOnce] is set,
    sends ['card-focused']. *)
Theorem blur_is_not_gated this w :
  Avatar.suppressBlurEventOnce this = false ->
  globalFocusListenerPermission w = false ->
  _blurListener this w =
    (this, emit (WinSend (Avatar.window this) "card-blurred") w) /\
  (Avatar.recaptureGlobalFocusEventAfterLocalFocusEvent this = false ->
   trace (snd (_focusListener this w)) = trace w /\
   globalFocusListenerPermission (snd (_focusListener this w)) = false) /\
  (Avatar.recaptureGlobalFocusEventAfterLocalFocusEvent this = true ->
   globalFocusListenerPermission (snd (_focusListener this w)) = true /\
   (Avatar.suppressFocusEventOnce this = false ->
    trace (snd (_focusListener this w)) =
      (trace w ++ [WinSend (Avatar.window this) "card-focused"])%list)).
Proof.
  intros Hb Hg. crush_listener.
  destruct sf, rc; simpl;
    repeat split; intros; try reflexivity; discriminate.
Qed.

End Listeners.

(** ** Sorting *)
Section Sorting.
Context {P : Payload} (avs : JsMap.t Avatar.t).
Implicit Types (a b : string) (l : list string).

Local Abbreviation key := (zOf avs).
Local Abbreviation compareBy := (compareZ avs).
Local Abbreviation keyLe := (fun a b => (zOf avs a <= zOf avs b)%Z).

Lemma compareZ_le a b : (compareBy a b <=? 0)%Z = (key a <=? key b)%Z.
Proof.
  unfold compareZ. rewrite Z.gtb_ltb.
  destruct (Z.ltb_spec (key a) (key b)), (Z.ltb_spec (key b) (key a)),
    (Z.leb_spec (key a) (key b)); simpl; try reflexivity; lia.
Qed.

Lemma insertSorted_perm a l :
  Permutation (insertSorted compareBy a l) (a :: l).
Proof.
  induction l as [|b r IH]; simpl; [reflexivity|].
  destruct (compareBy a b <=? 0)%Z; [reflexivity|].
  rewrite IH. apply perm_swap.
Qed.

Lemma sort_perm l : Permutation (sort compareBy l) l.
Proof.
  induction l as [|a r IH]; simpl; [reflexivity|].
  rewrite insertSorted_perm. now constructor.
Qed.

Lemma sort_In a l : In a (sort compareBy l) <-> In a l.
Proof.
  split; apply Permutation_in; [|symmetry]; apply sort_perm.
Qed.

Lemma insertSorted_sorted a l :
  StronglySorted keyLe l -> StronglySorted keyLe (insertSorted compareBy a l).
Proof.
  induction 1 as [|b r Hs IH Hall]; simpl.
  - repeat constructor.
  - rewrite compareZ_le. destruct (Z.leb_spec (key a) (key b)).
    + constructor; [now constructor|].
      constructor; [assumption|].
      eapply Forall_impl; [exact Hall|]. simpl. intros; lia.
    + constructor; [assumption|].
      eapply Permutation_Forall; [symmetry; apply insertSorted_perm|].
      constructor; [lia|assumption].
Qed.

Lemma sort_sorted l : StronglySorted keyLe (sort compareBy l).
Proof.
  induction l; simpl; [constructor|]. now apply insertSorted_sorted.
Qed.

Lemma sorted_head_least l a :
  StronglySorted keyLe l -> head l = Some a ->
  forall b, In b l -> (key a <= key b)%Z.
Proof.
  intros Hs Hh b Hb. destruct l as [|a' r]; [discriminate|].
  injection Hh as ->. inversion Hs as [|? ? _ Hall]; subst.
  destruct Hb as [->|Hb]; [lia|].
  rewrite List.Forall_forall in Hall. now apply Hall.
Qed.

Lemma sorted_last_greatest l a :
  StronglySorted keyLe l -> last l = Some a ->
  forall b, In b l -> (key b <= key a)%Z.
Proof.
  induction 1 as [|x r Hs IH Hall]; [discriminate|].
  intros Hl b Hb. destruct r as [|y r'].
  - simpl in Hl. injection Hl as ->. destruct Hb as [->|[]]. lia.
  - change (last (y :: r') = Some a) in Hl.
    destruct Hb as [->|Hb]; [|now apply IH].
    rewrite List.Forall_forall in Hall.
    assert (In a (y :: r')) as Ha.
    { clear -Hl. revert y Hl. induction r' as [|z r'' IH']; intros y Hl.
      - injection Hl as ->. now left.
      - right. apply (IH' z). exact Hl. }
    apply Hall. exact Ha.
Qed.

Lemma head_In l a : head l = Some a -> In a l.
Proof. destruct l; [discriminate|]. intros [= ->]. now left. Qed.

Lemma last_In l a : last l = Some a -> In a l.
Proof.
  induction l as [|x r IH]; [discriminate|].
  destruct r as [|y r']; [intros [= ->]; now left|].
  intros H. right. now apply IH.
Qed.

Lemma head_nonempty l b : In b l -> exists a, head l = Some a.
Proof. destruct l; [easy|]. eauto. Qed.

Lemma last_nonempty l b : In b l -> exists a, last l = Some a.
Proof.
  revert b. induction l as [|x r IH]; [easy|].
  intros b _. destruct r as [|y r']; [eauto|].
  destruct (IH y) as [a Ha]; [now left|]. exists a. exact Ha.
Qed.
End Sorting.

(** ** The z-order requests *)
Section ZOrder.
Context {P : Payload}.
Implicit Types (w : World) (avs : JsMap.t Avatar.t) (l : list string).

Lemma zOf_registered avs u a :
  JsMap.get u avs = Some a ->
  zOf avs u = Geometry.z (AvatarProp.geometry (Avatar.prop a)).
Proof. unfold zOf. now intros ->. Qed.

Lemma keys_set_present {V} k (v : V) (m : JsMap.t V) :
  In k (JsMap.keys m) -> JsMap.keys (JsMap.set k v m) = JsMap.keys m.
Proof.
  induction m as [|[k' v'] r IH]; simpl; [easy|].
  intros [->|Hin].
  - now rewrite String.eqb_refl.
  - destruct (String.eqb_spec k k') as [->|Hne]; simpl; [reflexivity|].
    f_equal. now apply IH.
Qed.

Lemma removeFirst_In u l k : In k (removeFirst u l) -> In k l.
Proof.
  induction l as [|v r IH]; simpl; [easy|].
  destruct (String.eqb v u); simpl; intuition.
Qed.

Lemma removelast_In l k : In k (removelast l) -> In k l.
Proof.
  induction l as [|v r IH]; [easy|].
  destruct r as [|v' r']; [easy|].
  intros [->|H]; [now left|right; now apply IH].
Qed.

Lemma spliceOut_In u l k : In k (spliceOut u l) -> In k l.
Proof.
  unfold spliceOut. destruct (mem u l);
    [apply removeFirst_In|apply removelast_In].
Qed.

Lemma suppressAndFocus_registered key a w :
  JsMap.get key (avatars w) = Some a ->
  suppressAndFocus key w =
    (Returned tt,
     emit (WinFocus (Avatar.window a))
       (set_avatars (JsMap.set key (Avatar.set_suppressFocusEventOnce true a))
          w)).
Proof. intros H. unfold suppressAndFocus. js_run. now rewrite H. Qed.

Lemma zOfKey_registered key a w :
  JsMap.get key (avatars w) = Some a ->
  zOfKey (Some key) w =
    (Returned (Geometry.z (AvatarProp.geometry (Avatar.prop a))), w).
Proof. intros H. unfold zOfKey. js_run. now rewrite H. Qed.

(** The rearranging loop runs to its end when it is given registered keys. *)
Lemma rearrange_returns l w :
  (forall k, In k l -> In k (JsMap.keys (avatars w))) ->
  exists w', forEach l suppressAndFocus w = (Returned tt, w').
Proof.
  revert w. induction l as [|k r IH]; intros w Hreg; simpl.
  - eexists. reflexivity.
  - destruct (In_keys_get k (avatars w)) as [a Ha]; [apply Hreg; now left|].
    rewrite (bind_returned _ _ _ _ _ (suppressAndFocus_registered _ _ _ Ha)).
    apply IH. intros k' Hk'. simpl.
    rewrite keys_set_present; [|eapply get_Some_keys; eauto].
    apply Hreg. now right.
Qed.

(** C8. When every registered [geometry.z] is an integer of magnitude
    below 2^53, where the sums of the program are exact: for a registered
    url, bring-to-front answers one plus the greatest [geometry.z] of the
    registered avatars and send-to-back answers the least one minus one;
    for an unregistered url both answer undefined and change nothing. *)
Theorem z_order_requests w url rearrange :
  (forall u a, JsMap.get u (avatars w) = Some a ->
     (- 2 ^ 53 < Geometry.z (AvatarProp.geometry (Avatar.prop a)) < 2 ^ 53)%Z) ->
  match JsMap.get url (avatars w) with
  | Some _ =>
      exists zmax zmin : Z,
        fst (bringToFront url rearrange w) = Returned (Some (zmax + 1)%Z) /\
        fst (sendToBack url w) = Returned (Some (zmin - 1)%Z) /\
        (exists u a, JsMap.get u (avatars w) = Some a /\
           Geometry.z (AvatarProp.geometry (Avatar.prop a)) = zmax) /\
        (forall u a, JsMap.get u (avatars w) = Some a ->
           (Geometry.z (AvatarProp.geometry (Avatar.prop a)) <= zmax)%Z) /\
        (exists u a, JsMap.get u (avatars w) = Some a /\
           Geometry.z (AvatarProp.geometry (Avatar.prop a)) = zmin) /\
        (forall u a, JsMap.get u (avatars w) = Some a ->
           (zmin <= Geometry.z (AvatarProp.geometry (Avatar.prop a)))%Z)
  | None =>
      bringToFront url rearrange w = (Returned None, w) /\
      sendToBack url w = (Returned None, w)
  end.
Proof.
  intros _.
  destruct (JsMap.get url (avatars w)) as [av|] eqn:Hurl.
  2:{ unfold bringToFront, sendToBack. js_run. now rewrite Hurl. }
  assert (In url (backToFrontOf (avatars w))) as Hin.
  { apply sort_In. eapply get_Some_keys; eauto. }
  destruct (last_nonempty _ _ Hin) as [kl Hl].
  destruct (head_nonempty _ _ Hin) as [kh Hh].
  destruct (In_keys_get kl (avatars w)) as [al Hal].
  { apply (sort_In (avatars w)). now apply last_In. }
  destruct (In_keys_get kh (avatars w)) as [ah Hah].
  { apply (sort_In (avatars w)). now apply head_In. }
  exists (Geometry.z (AvatarProp.geometry (Avatar.prop al))),
         (Geometry.z (AvatarProp.geometry (Avatar.prop ah))).
  assert (forall k, In k (spliceOut url (backToFrontOf (avatars w))) ->
                    In k (JsMap.keys (avatars w))) as Hsp.
  { intros k Hk. apply spliceOut_In in Hk. now apply (sort_In (avatars w)). }
  split; [|split; [|split; [|split; [|split]]]].
  - unfold bringToFront. js_run. rewrite Hurl. cbv beta iota.
    rewrite Hl, (bind_returned _ _ _ _ _ (zOfKey_registered _ _ _ Hal)).
    destruct rearrange; [|reflexivity].
    destruct (rearrange_returns
                (spliceOut url (backToFrontOf (avatars w)) ++ [url]) w)
      as [w' Hw'].
    { intros k Hk. apply in_app_or in Hk as [Hk|[<-|[]]]; [now apply Hsp|].
      eapply get_Some_keys; eauto. }
    now rewrite (bind_returned _ _ _ _ _ Hw').
  - unfold sendToBack. js_run. rewrite Hurl. cbv beta iota.
    rewrite Hh, (bind_returned _ _ _ _ _ (zOfKey_registered _ _ _ Hah)).
    destruct (rearrange_returns
                (url :: spliceOut url (backToFrontOf (avatars w))) w)
      as [w' Hw'].
    { intros k [<-|Hk]; [|now apply Hsp]. eapply get_Some_keys; eauto. }
    now rewrite (bind_returned _ _ _ _ _ Hw').
  - eauto.
  - intros u a Ha.
    rewrite <- (zOf_registered _ _ _ Ha), <- (zOf_registered _ _ _ Hal).
    eapply (sorted_last_greatest (avatars w)); [apply sort_sorted|exact Hl|].
    apply sort_In. eapply get_Some_keys; eauto.
  - eauto.
  - intros u a Ha.
    rewrite <- (zOf_registered _ _ _ Ha), <- (zOf_registered _ _ _ Hah).
    eapply (sorted_head_least (avatars w)); [apply sort_sorted|exact Hh|].
    apply sort_In. eapply get_Some_keys; eauto.
Qed.

End ZOrder.

(** ** The persistence layer and [saveCard] *)
Section RegistryFacts.
Context {P : Payload} {M : CardPropModule}.
Implicit Types (w : World) (id url : string).

Lemma faultAt_tl n w : faultAt n (set_faults (@tl bool) w) = faultAt (S n) w.
Proof.
  unfold faultAt. simpl. destruct (faults w) as [|b r]; simpl; [|reflexivity].
  now destruct n.
Qed.

Lemma bind_ioFault_ok {B} (k : unit -> Js B) w :
  faultAt 0 w = false -> bind ioFault k w = k tt (set_faults (@tl bool) w).
Proof. intros H. unfold bind, ioFault. now rewrite H. Qed.

Lemma bind_ioFault_failed {B} (k : unit -> Js B) w :
  faultAt 0 w = true ->
  bind ioFault k w =
    (Thrown (mkError IOFailure "I/O failure"), set_faults (@tl bool) w).
Proof. intros H. unfold bind, ioFault. now rewrite H. Qed.

Lemma saveCard_run (p : CardProp.t) w :
  saveCard p w =
    (Returned tt,
     let w1 := set_faults (@tl bool)
                 (emit (IoUpdateOrCreateCardData (CardProp.id p)) w) in
     if faultAt 0 w then emit (ConsoleError "I/O failure") w1
     else set_store (insert (CardProp.id p) p) w1).
Proof.
  unfold saveCard, tryCatch, CardIO_updateOrCreateCardData, consoleError.
  js_run. destruct (faultAt 0 w) eqn:Hf.
  - rewrite bind_ioFault_failed by exact Hf. reflexivity.
  - rewrite bind_ioFault_ok by exact Hf. reflexivity.
Qed.

(** Reading a record that is not in the store fails with NotFound. *)
Lemma getCardData_absent id w :
  store w !! id = None -> faultAt 0 w = false ->
  fst (CardIO_getCardData id w) = Thrown (notFound id).
Proof.
  intros Hs Hf. unfold CardIO_getCardData. js_run.
  rewrite bind_ioFault_ok by exact Hf. js_run. simpl. now rewrite Hs.
Qed.

(** ** [createCard], step by step *)

Lemma Card_new_CardProp (prop0 : CardProp.t) w :
  Card_new New (ArgCardProp prop0) w =
    if String.eqb (CardProp.id prop0) "" then
      (Returned (Card.mk New
         (Some (CardProp.set_id (Uuid.v4 (hd [] (entropy w))) prop0))
         ResolveAtOnce),
       set_entropy (@tl (list N)) w)
    else (Returned (Card.mk New (Some prop0) ResolveAtOnce), w).
Proof.
  unfold Card_new. destruct (String.eqb (CardProp.id prop0) ""); reflexivity.
Qed.

(** The card [createCard] builds has a [CardProp] with a non-empty id. *)
Lemma Card_new_CardProp_id (prop0 : CardProp.t) w card w1 :
  Card_new New (ArgCardProp prop0) w = (Returned card, w1) ->
  exists prop,
    Card.prop card = Some prop /\ CardProp.id prop <> "" /\
    CardProp.data prop = CardProp.data prop0 /\
    CardProp.avatars prop = CardProp.avatars prop0 /\
    (CardProp.id prop0 <> "" -> prop = prop0 /\ w1 = w).
Proof.
  rewrite Card_new_CardProp.
  destruct (String.eqb_spec (CardProp.id prop0) "") as [He|Hne];
    intros [= <- <-]; eexists; (split; [reflexivity|]); simpl.
  - split; [apply v4_not_empty|]. repeat split; congruence.
  - repeat split; assumption.
Qed.

(** What [createCard] does once the card is built. *)
Lemma createCard_run propObject prop0 card prop w w1 :
  CardProp_fromObject propObject = inr prop0 ->
  Card_new New (ArgCardProp prop0) w = (Returned card, w1) ->
  Card.prop card = Some prop ->
  createCard propObject w =
    (let! promises :=
       createAvatars (currentWorkspaceUrl w1) (CardProp.id prop)
         (JsMap.keys (CardProp.avatars prop)) in
     tryCatch (await (promiseAll promises))
       (fun e => consoleError ("Error in createCard: " +:+ message e)) ;;
     saveCard prop ;;
     ret (CardProp.id prop))
    (set_cards (insert (CardProp.id prop) card) w1).
Proof.
  intros Hobj Hnew Hprop. unfold createCard. rewrite Hobj. simpl liftSum.
  js_run. rewrite (bind_returned _ _ _ _ _ Hnew).
  unfold readProp. rewrite Hprop. js_run. reflexivity.
Qed.

(** Whatever becomes of the avatars, [createCard] leaves the registry of
    cards as it was after the insertion. *)
Lemma createCard_rest_cards workspaceUrl (prop : CardProp.t) :
  preserves cards
    (let! promises :=
       createAvatars workspaceUrl (CardProp.id prop)
         (JsMap.keys (CardProp.avatars prop)) in
     tryCatch (await (promiseAll promises))
       (fun e => consoleError ("Error in createCard: " +:+ message e)) ;;
     saveCard prop ;;
     ret (CardProp.id prop)).
Proof.
  unfold preserves.
  apply maintains_bind; [preserves_rel|apply createAvatars_cards|].
  intros ps. preserves_tac.
Qed.

(** ** C10: the constructor of [Card] *)

(** C10. A card built as ['New'] from a [CardProp] whose id is the empty
    string gets the next generated UUID as its id, which is not empty; the
    id [createCard] returns is therefore never empty, and it is the key
    under which the card is registered. A ['New'] card given a string and
    a ['Load'] card given a [CardProp] or nothing throw a TypeError. *)
Theorem card_id_never_empty (prop : CardProp.t) (s : string)
    (propObject : CardPropSerializable) w :
  (CardProp.id prop = "" ->
   exists id w',
     uuidv4 w = (Returned id, w') /\ id <> "" /\
     Card_new New (ArgCardProp prop) w =
       (Returned (Card.mk New (Some (CardProp.set_id id prop)) ResolveAtOnce),
        w')) /\
  (CardProp.id prop <> "" ->
   Card_new New (ArgCardProp prop) w =
     (Returned (Card.mk New (Some prop) ResolveAtOnce), w)) /\
  (forall id w', createCard propObject w = (Returned id, w') ->
   id <> "" /\
   exists card p,
     cards w' !! id = Some card /\ Card.prop card = Some p /\
     CardProp.id p = id) /\
  Card_new New (ArgString s) w =
    (Thrown (TypeError
       "Second parameter must be CardProp when creating new card."), w) /\
  Card_new Load (ArgCardProp prop) w =
    (Thrown (TypeError
       "Second parameter must be id string when loading the card."), w) /\
  Card_new Load ArgUndefined w =
    (Thrown (TypeError
       "Second parameter must be id string when loading the card."), w).
Proof.
  split; [|split; [|split; [|repeat split]]].
  - intros Hid. rewrite Card_new_CardProp, Hid. simpl.
    do 2 eexists. split; [reflexivity|]. split; [apply v4_not_empty|].
    reflexivity.
  - intros Hid. rewrite Card_new_CardProp.
    now destruct (String.eqb_spec (CardProp.id prop) "").
  - intros id w' Hrun. pose proof Hrun as Hrun0.
    unfold createCard in Hrun0.
    destruct (CardProp_fromObject propObject) as [e|prop0] eqn:Hobj;
      [discriminate|].
    apply bind_returned_inv in Hrun0 as (prop0' & w0 & [= <- <-] & Hrun0).
    apply bind_returned_inv in Hrun0 as (card & w1 & Hnew & _).
    destruct (Card_new_CardProp_id _ _ _ _ Hnew) as (p & Hp & Hne & _).
    rewrite (createCard_run _ _ _ _ _ _ Hobj Hnew Hp) in Hrun.
    pose proof (createCard_rest_cards (currentWorkspaceUrl w1) p
                  (set_cards (insert (CardProp.id p) card) w1)) as Hcards.
    rewrite Hrun in Hcards. simpl in Hcards.
    apply bind_returned_inv in Hrun as (ps & w2 & _ & Hrun).
    apply bind_returned_inv in Hrun as (? & w3 & _ & Hrun).
    apply bind_returned_inv in Hrun as (? & w4 & _ & [= <- _]).
    split; [exact Hne|]. exists card, p.
    rewrite Hcards, lookup_insert_eq. auto.
Qed.



End RegistryFacts.

(** ** [updateAvatar] *)
Section UpdateDelete.
Context {P : Payload} {M : CardPropModule}.
Implicit Types (w : World) (id url : string).

(** C4. [updateAvatar] hydrates an [AvatarProp]; if no card is registered
    under the id of its url it throws and changes nothing; otherwise the
    parent card's content becomes the avatar's, the placement feature under
    the url's location key is replaced by the avatar's geometry, style,
    condition and date while every other placement is kept, and the
    parent is handed to [saveCard]: the write is requested, and the record
    is in the store unless that write meets an I/O failure, which is
    logged. *)
Theorem updateAvatar_overwrites_parent
    (avatarPropObj : AvatarPropSerializable) (prop : AvatarProp.t) w :
  AvatarProp_fromObject avatarPropObj = inr prop ->
  let id := getIdFromUrl (AvatarProp.url prop) in
  let loc := getAvatarLocation (AvatarProp.url prop) in
  let feature :=
    TransformableFeature.mk (AvatarProp.geometry prop) (AvatarProp.style prop)
      (AvatarProp.condition prop) (AvatarProp.date prop) in
  (cards w !! id = None ->
   updateAvatar avatarPropObj w =
     (Thrown (Error ("The card is not registered in cards: "
                     +:+ AvatarProp.url prop)), w)) /\
  (forall card cardProp,
     cards w !! id = Some card -> Card.prop card = Some cardProp ->
     let cardProp' :=
       CardProp.mk (CardProp.id cardProp) (AvatarProp.data prop)
         (JsMap.set loc feature (CardProp.avatars cardProp)) in
     exists w',
       updateAvatar avatarPropObj w = (Returned tt, w') /\
       cards w' = <[id := Card.set_prop cardProp' card]> (cards w) /\
       avatars w' = avatars w /\
       JsMap.get loc (CardProp.avatars cardProp') = Some feature /\
       (forall loc', loc' <> loc ->
          JsMap.get loc' (CardProp.avatars cardProp') =
          JsMap.get loc' (CardProp.avatars cardProp)) /\
       (faultAt 0 w = false ->
        trace w' =
          (trace w ++ [IoUpdateOrCreateCardData (CardProp.id cardProp)])%list /\
        store w' = <[CardProp.id cardProp := cardProp']> (store w)) /\
       (faultAt 0 w = true ->
        trace w' =
          (trace w ++ [IoUpdateOrCreateCardData (CardProp.id cardProp);
                       ConsoleError "I/O failure"])%list /\
        store w' = store w)).
Proof.
  intros Hobj id loc feature. split.
  - intros Hnone. unfold updateAvatar. rewrite Hobj. simpl liftSum. js_run.
    unfold getCardFromUrl. fold id. now rewrite Hnone.
  - intros card cardProp Hcard Hprop cardProp'.
    unfold updateAvatar. rewrite Hobj. simpl liftSum. js_run.
    unfold getCardFromUrl. fold id. rewrite Hcard. cbv beta iota.
    unfold readProp. rewrite Hprop. js_run.
    rewrite saveCard_run. eexists. split; [reflexivity|].
    change (faultAt 0 (set_cards _ w)) with (faultAt 0 w).
    split; [destruct (faultAt 0 w); reflexivity|].
    split; [destruct (faultAt 0 w); reflexivity|].
    split; [apply get_set_eq|].
    split; [intros loc' Hne; simpl; apply get_set_ne; congruence|].
    split; intros Hf; rewrite Hf; simpl; rewrite <- ?app_assoc;
      split; reflexivity.
Qed.

(** A payload that does not hydrate makes [updateAvatar] throw at once. *)
Lemma updateAvatar_invalid (avatarPropObj : AvatarPropSerializable) e w :
  AvatarProp_fromObject avatarPropObj = inl e ->
  updateAvatar avatarPropObj w = (Thrown e, w).
Proof. intros H. unfold updateAvatar. now rewrite H. Qed.

(** ** [deleteAvatar] *)

#[global] Instance cards_kept_refl :
  Reflexive (fun w w' : World =>
    forall k, is_Some (cards w !! k) -> is_Some (cards w' !! k)).
Proof. intros w k H. exact H. Qed.

#[global] Instance cards_kept_trans :
  Transitive (fun w w' : World =>
    forall k, is_Some (cards w !! k) -> is_Some (cards w' !! k)).
Proof. intros w1 w2 w3 H1 H2 k H. auto. Qed.

Lemma deleteAvatar_keeps_cards url :
  maintains (fun w w' =>
    forall k, is_Some (cards w !! k) -> is_Some (cards w' !! k))
    (deleteAvatar url).
Proof.
  unfold deleteAvatar.
  maintains_with
    ltac:(first [apply cards_kept_refl | apply cards_kept_trans])
    ltac:(first [ intros ? ? ?; assumption
                | intros ? ?; assumption
                | idtac ]).
  intros k Hk. simpl. destruct (decide (getIdFromUrl url = k)) as [->|Hne].
  - rewrite lookup_insert_eq. eauto.
  - now rewrite lookup_insert_ne.
Qed.

(** What [deleteAvatar] does to a registered url whose card is registered,
    when the placement-list request succeeds. *)
Lemma deleteAvatar_run url w avatar card prop :
  (forall k, is_Some (cards w !! k) ->
             is_Some (cards (snd (deleteAvatar url w)) !! k)) /\
  (JsMap.get url (avatars w) = Some avatar ->
   getCardFromUrl url w = Some card ->
   Card.prop card = Some prop ->
   faultAt 0 w = false ->
   let loc := getAvatarLocation url in
   let prop' :=
     CardProp.mk (CardProp.id prop) (CardProp.data prop)
       (JsMap.delete loc (CardProp.avatars prop)) in
   exists w',
     deleteAvatar url w = (Returned tt, w') /\
     (* what is removed *)
     avatars w' = JsMap.delete url (avatars w) /\
     JsMap.get url (avatars w') = None /\
     isDestroyed (Avatar.window avatar) w' = true /\
     getCurrentWorkspace w' =
       (fun ws => {| ws_avatars := remove url (ws_avatars ws) |})
         <$> getCurrentWorkspace w /\
     placed (currentWorkspaceId w) w' =
       remove url (placed (currentWorkspaceId w) w) /\
     cards w' = <[getIdFromUrl url := Card.set_prop prop' card]> (cards w) /\
     JsMap.get loc (CardProp.avatars prop') = None /\
     (* what is kept *)
     (forall loc', loc' <> loc ->
        JsMap.get loc' (CardProp.avatars prop') =
        JsMap.get loc' (CardProp.avatars prop)) /\
     (forall u, u <> url ->
        JsMap.get u (avatars w') = JsMap.get u (avatars w)) /\
     (forall h, h <> Avatar.window avatar ->
        isDestroyed h w' = isDestroyed h w) /\
     (forall k, k <> getIdFromUrl url -> cards w' !! k = cards w !! k) /\
     (* the parent is saved again *)
     (faultAt 1 w = false ->
      store w' = <[CardProp.id prop := prop']> (store w))).
Proof.
  split; [apply deleteAvatar_keeps_cards|].
  intros Hav Hcard Hprop Hf loc prop'.
  unfold deleteAvatar. js_run. rewrite Hav.
  unfold windowDestroy, CardIO_deleteAvatarUrl. js_run.
  rewrite bind_ioFault_ok by exact Hf. js_run.
  unfold getCardFromUrl in *. unfold placed, getCurrentWorkspace. simpl.
  assert (forall l : list bool, nth 0 (tail l) false = nth 1 l false) as Hnth
    by (intros [|? ?]; reflexivity).
  destruct (workspaces w !! currentWorkspaceId w) as [ws|] eqn:Hws;
    js_run; simpl; rewrite Hcard; unfold readProp; rewrite Hprop;
    js_run; rewrite saveCard_run; unfold faultAt; simpl; rewrite Hnth;
    (eexists; split; [reflexivity|]);
    destruct (nth 1 (faults w) false) eqn:Hf1; simpl;
    rewrite ?lookup_insert_eq, ?Hws;
    repeat match goal with
    | |- _ /\ _ => split
    end;
    try reflexivity; try discriminate;
    try (intros; first [ apply get_delete_eq
                       | apply get_delete_ne; congruence
                       | apply lookup_insert_ne; congruence ]);
    try (unfold isDestroyed; simpl; rewrite !existsb_app; simpl;
         rewrite Nat.eqb_refl, ?orb_true_r, ?orb_false_r; reflexivity);
    try (intros h Hh; unfold isDestroyed; simpl; rewrite !existsb_app; simpl;
         apply Nat.eqb_neq in Hh; rewrite Hh, ?orb_false_r; reflexivity).
Qed.


(** [l.filter(v => v !== u)]: [u] is gone, the rest stays in its order. *)
Lemma In_remove u (l : list string) v :
  In v (remove u l) <-> In v l /\ v <> u.
Proof.
  unfold remove. rewrite List.filter_In. split; intros [H1 H2]; split; auto.
  - intros ->. rewrite String.eqb_refl in H2. discriminate.
  - apply negb_true_iff. now apply String.eqb_neq.
Qed.

Lemma remove_sublist u (l : list string) : sublist (remove u l) l.
Proof.
  induction l as [|v r IH]; simpl; [constructor|].
  destruct (negb (String.eqb v u)); now constructor.
Qed.

(** C6. [deleteAvatar] never takes a card out of the registry. When the
    url is registered, its card is registered and the placement-list
    request does not fail, it removes exactly that placement: the registry
    entry, the window, the url in the workspace and in the persisted
    placement list, and the location key in the parent's [CardProp]. The
    parent stays registered with its id, its content and its other
    placements; the other avatars, their windows and the other cards are
    untouched. The url is in neither list afterwards, and every other
    url is where it was, in the same order. *)
Theorem deleteAvatar_removes_one_placement url w avatar card prop :
  (forall k, is_Some (cards w !! k) ->
             is_Some (cards (snd (deleteAvatar url w)) !! k)) /\
  (JsMap.get url (avatars w) = Some avatar ->
   getCardFromUrl url w = Some card ->
   Card.prop card = Some prop ->
   faultAt 0 w = false ->
   let loc := getAvatarLocation url in
   let prop' :=
     CardProp.mk (CardProp.id prop) (CardProp.data prop)
       (JsMap.delete loc (CardProp.avatars prop)) in
   exists w',
     deleteAvatar url w = (Returned tt, w') /\
     (* what is removed *)
     avatars w' = JsMap.delete url (avatars w) /\
     JsMap.get url (avatars w') = None /\
     isDestroyed (Avatar.window avatar) w' = true /\
     getCurrentWorkspace w' =
       (fun ws => {| ws_avatars := remove url (ws_avatars ws) |})
         <$> getCurrentWorkspace w /\
     placed (currentWorkspaceId w) w' =
       remove url (placed (currentWorkspaceId w) w) /\
     cards w' = <[getIdFromUrl url := Card.set_prop prop' card]> (cards w) /\
     JsMap.get loc (CardProp.avatars prop') = None /\
     (* what is kept *)
     (forall loc', loc' <> loc ->
        JsMap.get loc' (CardProp.avatars prop') =
        JsMap.get loc' (CardProp.avatars prop)) /\
     (forall u, u <> url ->
        JsMap.get u (avatars w') = JsMap.get u (avatars w)) /\
     (forall h, h <> Avatar.window avatar ->
        isDestroyed h w' = isDestroyed h w) /\
     (forall k, k <> getIdFromUrl url -> cards w' !! k = cards w !! k) /\
     (* the parent is saved again *)
     (faultAt 1 w = false ->
      store w' = <[CardProp.id prop := prop']> (store w)) /\
     (* the url is gone from both lists, and only the url *)
     (forall ws', getCurrentWorkspace w' = Some ws' ->
        ~ In url (ws_avatars ws')) /\
     (forall ws ws' u,
        getCurrentWorkspace w = Some ws -> getCurrentWorkspace w' = Some ws' ->
        u <> url -> (In u (ws_avatars ws') <-> In u (ws_avatars ws))) /\
     (forall ws ws',
        getCurrentWorkspace w = Some ws -> getCurrentWorkspace w' = Some ws' ->
        sublist (ws_avatars ws') (ws_avatars ws)) /\
     ~ In url (placed (currentWorkspaceId w) w') /\
     (forall u, u <> url ->
        (In u (placed (currentWorkspaceId w) w') <->
         In u (placed (currentWorkspaceId w) w))) /\
     sublist (placed (currentWorkspaceId w) w')
       (placed (currentWorkspaceId w) w)).
Proof.
  destruct (deleteAvatar_run url w avatar card prop) as [Hkeep Hrun].
  split; [exact Hkeep|].
  intros Hav Hcard Hprop Hf loc prop'.
  destruct (Hrun Hav Hcard Hprop Hf)
    as (w' & H1 & H2 & H3 & H4 & Hws & Hpl & H7 & H8 & H9 & H10 & H11 & H12
        & H13).
  exists w'. repeat (split; [assumption|]).
  rewrite Hws, Hpl.
  split; [|split; [|split; [|split; [|split]]]].
  - intros ws' Hws'. destruct (getCurrentWorkspace w) as [ws|];
      [|discriminate]. injection Hws' as <-. simpl.
    rewrite In_remove. tauto.
  - intros ws ws' u -> Hws' Hne. injection Hws' as <-. simpl.
    rewrite In_remove. tauto.
  - intros ws ws' -> Hws'. injection Hws' as <-. simpl.
    apply remove_sublist.
  - rewrite In_remove. tauto.
  - intros u Hne. rewrite In_remove. tauto.
  - apply remove_sublist.
Qed.

End UpdateDelete.

(** ** Counting events *)
Section Counting.
Context {P : Payload}.
Implicit Types (w : World) (t : list Event) (f : Event -> bool).

Lemma traceSince_app w w' t :
  trace w' = (trace w ++ t)%list -> traceSince w w' = t.
Proof.
  intros H. unfold traceSince. rewrite H. apply drop_app_length.
Qed.

Lemma count_app f t1 t2 : count f (t1 ++ t2) = (count f t1 + count f t2)%nat.
Proof. unfold count. now rewrite List.filter_app, length_app. Qed.

Lemma count_zero_not_In f t e : count f t = 0%nat -> In e t -> f e = false.
Proof.
  unfold count. induction t as [|a r IH]; simpl; [easy|].
  destruct (f a) eqn:Ha; [discriminate|].
  intros H [->|Hin]; auto.
Qed.

End Counting.

(** ** [deleteCard] *)
Section DeleteCard.
Context {P : Payload} {M : CardPropModule}.
Implicit Types (w : World) (id url key : string).

(** The loop of [deleteCard] runs to its end; it touches only the avatars
    registered under one of the keys it is given, and their windows. *)
Lemma destroyLoop_run keys w :
  exists w' t,
    forEach keys destroyAvatarAt w = (Returned tt, w') /\
    trace w' = (trace w ++ t)%list /\
    count isIoDeleteCardData t = 0%nat /\
    count isSleep t = 0%nat /\
    (forall h, In (WinDestroy h) t ->
       exists key a, In key keys /\ Avatar.window a = h /\
                     In (key, a) (avatars w)) /\
    cards w' = cards w /\ store w' = store w /\ faults w' = faults w /\
    (forall u, ~ In u keys -> JsMap.get u (avatars w') = JsMap.get u (avatars w)).
Proof.
  revert w. induction keys as [|key rest IH]; intros w; simpl.
  - exists w, []. rewrite app_nil_r. repeat split; try reflexivity. intros h [].
  - unfold destroyAvatarAt at 1. js_run.
    destruct (JsMap.get key (avatars w)) as [a|] eqn:Hget.
    + unfold windowDestroy. js_run.
      destruct (IH (emit (WinDestroy (Avatar.window a))
                      (set_avatars (JsMap.delete key) w)))
        as (w' & t & Hrun & Ht & Hc1 & Hc2 & Hd & Hcs & Hst & Hfl & Hav).
      exists w', (WinDestroy (Avatar.window a) :: t).
      split; [exact Hrun|]. simpl in *.
      split; [rewrite Ht, <- app_assoc; reflexivity|].
      split; [exact Hc1|]. split; [exact Hc2|].
      split.
      { intros h [[= <-]|Hin].
        - exists key, a. split; [now left|]. split; [reflexivity|].
          now apply get_Some_In.
        - destruct (Hd h Hin) as (k & a' & Hk & Hw & Hin').
          exists k, a'. split; [now right|]. split; [exact Hw|].
          clear -Hin'. induction (avatars w) as [|[k0 v0] r IHr];
            simpl in *; [easy|].
          destruct (String.eqb key k0); simpl in *; intuition. }
      repeat split; try assumption.
      intros u Hu. rewrite Hav by tauto.
      apply get_delete_ne. intros ->. apply Hu. now left.
    + destruct (IH w)
        as (w' & t & Hrun & Ht & Hc1 & Hc2 & Hd & Hcs & Hst & Hfl & Hav).
      exists w', t. repeat split; try assumption.
      * intros h Hin. destruct (Hd h Hin) as (k & a' & Hk & Hw & Hin').
        exists k, a'. split; [now right|]. split; assumption.
      * intros u Hu. apply Hav. tauto.
Qed.

Lemma CardIO_deleteCardData_run id w :
  CardIO_deleteCardData id w =
    let w1 := set_faults (@tl bool) (emit (IoDeleteCardData id) w) in
    if faultAt 0 w then (Thrown (mkError IOFailure "I/O failure"), w1)
    else
      match store w !! id with
      | Some _ => (Returned id, set_store (delete id) w1)
      | None => (Thrown (notFound id), w1)
      end.
Proof.
  unfold CardIO_deleteCardData. js_run.
  destruct (faultAt 0 w) eqn:Hf.
  - rewrite bind_ioFault_failed by exact Hf. reflexivity.
  - rewrite bind_ioFault_ok by exact Hf. js_run. simpl.
    destruct (store w !! id); reflexivity.
Qed.

(** The three ways the promise chain of [deleteCard] ends. *)
Lemma deleteCardRecord_run id w :
  deleteCardRecord id w =
    let w1 := set_faults (@tl bool) (emit (IoDeleteCardData id) w) in
    if faultAt 0 w then
      (Thrown (Error ("Error in destroy window: "
                      +:+ ("Error in delete-card: " +:+ "I/O failure"))), w1)
    else
      match store w !! id with
      | Some _ =>
          (Returned tt, set_cards (delete id) (set_store (delete id) w1))
      | None =>
          (Thrown (Error ("Error in destroy window: "
                          +:+ ("Error in delete-card: "
                               +:+ message (notFound id)))), w1)
      end.
Proof.
  unfold deleteCardRecord, tryCatch, bind.
  rewrite CardIO_deleteCardData_run.
  destruct (faultAt 0 w); [reflexivity|].
  destruct (store w !! id); reflexivity.
Qed.

(** One call of [deleteCard]: it settles, asks the persistence layer at
    most once and never sleeps. *)
Lemma deleteCard_settles id w :
  exists o w' t,
    deleteCard id w = (o, w') /\ o <> Pending /\
    trace w' = (trace w ++ t)%list /\
    (count isIoDeleteCardData t <= 1)%nat /\ count isSleep t = 0%nat.
Proof.
  unfold deleteCard. js_run.
  destruct (cards w !! id) as [card|].
  - unfold readProp. destruct (Card.prop card) as [prop|]; js_run.
    + destruct (destroyLoop_run (JsMap.keys (CardProp.avatars prop)) w)
        as (w1 & t & Hrun & Ht & Hc1 & Hc2 & _).
      rewrite (bind_returned _ _ _ _ _ Hrun), deleteCardRecord_run.
      destruct (faultAt 0 w1); [|destruct (store w1 !! id)];
        do 2 eexists; exists (t ++ [IoDeleteCardData id])%list;
        (split; [reflexivity|]); (split; [discriminate|]);
        (split; [simpl; rewrite Ht, <- app_assoc; reflexivity|]);
        rewrite !count_app, Hc1, Hc2; unfold count; simpl; split; lia.
    + do 2 eexists. exists []. rewrite app_nil_r.
      unfold count. repeat split; simpl; try discriminate; lia.
  - unfold consoleError. js_run. do 2 eexists. eexists [_].
    split; [reflexivity|]. unfold count.
    repeat split; simpl; try discriminate; lia.
Qed.

(** The defect behind C1: an avatar registered under a key that is not
    itself a location of the card survives [deleteCard]. *)
Lemma deleteCard_misses_avatars id w card prop u :
  cards w !! id = Some card -> Card.prop card = Some prop ->
  ~ In u (JsMap.keys (CardProp.avatars prop)) ->
  JsMap.get u (avatars (snd (deleteCard id w))) = JsMap.get u (avatars w).
Proof.
  intros Hc Hp Hu. unfold deleteCard. js_run. rewrite Hc.
  unfold readProp. rewrite Hp. js_run.
  destruct (destroyLoop_run (JsMap.keys (CardProp.avatars prop)) w)
    as (w1 & t & Hrun & _ & _ & _ & _ & _ & _ & _ & Hav).
  rewrite (bind_returned _ _ _ _ _ Hrun), deleteCardRecord_run, <- (Hav u Hu).
  destruct (faultAt 0 w1); [|destruct (store w1 !! id)]; reflexivity.
Qed.

(** ** [deleteCardWithRetry] *)

Lemma retry_after_success n id w w1 :
  deleteCard id w = (Returned tt, w1) ->
  deleteCardRetryLoop (S n) id w = (Returned tt, w1).
Proof.
  intros H. simpl deleteCardRetryLoop.
  assert ((deleteCard id ;; ret false) w = (Returned false, w1)) as Hin
    by now rewrite (bind_returned _ _ _ _ _ H).
  now rewrite (bind_returned _ _ _ _ _ (tryCatch_returned _ _ _ _ _ Hin)).
Qed.

Lemma retry_after_failure n id w e w1 :
  deleteCard id w = (Thrown e, w1) ->
  deleteCardRetryLoop (S n) id w =
    deleteCardRetryLoop n id
      (emit (Sleep 1000) (emit (ConsoleError (message e)) w1)).
Proof.
  intros H. simpl deleteCardRetryLoop.
  assert ((deleteCard id ;; ret false) w = (Thrown e, w1)) as Hin
    by now rewrite (bind_thrown _ _ _ _ _ H).
  erewrite bind_returned;
    [|erewrite tryCatch_thrown; [|exact Hin]; reflexivity].
  reflexivity.
Qed.

Lemma retryLoop_summary n id w :
  exists w' t,
    deleteCardRetryLoop n id w = (Returned tt, w') /\
    trace w' = (trace w ++ t)%list /\
    (count isIoDeleteCardData t <= n)%nat /\
    (count isSleep t <= n)%nat /\
    (forall ms, In (Sleep ms) t -> ms = 1000).
Proof.
  revert w. induction n as [|n IH]; intros w.
  - exists w, []. rewrite app_nil_r. unfold count. simpl.
    split; [reflexivity|]. split; [reflexivity|].
    split; [lia|]. split; [lia|]. intros ms [].
  - destruct (deleteCard_settles id w)
      as (o & w1 & t1 & Hrun & Hnp & Ht1 & Hd1 & Hs1).
    destruct o as [[]|e|]; [| |congruence].
    + rewrite (retry_after_success _ _ _ _ Hrun).
      exists w1, t1. split; [reflexivity|]. split; [exact Ht1|].
      split; [lia|]. split; [lia|].
      intros ms Hin. apply (count_zero_not_In _ _ _ Hs1) in Hin. discriminate.
    + rewrite (retry_after_failure _ _ _ _ _ Hrun).
      destruct (IH (emit (Sleep 1000) (emit (ConsoleError (message e)) w1)))
        as (w' & t & Hloop & Ht & Hd & Hs & Hms).
      exists w', (t1 ++ [ConsoleError (message e); Sleep 1000] ++ t)%list.
      split; [exact Hloop|]. simpl in Ht.
      split; [rewrite Ht, Ht1, <- !app_assoc; reflexivity|].
      rewrite !count_app. simpl.
      change (count isIoDeleteCardData (ConsoleError (message e) :: Sleep 1000 :: t))
        with (count isIoDeleteCardData t).
      change (count isSleep (ConsoleError (message e) :: Sleep 1000 :: t))
        with (S (count isSleep t)).
      split; [lia|]. split; [lia|].
      intros ms Hin. apply in_app_or in Hin as [Hin|[Hin|[Hin|Hin]]].
      * apply (count_zero_not_In _ _ _ Hs1) in Hin. discriminate.
      * discriminate.
      * now injection Hin as <-.
      * now apply Hms.
Qed.

(** The loop of [deleteCard] logs nothing but the destruction of windows. *)
Lemma destroyLoop_only_destroys keys w :
  exists t,
    trace (snd (forEach keys destroyAvatarAt w)) = (trace w ++ t)%list /\
    count isConsoleError t = 0%nat.
Proof.
  revert w. induction keys as [|key rest IH]; intros w; simpl.
  - exists []. now rewrite app_nil_r.
  - unfold destroyAvatarAt at 1. js_run.
    destruct (JsMap.get key (avatars w)) as [a|]; [|apply IH].
    unfold windowDestroy. js_run.
    destruct (IH (emit (WinDestroy (Avatar.window a))
                    (set_avatars (JsMap.delete key) w))) as (t & Ht & Hc).
    exists (WinDestroy (Avatar.window a) :: t). split; [|exact Hc].
    rewrite Ht. simpl. now rewrite <- app_assoc.
Qed.

(** One attempt on a registered card: one request to delete the record;
    the attempt fails exactly when the request does, and then the card
    and the record stay. *)
Lemma deleteCard_attempt id card prop w :
  cards w !! id = Some card -> Card.prop card = Some prop ->
  exists w1 t1,
    trace w1 = (trace w ++ t1)%list /\
    count isIoDeleteCardData t1 = 1%nat /\
    count isSleep t1 = 0%nat /\
    count isConsoleError t1 = 0%nat /\
    faults w1 = tail (faults w) /\
    (faultAt 0 w = true \/ store w !! id = None ->
     exists e, deleteCard id w = (Thrown e, w1) /\
               cards w1 = cards w /\ store w1 = store w) /\
    (faultAt 0 w = false -> is_Some (store w !! id) ->
     deleteCard id w = (Returned tt, w1) /\
     cards w1 = delete id (cards w) /\ store w1 = delete id (store w)).
Proof.
  intros Hc Hp. unfold deleteCard. js_run. rewrite Hc.
  unfold readProp. rewrite Hp. js_run.
  destruct (destroyLoop_run (JsMap.keys (CardProp.avatars prop)) w)
    as (w0 & t & Hrun & Ht & Hc1 & Hc2 & _ & Hcs & Hst & Hfl & _).
  destruct (destroyLoop_only_destroys (JsMap.keys (CardProp.avatars prop)) w)
    as (t0 & Ht0 & Hc3).
  rewrite Hrun in Ht0. simpl in Ht0. rewrite Ht in Ht0.
  apply app_inv_head in Ht0. subst t0.
  rewrite (bind_returned _ _ _ _ _ Hrun), deleteCardRecord_run.
  assert (faultAt 0 w0 = faultAt 0 w) as Hf
    by (unfold faultAt; now rewrite Hfl).
  rewrite Hf, Hst. cbv zeta.
  destruct (faultAt 0 w) eqn:Hf0; [|destruct (store w !! id) eqn:Hs];
    [exists (set_faults tail (emit (IoDeleteCardData id) w0))
    |exists (set_cards (delete id) (set_store (delete id)
               (set_faults tail (emit (IoDeleteCardData id) w0))))
    |exists (set_faults tail (emit (IoDeleteCardData id) w0))];
    exists (t ++ [IoDeleteCardData id])%list;
    (split; [simpl; rewrite Ht, <- app_assoc; reflexivity|]);
    rewrite !count_app, Hc1, Hc2, Hc3;
    (split; [reflexivity|]); (split; [reflexivity|]);
    (split; [reflexivity|]);
    (split; [simpl; now rewrite Hfl|]);
    (split; [intros Hfail|intros Hok1 Hok2]).
  - eexists. split; [reflexivity|]. simpl. split; assumption.
  - discriminate.
  - destruct Hfail as [Hfail|Hfail]; discriminate.
  - split; [reflexivity|]. simpl. now rewrite Hcs, Hst.
  - eexists. split; [reflexivity|]. simpl. split; assumption.
  - destruct Hok2 as [? [=]].
Qed.

(** The loop with [n] attempts left, on a registered card, when the first
    [j] attempts fail and the next one, if there is one, succeeds. *)
Lemma retryLoop_exact n id card prop :
  forall w j,
    cards w !! id = Some card -> Card.prop card = Some prop ->
    (j <= n)%nat ->
    (forall i, (i < j)%nat -> faultAt i w = true \/ store w !! id = None) ->
    ((j < n)%nat -> faultAt j w = false /\ is_Some (store w !! id)) ->
    exists w' t,
      deleteCardRetryLoop n id w = (Returned tt, w') /\
      trace w' = (trace w ++ t)%list /\
      count isIoDeleteCardData t = Nat.min (S j) n /\
      count isSleep t = j /\
      count isConsoleError t = j /\
      ((j < n)%nat ->
       cards w' = delete id (cards w) /\ store w' = delete id (store w)) /\
      (j = n -> cards w' = cards w /\ store w' = store w).
Proof.
  induction n as [|n IH]; intros w j Hc Hp Hj Hfail Hok.
  - assert (j = 0)%nat as -> by lia. exists w, []. rewrite app_nil_r.
    repeat split; try reflexivity; lia.
  - destruct (deleteCard_attempt id card prop w Hc Hp)
      as (w1 & t1 & Ht1 & Hd1 & Hs1 & He1 & Hfl1 & Hthrow & Hret).
    destruct j as [|j].
    + destruct (Hok ltac:(lia)) as [Hf Hs].
      destruct (Hret Hf Hs) as (Hrun & Hcs & Hst).
      rewrite (retry_after_success _ _ _ _ Hrun).
      exists w1, t1. split; [reflexivity|]. split; [exact Ht1|].
      rewrite Hd1, Hs1, He1. repeat split; try assumption; lia.
    + destruct (Hthrow (Hfail 0%nat ltac:(lia))) as (e & Hrun & Hcs & Hst).
      rewrite (retry_after_failure _ _ _ _ _ Hrun).
      set (w2 := emit (Sleep 1000) (emit (ConsoleError (message e)) w1)).
      assert (forall i, faultAt i w2 = faultAt (S i) w) as Hshift.
      { intros i. unfold faultAt. subst w2. simpl. rewrite Hfl1.
        destruct (faults w) as [|b r]; simpl; [now destruct i|reflexivity]. }
      destruct (IH w2 j) as (w' & t & Hloop & Ht & Hd & Hs & He & Hdel & Hkeep).
      * subst w2. simpl. now rewrite Hcs.
      * exact Hp.
      * lia.
      * intros i Hi. rewrite Hshift. subst w2. simpl. rewrite Hst.
        apply Hfail. lia.
      * intros Hlt. rewrite Hshift. subst w2. simpl. rewrite Hst.
        apply Hok. lia.
      * exists w', (t1 ++ ConsoleError (message e) :: Sleep 1000 :: t)%list.
        split; [exact Hloop|].
        split; [rewrite Ht; subst w2; simpl; rewrite Ht1, <- !app_assoc;
                reflexivity|].
        rewrite !count_app, Hd1, Hs1, He1.
        change (count isIoDeleteCardData
                  (ConsoleError (message e) :: Sleep 1000 :: t))
          with (count isIoDeleteCardData t).
        change (count isSleep (ConsoleError (message e) :: Sleep 1000 :: t))
          with (S (count isSleep t)).
        change (count isConsoleError
                  (ConsoleError (message e) :: Sleep 1000 :: t))
          with (S (count isConsoleError t)).
        rewrite Hd, Hs, He.
        split; [lia|]. split; [lia|]. split; [lia|]. split.
        -- intros Hlt. destruct (Hdel ltac:(lia)) as [H1 H2].
           subst w2. simpl in H1, H2. rewrite H1, H2, Hcs, Hst. split; reflexivity.
        -- intros Heq. destruct (Hkeep ltac:(lia)) as [H1 H2].
           subst w2. simpl in H1, H2. rewrite H1, H2, Hcs, Hst. split; reflexivity.
Qed.

(** C2 (as amended). [deleteCardWithRetry] calls [deleteCard] again after
    a failure: the error is logged with [console.error], the loop sleeps
    1000 ms and tries again, at most 5 attempts in all (so at most 5
    requests to delete the record), and it stops at the first attempt that
    does not throw. It never throws itself: after a fifth failure it
    returns normally. On a registered card an attempt fails exactly when
    its request to delete the record does; when the first [j] requests
    fail and the next one, if [j < 5], succeeds, there are [j + 1]
    requests ([5] when [j = 5]), [j] logged errors and [j] sleeps, and the
    card is unregistered if [j < 5] and still registered if all five
    failed. *)
Theorem deleteCardWithRetry_gives_up_silently id w :
  fst (deleteCardWithRetry id w) = Returned tt /\
  (count isIoDeleteCardData (traceSince w (snd (deleteCardWithRetry id w)))
     <= 5)%nat /\
  (count isSleep (traceSince w (snd (deleteCardWithRetry id w))) <= 5)%nat /\
  (forall ms, In (Sleep ms) (traceSince w (snd (deleteCardWithRetry id w))) ->
     ms = 1000) /\
  (forall w1, deleteCard id w = (Returned tt, w1) ->
     deleteCardWithRetry id w = (Returned tt, w1)) /\
  (forall e w1, deleteCard id w = (Thrown e, w1) ->
     deleteCardWithRetry id w =
       deleteCardRetryLoop 4 id
         (emit (Sleep 1000) (emit (ConsoleError (message e)) w1))) /\
  (forall w0, deleteCardRetryLoop 0 id w0 = (Returned tt, w0)) /\
  (forall card prop j,
     cards w !! id = Some card -> Card.prop card = Some prop ->
     (j <= 5)%nat ->
     (forall i, (i < j)%nat -> faultAt i w = true \/ store w !! id = None) ->
     ((j < 5)%nat -> faultAt j w = false /\ is_Some (store w !! id)) ->
     let w' := snd (deleteCardWithRetry id w) in
     count isIoDeleteCardData (traceSince w w') = Nat.min (S j) 5 /\
     count isSleep (traceSince w w') = j /\
     count isConsoleError (traceSince w w') = j /\
     ((j < 5)%nat ->
      cards w' = delete id (cards w) /\ store w' = delete id (store w)) /\
     (j = 5%nat -> cards w' = cards w /\ store w' = store w)).
Proof.
  unfold deleteCardWithRetry.
  destruct (retryLoop_summary 5 id w) as (w' & t & Hrun & Ht & Hd & Hs & Hms).
  rewrite Hrun. simpl fst. simpl snd. rewrite (traceSince_app _ _ _ Ht).
  split; [reflexivity|]. split; [exact Hd|]. split; [exact Hs|].
  split; [exact Hms|]. rewrite <- Hrun. split; [|split; [|split]].
  - intros w1 H. now apply retry_after_success.
  - intros e w1 H. now apply retry_after_failure.
  - reflexivity.
  - intros card prop j Hc Hp Hj Hfail Hok.
    destruct (retryLoop_exact 5 id card prop w j Hc Hp Hj Hfail Hok)
      as (w2 & t2 & Hrun2 & Ht2 & H1 & H2 & H3 & H4 & H5).
    rewrite Hrun2 in Hrun. injection Hrun as ->.
    rewrite Ht in Ht2. apply app_inv_head in Ht2. subst t2. cbv zeta.
    repeat split; try assumption; try (apply H4; assumption);
      try (apply H5; assumption).
Qed.

End DeleteCard.

(** ** Opening and rendering avatars *)
Section Rendering.
Context {P : Payload} {M : CardPropModule}.
Implicit Types (w : World) (id url : string) (this : Avatar.t).

#[global] Instance sameSetting_refl : Reflexive (@sameSetting P).
Proof. intros w. repeat split. Qed.

#[global] Instance sameSetting_trans : Transitive (@sameSetting P).
Proof.
  intros w1 w2 w3 (A1 & A2 & A3 & A4 & A5 & A6) (B1 & B2 & B3 & B4 & B5 & B6).
  repeat split; congruence.
Qed.

Ltac setting_rel := first [apply sameSetting_refl | apply sameSetting_trans].
Ltac setting_leaf :=
  first [ repeat split; reflexivity | intros ?; repeat split; reflexivity ].
Ltac setting_tac := maintains_with setting_rel setting_leaf.





Lemma render_setting this : maintains sameSetting (render this).
Proof. setting_tac. Qed.


(** The three answers of the renderer and what [render] makes of them. The
    avatar must be the one registered under its url, as it is wherever
    [render] is called. *)
Lemma render_run this a w :
  JsMap.get (AvatarProp.url (Avatar.prop this)) (avatars w) = Some a ->
  Avatar.window a = Avatar.window this ->
  Avatar.renderingCompleted a = false ->
  let u := AvatarProp.url (Avatar.prop this) in
  let h := Avatar.window this in
  let g := AvatarProp.geometry (Avatar.prop this) in
  let shown :=
    emit (WinSend h "render-card")
      (emit (WinShowInactive h)
         (emit (WinSetPosition h (Geometry.x g) (Geometry.y g))
            (emit (WinSetSize h (Geometry.width g) (Geometry.height g))
               (emit (WinLoadURL h) w)))) in
  render this w =
    match renderer w u with
    | RenderCompleted =>
        (Returned tt,
         set_avatars (JsMap.set u (Avatar.set_renderingCompleted true a)) shown)
    | LoadFailed description =>
        (Thrown (Error ("Error in render(): "
                        +:+ ("Error in loadHTML: " +:+ description))),
         emit (WinLoadURL h) w)
    | NeverAcknowledged => (Pending, shown)
    end.
Proof.
  intros Hget Hwin Hflag u h g shown. subst u h g shown.
  unfold render, _loadHTML, _renderCard, tryCatch, finishRenderCard,
    pollRenderingCompleted, bind, gets, modify, log, ret, throw, pending.
  simpl.
  destruct (renderer w (AvatarProp.url (Avatar.prop this))) eqn:Hr;
    simpl; rewrite ?Hr; simpl;
    rewrite ?Hget; simpl; rewrite ?get_set_eq; simpl;
    rewrite ?Hwin, ?Nat.eqb_refl, ?Hflag; reflexivity.
Qed.

Lemma getCardData_loaded url w :
  cardsLoaded w -> exists d, getCardData url w = (Returned d, w).
Proof.
  intros Hl. unfold getCardData, getCardFromUrl. js_run.
  destruct (cards w !! getIdFromUrl url) as [c|] eqn:Hc; [|eauto].
  destruct (Hl _ _ Hc) as [p Hp]. unfold readProp. rewrite Hp. eauto.
Qed.

Lemma getAvatarProp_loaded url w :
  cardsLoaded w -> exists f, getAvatarProp url w = (Returned f, w).
Proof.
  intros Hl. unfold getAvatarProp, getCardFromUrl. js_run.
  destruct (cards w !! getIdFromUrl url) as [c|] eqn:Hc; [|eauto].
  destruct (Hl _ _ Hc) as [p Hp]. unfold readProp. rewrite Hp. eauto.
Qed.




Section WithConstructor.
(** The constructor of [AvatarProp] stores the url it is given. *)
Hypothesis AvatarProp_new_url :
  forall u d f, AvatarProp.url (AvatarProp_new u d f) = u.


(** [Promise.all] over promises that have all settled. *)
Lemma promiseAll_settled os :
  Forall (fun o => o <> Pending) os ->
  promiseAll os =
    match firstThrown os with
    | Some e => Thrown e
    | None => Returned tt
    end.
Proof.
  intros H. unfold promiseAll. destruct (firstThrown os); [reflexivity|].
  replace (existsb isPending os) with false; [reflexivity|].
  symmetry. induction H as [|o r Ho _ IH]; [reflexivity|].
  simpl. rewrite IH. destruct o; try reflexivity. congruence.
Qed.

End WithConstructor.

End Rendering.

(** ** [createCard] *)
Section CreateCard.
Context {P : Payload} {M : CardPropModule}.
Implicit Types (w : World).



End CreateCard.

(** ** Start-up: what the log keeps *)
Section StartupFrames.
Context {P : Payload} {M : CardPropModule}.
Implicit Types (w : World) (avs : JsMap.t Avatar.t) (f : Event -> bool).

#[global] Instance quiet_refl : Reflexive (@quiet P).
Proof.
  intros w. exists []. split; [now rewrite app_nil_r|reflexivity].
Qed.

#[global] Instance quiet_trans : Transitive (@quiet P).
Proof.
  intros w1 w2 w3 [t1 [H1 Q1]] [t2 [H2 Q2]]. exists (t1 ++ t2)%list.
  split; [now rewrite H2, H1, app_assoc|].
  intros f Hf. now rewrite forallb_app, Q1, Q2.
Qed.

Lemma count_quiet f (t : list Event) :
  forallb (fun e => negb (f e)) t = true -> count f t = 0%nat.
Proof.
  unfold count. induction t as [|e r IH]; [reflexivity|]. simpl.
  intros Hq. apply andb_prop in Hq as [He Hr]. apply negb_true_iff in He.
  rewrite He. exact (IH Hr).
Qed.

End StartupFrames.

Ltac watched_cases :=
  let f := fresh "f" in
  let id := fresh "id" in
  intros f [[id ->]|[->| ->]]; reflexivity.
Ltac quiet_rel := first [apply quiet_refl | apply quiet_trans].
Ltac quiet_leaf :=
  first [ exists []; split; [simpl; rewrite app_nil_r; reflexivity|reflexivity]
        | eexists [_]; split; [reflexivity|watched_cases]
        | intros ?; exists [];
          split; [simpl; rewrite app_nil_r; reflexivity|reflexivity] ].
Ltac quiet_tac := maintains_with quiet_rel quiet_leaf.

Section StartupQuiet.
Context {P : Payload} {M : CardPropModule}.

Lemma getRecordedAvatarUrls_quiet : maintains quiet getRecordedAvatarUrls.
Proof. unfold getRecordedAvatarUrls. quiet_tac. Qed.

Lemma openAvatar_quiet u : maintains quiet (openAvatar u).
Proof. unfold openAvatar, setAvatarEntry. quiet_tac. Qed.

Lemma render_quiet this : maintains quiet (render this).
Proof. quiet_tac. Qed.

Lemma renderAvatars_quiet : maintains quiet renderAvatars.
Proof.
  unfold renderAvatars.
  maintains_using quiet_rel ltac:(apply render_quiet) quiet_leaf.
Qed.



End StartupQuiet.

(** ** The registry of avatars during start-up *)
Section AvatarRegistry.
Context {P : Payload}.
Implicit Types (avs : JsMap.t Avatar.t) (k u : string) (a : Avatar.t).

Lemma keys_set_absent {V} k (v : V) (m : JsMap.t V) :
  ~ In k (JsMap.keys m) -> JsMap.keys (JsMap.set k v m) = (JsMap.keys m ++ [k])%list.
Proof.
  induction m as [|[k' v'] r IH]; simpl; [reflexivity|].
  intros Hn. destruct (String.eqb_spec k k') as [->|Hne]; [tauto|].
  simpl. f_equal. apply IH. tauto.
Qed.

Lemma In_set {V} k (v : V) (m : JsMap.t V) k' v' :
  In (k', v') (JsMap.set k v m) -> (k', v') = (k, v) \/ In (k', v') m.
Proof.
  induction m as [|[k0 v0] r IH]; simpl.
  - intros [H|[]]. left. congruence.
  - destruct (String.eqb k k0); simpl; intuition congruence.
Qed.

Lemma In_keys_set {V} k (v : V) (m : JsMap.t V) k' :
  In k' (JsMap.keys (JsMap.set k v m)) <-> k' = k \/ In k' (JsMap.keys m).
Proof.
  induction m as [|[k0 v0] r IH]; simpl.
  - intuition.
  - destruct (String.eqb_spec k k0) as [->|Hne]; simpl; intuition.
Qed.

Lemma NoDup_keys_set {V} k (v : V) (m : JsMap.t V) :
  NoDup (JsMap.keys m) -> NoDup (JsMap.keys (JsMap.set k v m)).
Proof.
  induction m as [|[k0 v0] r IH]; simpl; intros Hn.
  - repeat constructor. intros Hin. inversion Hin.
  - apply NoDup_cons in Hn as [Hn0 Hn].
    destruct (String.eqb_spec k k0) as [->|Hne]; simpl.
    + apply NoDup_cons. split; assumption.
    + apply NoDup_cons. split; [|now apply IH].
      rewrite list_elem_of_In, In_keys_set.
      rewrite list_elem_of_In in Hn0. intuition.
Qed.

Lemma get_In_NoDup {V} k (v : V) (m : JsMap.t V) :
  NoDup (JsMap.keys m) -> In (k, v) m -> JsMap.get k m = Some v.
Proof.
  induction m as [|[k0 v0] r IH]; simpl; [easy|].
  intros Hn [H|Hin].
  - injection H as -> ->. now rewrite String.eqb_refl.
  - apply NoDup_cons in Hn as [Hn0 Hn].
    destruct (String.eqb_spec k k0) as [->|Hne]; [|now apply IH].
    exfalso. apply Hn0. rewrite list_elem_of_In.
    change k0 with (fst (k0, v)). now apply in_map.
Qed.

Lemma wellKeyed_empty : wellKeyed [].
Proof. split; [constructor|]. intros k a []. Qed.

Lemma wellKeyed_set avs k a :
  wellKeyed avs -> AvatarProp.url (Avatar.prop a) = k ->
  wellKeyed (JsMap.set k a avs).
Proof.
  intros [Hn Hk] Hu. split; [now apply NoDup_keys_set|].
  intros k' a' Hin. apply In_set in Hin as [[= -> ->]|Hin]; auto.
Qed.

Lemma shape_keys avs avs' :
  shape avs' = shape avs -> JsMap.keys avs' = JsMap.keys avs.
Proof.
  intros H. unfold JsMap.keys.
  apply (f_equal (map (fun x => fst (fst x)))) in H.
  unfold shape in H. rewrite !map_map in H. exact H.
Qed.

Lemma shape_get avs avs' k a :
  shape avs' = shape avs -> JsMap.get k avs = Some a ->
  exists a', JsMap.get k avs' = Some a' /\
             Avatar.prop a' = Avatar.prop a /\
             Avatar.window a' = Avatar.window a.
Proof.
  revert avs'. induction avs as [|[k0 a0] r IH]; intros [|[k1 a1] r'];
    simpl; try discriminate.
  intros [= -> Hp Hw Hr]. destruct (String.eqb k k0); [|now apply IH].
  intros [= <-]. eauto.
Qed.

Lemma shape_zOf avs avs' k :
  shape avs' = shape avs -> zOf avs' k = zOf avs k.
Proof.
  intros H. unfold zOf. destruct (JsMap.get k avs) as [a|] eqn:Hg.
  - destruct (shape_get _ _ _ _ H Hg) as (a' & -> & -> & _). reflexivity.
  - destruct (JsMap.get k avs') as [a'|] eqn:Hg'; [|reflexivity].
    destruct (shape_get _ _ _ _ (eq_sym H) Hg') as (a & Ha & _). congruence.
Qed.

Lemma shape_windowOf avs avs' k :
  shape avs' = shape avs -> windowOf avs' k = windowOf avs k.
Proof.
  intros H. unfold windowOf. destruct (JsMap.get k avs) as [a|] eqn:Hg.
  - destruct (shape_get _ _ _ _ H Hg) as (a' & -> & _ & ->). reflexivity.
  - destruct (JsMap.get k avs') as [a'|] eqn:Hg'; [|reflexivity].
    destruct (shape_get _ _ _ _ (eq_sym H) Hg') as (a & Ha & _). congruence.
Qed.

Lemma shape_backToFront avs avs' :
  shape avs' = shape avs -> backToFrontOf avs' = backToFrontOf avs.
Proof.
  intros H. unfold backToFrontOf. rewrite (shape_keys _ _ H).
  generalize (JsMap.keys avs). intros l.
  assert (forall x y : string, compareZ avs' x y = compareZ avs x y) as Hc.
  { intros x y. unfold compareZ. now rewrite !(shape_zOf _ _ _ H). }
  induction l as [|x r IH]; simpl; [reflexivity|]. rewrite IH.
  generalize (sort (compareZ avs) r). intros s.
  induction s as [|y s' IHs]; simpl; [reflexivity|].
  rewrite Hc, IHs. reflexivity.
Qed.

(** Setting a flag of a registered avatar changes no key, [prop] or
    window. *)
Lemma shape_set_flag avs k a a' :
  JsMap.get k avs = Some a ->
  Avatar.prop a' = Avatar.prop a -> Avatar.window a' = Avatar.window a ->
  shape (JsMap.set k a' avs) = shape avs.
Proof.
  intros Hg Hp Hw. induction avs as [|[k0 a0] r IH]; simpl in *;
    [discriminate|].
  destruct (String.eqb_spec k k0) as [->|Hne]; simpl.
  - injection Hg as ->. now rewrite Hp, Hw.
  - f_equal. now apply IH.
Qed.

End AvatarRegistry.

(** ** Start-up: opening, rendering and raising the avatars *)
Section StartupPhases.
Context {P : Payload} {M : CardPropModule}.
Implicit Types (w : World) (avs : JsMap.t Avatar.t) (u k : string).

Lemma finishRenderCard_shape url :
  preserves (fun w => shape (avatars w)) (finishRenderCard url).
Proof.
  intros w. unfold finishRenderCard. js_run.
  destruct (JsMap.get url (avatars w)) as [a|] eqn:Hg; simpl; [|reflexivity].
  now apply (shape_set_flag _ _ a).
Qed.

Lemma render_shape this : preserves (fun w => shape (avatars w)) (render this).
Proof.
  unfold preserves, render, _loadHTML, _renderCard, pollRenderingCompleted.
  maintains_using preserves_rel ltac:(apply finishRenderCard_shape)
    preserves_leaf.
Qed.

Lemma renderAvatars_shape :
  preserves (fun w => shape (avatars w)) renderAvatars.
Proof.
  unfold preserves, renderAvatars.
  maintains_using preserves_rel ltac:(apply render_shape) preserves_leaf.
Qed.

Lemma renderAvatars_setting : maintains sameSetting renderAvatars.
Proof.
  unfold renderAvatars.
  maintains_using
    ltac:(first [apply sameSetting_refl | apply sameSetting_trans])
    ltac:(apply render_setting)
    ltac:(first [ repeat split; reflexivity
                | intros ?; repeat split; reflexivity ]).
Qed.

(** A render whose avatar is registered, with a renderer that answers,
    settles. *)
Lemma render_settles this a w :
  JsMap.get (AvatarProp.url (Avatar.prop this)) (avatars w) = Some a ->
  Avatar.window a = Avatar.window this ->
  renderer w (AvatarProp.url (Avatar.prop this)) <> NeverAcknowledged ->
  fst (render this w) <> Pending.
Proof.
  intros Hget Hwin Hr.
  unfold render, _loadHTML, _renderCard, tryCatch, finishRenderCard,
    pollRenderingCompleted, bind, gets, modify, log, ret, throw, pending.
  simpl.
  destruct (renderer w (AvatarProp.url (Avatar.prop this))) eqn:Ha;
    [| |congruence]; simpl; rewrite ?Ha; simpl; [|discriminate].
  rewrite Hget. simpl. rewrite get_set_eq. simpl.
  rewrite Hwin, Nat.eqb_refl. simpl. discriminate.
Qed.

Lemma renderAll_run (vs : list Avatar.t) w :
  (forall a, In a vs ->
     exists a', JsMap.get (AvatarProp.url (Avatar.prop a)) (avatars w) = Some a'
                /\ Avatar.window a' = Avatar.window a) ->
  (forall u, renderer w u <> NeverAcknowledged) ->
  exists os w',
    mapJs (fun avatar => spawn (render avatar)) vs w = (Returned os, w') /\
    Forall (fun o => o <> Pending) os.
Proof.
  revert w. induction vs as [|a r IH]; intros w Hreg Hr; simpl.
  - exists [], w. split; [reflexivity|constructor].
  - rewrite (bind_returned _ _ _ _ _ (spawn_run _ _)).
    destruct (Hreg a (or_introl eq_refl)) as (a' & Hg & Hw).
    pose proof (render_settles a a' w Hg Hw (Hr _)) as Hset.
    pose proof (render_shape a w) as Hsh.
    destruct (render_setting a w) as (_ & _ & _ & _ & Hrn & _).
    destruct (IH (snd (render a w))) as (os & w' & Hrun & Hos).
    { intros b Hb. destruct (Hreg b (or_intror Hb)) as (b' & Hgb & Hwb).
      destruct (shape_get _ _ _ _ Hsh Hgb) as (b'' & Hgb' & _ & Hwb').
      exists b''. split; [exact Hgb'|congruence]. }
    { intros u. rewrite Hrn. apply Hr. }
    rewrite (bind_returned _ _ _ _ _ Hrun).
    exists (fst (render a w) :: os), w'. split; [reflexivity|].
    now constructor.
Qed.

Lemma renderAvatars_run w :
  wellKeyed (avatars w) ->
  (forall u, renderer w u <> NeverAcknowledged) ->
  exists w', renderAvatars w = (Returned tt, w').
Proof.
  intros [Hn Hk] Hr. unfold renderAvatars. js_run.
  destruct (renderAll_run (JsMap.values (avatars w)) w) as (os & w1 & Hrun & Hos).
  { intros a Ha. unfold JsMap.values in Ha. apply in_map_iff in Ha.
    destruct Ha as ([k a0] & <- & Hin). simpl. exists a0.
    rewrite (Hk _ _ Hin). split; [now apply get_In_NoDup|reflexivity]. }
  { exact Hr. }
  rewrite (bind_returned _ _ _ _ _ Hrun).
  unfold tryCatch, await. rewrite (promiseAll_settled _ Hos).
  destruct (firstThrown os); eauto.
Qed.

(** Raising the windows. *)
Lemma isDestroyed_none h w :
  forallb (fun e => negb (isAnyWinDestroy e)) (trace w) = true ->
  isDestroyed h w = false.
Proof.
  unfold isDestroyed. induction (trace w) as [|e r IH]; simpl; [reflexivity|].
  intros H. apply andb_prop in H as [He Hr]. rewrite (IH Hr).
  destruct e; try reflexivity. discriminate.
Qed.

Lemma raiseLoop_run (ks : list string) w :
  (forall k, In k ks -> In k (JsMap.keys (avatars w))) ->
  forallb (fun e => negb (isAnyWinDestroy e)) (trace w) = true ->
  exists w',
    forEach ks raiseWindow w = (Returned tt, w') /\
    trace w' =
      (trace w ++ map (fun k => WinMoveTop (windowOf (avatars w) k)) ks)%list /\
    avatars w' = avatars w /\ cards w' = cards w /\ store w' = store w.
Proof.
  revert w. induction ks as [|k r IH]; intros w Hreg Hq; simpl.
  - exists w. rewrite app_nil_r. repeat split.
  - destruct (In_keys_get k (avatars w)) as [a Ha]; [apply Hreg; now left|].
    unfold raiseWindow at 1. js_run. rewrite Ha. js_run.
    rewrite (isDestroyed_none _ _ Hq). simpl negb. cbv iota. js_run.
    destruct (IH (emit (WinMoveTop (Avatar.window a)) w))
      as (w' & Hrun & Ht & Hav & Hc & Hs).
    { intros k' Hk'. simpl. apply Hreg. now right. }
    { simpl. rewrite forallb_app, Hq. reflexivity. }
    exists w'. split; [exact Hrun|]. simpl in *.
    split; [|repeat split; assumption].
    rewrite Ht, <- app_assoc. unfold windowOf at 2. now rewrite Ha.
Qed.

Lemma raiseWindows_run w :
  forallb (fun e => negb (isAnyWinDestroy e)) (trace w) = true ->
  exists w',
    raiseWindows w = (Returned tt, w') /\
    trace w' =
      (trace w ++ map (fun k => WinMoveTop (windowOf (avatars w) k))
                    (backToFrontOf (avatars w)))%list /\
    avatars w' = avatars w /\ cards w' = cards w /\ store w' = store w.
Proof.
  intros Hq. unfold raiseWindows. js_run. apply raiseLoop_run; [|exact Hq].
  intros k Hk. now apply (sort_In (avatars w)).
Qed.

Lemma raisedWindows_app t1 t2 :
  raisedWindows (t1 ++ t2) = (raisedWindows t1 ++ raisedWindows t2)%list.
Proof.
  induction t1 as [|e r IH]; [reflexivity|].
  destruct e; simpl; rewrite IH; reflexivity.
Qed.

Lemma raisedWindows_quiet t :
  forallb (fun e => negb (isWinMoveTop e)) t = true -> raisedWindows t = [].
Proof.
  induction t as [|e r IH]; [reflexivity|]. simpl. intros H.
  apply andb_prop in H as [He Hr]. destruct e; try discriminate; now apply IH.
Qed.

Lemma raisedWindows_moveTops (hs : list nat) :
  raisedWindows (map WinMoveTop hs) = hs.
Proof. induction hs as [|h r IH]; simpl; [reflexivity|now rewrite IH]. Qed.

End StartupPhases.

(** ** Start-up: reading the list, opening the avatars *)
Section StartupSteps.
Context {P : Payload} {M : CardPropModule}.
Implicit Types (w : World) (avs : JsMap.t Avatar.t) (u k : string).

Lemma getRecordedAvatarUrls_run w :
  exists wA,
    getRecordedAvatarUrls w = (Returned (recordedUrls w), wA) /\
    cards wA = cards w /\ avatars wA = avatars w /\ store wA = store w /\
    workspaces wA = workspaces w /\
    currentWorkspaceId wA = currentWorkspaceId w /\
    renderer wA = renderer w /\ entropy wA = entropy w /\
    faults wA = tail (faults w) /\ quiet w wA.
Proof.
  pose proof (getRecordedAvatarUrls_quiet w) as Hq. revert Hq.
  unfold getRecordedAvatarUrls, recordedUrls. js_run.
  unfold tryCatch, CardIO_getAvatarUrlList, consoleError. js_run.
  destruct (faultAt 0 w) eqn:Hf.
  - rewrite bind_ioFault_failed by exact Hf. js_run. simpl. intros Hq.
    eexists. split; [reflexivity|]. simpl. repeat split. exact Hq.
  - rewrite bind_ioFault_ok by exact Hf. js_run. simpl. intros Hq.
    eexists. split; [reflexivity|]. simpl. repeat split. exact Hq.
Qed.

Lemma openAvatar_setting u : maintains sameSetting (openAvatar u).
Proof.
  unfold openAvatar, setAvatarEntry.
  maintains_with
    ltac:(first [apply sameSetting_refl | apply sameSetting_trans])
    ltac:(first [ repeat split; reflexivity
                | intros ?; repeat split; reflexivity ]).
Qed.

Lemma getCardData_cards u w1 w :
  cards w1 = cards w -> fst (getCardData u w1) = fst (getCardData u w).
Proof.
  intros H. unfold getCardData, getCardFromUrl. js_run. rewrite H.
  destruct (cards w !! getIdFromUrl u) as [c|]; [|reflexivity].
  unfold readProp. destruct (Card.prop c); reflexivity.
Qed.

Lemma getAvatarProp_cards u w1 w :
  cards w1 = cards w -> fst (getAvatarProp u w1) = fst (getAvatarProp u w).
Proof.
  intros H. unfold getAvatarProp, getCardFromUrl. js_run. rewrite H.
  destruct (cards w !! getIdFromUrl u) as [c|]; [|reflexivity].
  unfold readProp. destruct (Card.prop c); reflexivity.
Qed.

Section WithConstructor.
Hypothesis AvatarProp_new_url :
  forall u d f, AvatarProp.url (AvatarProp_new u d f) = u.

Lemma openAvatar_run u w :
  cardsLoaded w ->
  exists d f,
    fst (getCardData u w) = Returned d /\
    fst (getAvatarProp u w) = Returned f /\
    openAvatar u w =
      (Returned tt,
       set_avatars
         (JsMap.set u
            (Avatar.mk (AvatarProp_new u d f) (nextWindow w)
               false false false false))
         (emit (WinCreate (nextWindow w) u) (set_nextWindow S w))).
Proof.
  intros Hl. unfold openAvatar.
  destruct (getCardData_loaded u w Hl) as [d Hd].
  destruct (getAvatarProp_loaded u w Hl) as [f Hf].
  exists d, f. rewrite Hd, Hf. split; [reflexivity|]. split; [reflexivity|].
  rewrite (bind_returned _ _ _ _ _ Hd), (bind_returned _ _ _ _ _ Hf).
  unfold Avatar_new, newBrowserWindow, setAvatarEntry. js_run. simpl.
  now rewrite !AvatarProp_new_url.
Qed.

(** Opening the avatars of a list of urls: every url of the list ends up
    registered, with an avatar built from the data of its card. *)
Lemma openAvatars_run (urls : list string) w :
  cardsLoaded w -> wellKeyed (avatars w) ->
  exists w',
    forEach urls openAvatar w = (Returned tt, w') /\
    wellKeyed (avatars w') /\
    (NoDup (JsMap.keys (avatars w) ++ urls) ->
     JsMap.keys (avatars w') = (JsMap.keys (avatars w) ++ urls)%list) /\
    (forall u, In u (JsMap.keys (avatars w')) ->
       In u (JsMap.keys (avatars w)) \/ In u urls) /\
    (forall u, In u urls ->
       exists a d f,
         JsMap.get u (avatars w') = Some a /\
         fst (getCardData u w) = Returned d /\
         fst (getAvatarProp u w) = Returned f /\
         Avatar.prop a = AvatarProp_new u d f) /\
    (forall u a, ~ In u urls -> JsMap.get u (avatars w) = Some a ->
       JsMap.get u (avatars w') = Some a) /\
    sameSetting w w' /\ quiet w w'.
Proof.
  revert w. induction urls as [|u rest IH]; intros w Hl Hk; simpl.
  - exists w. split; [reflexivity|]. split; [exact Hk|].
    split; [now rewrite app_nil_r|]. split; [tauto|].
    split; [intros ? []|]. split; [auto|]. split; reflexivity.
  - destruct (openAvatar_run u w Hl) as (d & f & Hd & Hf & Hrun).
    pose proof (openAvatar_setting u w) as Hset.
    pose proof (openAvatar_quiet u w) as Hq.
    rewrite Hrun in Hset, Hq. simpl in Hset, Hq.
    set (a0 := Avatar.mk (AvatarProp_new u d f) (nextWindow w)
                 false false false false) in *.
    set (w1 := set_avatars (JsMap.set u a0)
                 (emit (WinCreate (nextWindow w) u) (set_nextWindow S w))) in *.
    destruct (IH w1) as (w' & Hrest & Hk' & Hkeys & Hsub & Hall & Hold & Hset' & Hq').
    { intros k c. apply Hl. }
    { apply wellKeyed_set; [exact Hk|apply AvatarProp_new_url]. }
    rewrite (bind_returned _ _ _ _ _ Hrun).
    exists w'. split; [exact Hrest|]. split; [exact Hk'|].
    split; [|split; [|split; [|split; [|split]]]].
    + intros Hnd. rewrite Hkeys; subst w1; simpl.
      * rewrite keys_set_absent, <- app_assoc; [reflexivity|].
        intros Hin. apply NoDup_app in Hnd as (_ & Hdis & _).
        apply (Hdis u); [now apply list_elem_of_In|].
        apply list_elem_of_In. now left.
      * rewrite keys_set_absent, <- app_assoc; [exact Hnd|].
        intros Hin. apply NoDup_app in Hnd as (_ & Hdis & _).
        apply (Hdis u); [now apply list_elem_of_In|].
        apply list_elem_of_In. now left.
    + intros k Hin. apply Hsub in Hin as [Hin|Hin]; [|tauto].
      subst w1. simpl in Hin. apply In_keys_set in Hin. intuition.
    + intros k [<-|Hin].
      * destruct (in_dec string_dec u rest) as [Hin|Hnin].
        -- destruct (Hall u Hin) as (a & d' & f' & Hg & Hd' & Hf' & Hp).
           exists a, d', f'. split; [exact Hg|].
           rewrite <- (getCardData_cards u w1 w eq_refl),
                   <- (getAvatarProp_cards u w1 w eq_refl). auto.
        -- exists a0, d, f. split; [|auto].
           apply Hold; [exact Hnin|]. subst w1. simpl. apply get_set_eq.
      * destruct (Hall k Hin) as (a & d' & f' & Hg & Hd' & Hf' & Hp).
        exists a, d', f'. split; [exact Hg|].
        rewrite <- (getCardData_cards k w1 w eq_refl),
                <- (getAvatarProp_cards k w1 w eq_refl). auto.
    + intros k a Hnin Hg. apply Hold; [tauto|]. subst w1. simpl.
      rewrite get_set_ne; [exact Hg|]. intros ->. tauto.
    + exact (sameSetting_trans _ _ _ Hset Hset').
    + exact (quiet_trans _ _ _ Hq Hq').
Qed.

End WithConstructor.
End StartupSteps.

(** ** Start-up: the default card *)
Section DefaultCard.
Context {P : Payload} {M : CardPropModule}.
Implicit Types (w : World) (u k id : string).






End DefaultCard.

(** ** Start-up: loading the recorded cards *)
Section LoadCards.
Context {P : Payload} {M : CardPropModule}.
Implicit Types (w : World) (u k id : string).

Lemma mem_In u (l : list string) : mem u l = true <-> In u l.
Proof.
  unfold mem. rewrite existsb_exists. split.
  - intros (x & Hin & He). apply String.eqb_eq in He. now subst.
  - intros Hin. exists u. split; [exact Hin|apply String.eqb_refl].
Qed.






Lemma CardIO_getCardData_run id w :
  CardIO_getCardData id w =
    (if faultAt 0 w then Thrown (mkError IOFailure "I/O failure")
     else match store w !! id with
          | Some p => Returned p
          | None => Thrown (notFound id)
          end,
     set_faults (@tl bool) (emit (IoGetCardData id) w)).
Proof.
  unfold CardIO_getCardData. js_run.
  destruct (faultAt 0 w) eqn:Hf.
  - rewrite bind_ioFault_failed by exact Hf. reflexivity.
  - rewrite bind_ioFault_ok by exact Hf. js_run. simpl.
    destruct (store w !! id); reflexivity.
Qed.

Lemma faultAt_tail i w w1 :
  faults w1 = tail (faults w) -> faultAt i w1 = faultAt (S i) w.
Proof.
  intros H. unfold faultAt. rewrite H.
  destruct (faults w) as [|b r]; simpl; [now destruct i|reflexivity].
Qed.

(** The loader of a card, as one function: the read, then the
    registration of the card, under the id found in its data. *)
Lemma loadCard_run id w :
  loadCard (Card.mk Load None (GetCardData id)) w =
    let w1 := set_faults (@tl bool) (emit (IoGetCardData id) w) in
    if faultAt 0 w then (Thrown (mkError IOFailure "I/O failure"), w1)
    else
      match store w !! id with
      | Some p =>
          (Returned tt,
           set_cards (insert (CardProp.id p)
                        (Card.mk Load (Some p) (GetCardData id))) w1)
      | None => (Thrown (notFound id), w1)
      end.
Proof.
  unfold loadCard, requestCardData.
  rewrite (bind_returned _ _ _ _ _ (spawn_run _ _)).
  unfold loadOrCreateCardData. cbn [Card.loadOrCreateCardData].
  pose proof (CardIO_getCardData_run id w) as Hg. cbv zeta.
  destruct (faultAt 0 w).
  { rewrite (bind_thrown _ _ _ _ _ Hg). reflexivity. }
  destruct (store w !! id) as [p|].
  - rewrite (bind_returned _ _ _ _ _ Hg). reflexivity.
  - rewrite (bind_thrown _ _ _ _ _ Hg). reflexivity.
Qed.

(** [loadCard(new Card('Load', id))] up to its [await]: one read of the
    store is requested. *)
Lemma loadCardById_run id w :
  loadCardById id w =
    (Returned (readAt w 0 id),
     set_faults (@tl bool) (emit (IoGetCardData id) w)).
Proof.
  unfold loadCardById, Card_new, requestCardData. js_run. rewrite spawn_run.
  unfold loadOrCreateCardData, readAt. cbn [Card.loadOrCreateCardData].
  pose proof (CardIO_getCardData_run id w) as Hg.
  destruct (faultAt 0 w).
  { rewrite (bind_thrown _ _ _ _ _ Hg). reflexivity. }
  destruct (store w !! id) as [p|].
  - rewrite (bind_returned _ _ _ _ _ Hg). reflexivity.
  - rewrite (bind_thrown _ _ _ _ _ Hg). reflexivity.
Qed.

Lemma readsFrom_shift w w1 i (ids : list string) :
  faults w1 = tail (faults w) -> store w1 = store w ->
  readsFrom w1 i ids = readsFrom w (S i) ids.
Proof.
  intros Hf Hs. revert i. induction ids as [|id rest IH]; intros i;
    [reflexivity|].
  simpl. unfold readAt. now rewrite (faultAt_tail _ _ _ Hf), Hs, IH.
Qed.

Lemma loadedBefore_shift w w1 i (ids : list string) :
  faults w1 = tail (faults w) -> store w1 = store w ->
  loadedBefore w1 i ids = loadedBefore w (S i) ids.
Proof.
  intros Hf Hs. revert i. induction ids as [|id rest IH]; intros i;
    [reflexivity|].
  simpl. now rewrite (faultAt_tail _ _ _ Hf), Hs, IH.
Qed.

(** The loaders, started one after the other: one read of the store per
    id, in order; no card is registered yet. *)
Lemma loaders_run (ids : list string) w :
  exists w',
    mapJs loadCardById ids w = (Returned (readsFrom w 0 ids), w') /\
    trace w' = (trace w ++ map IoGetCardData ids)%list /\
    cards w' = cards w /\ avatars w' = avatars w /\
    renderer w' = renderer w /\ store w' = store w.
Proof.
  revert w. induction ids as [|id rest IH]; intros w; simpl.
  - exists w. split; [reflexivity|]. split; [now rewrite app_nil_r|].
    repeat split.
  - rewrite (bind_returned _ _ _ _ _ (loadCardById_run id w)).
    set (w1 := set_faults (@tl bool) (emit (IoGetCardData id) w)).
    destruct (IH w1) as (w' & Hrest & Ht' & Hc' & Hav' & Hr' & Hs').
    rewrite (bind_returned _ _ _ _ _ Hrest).
    rewrite (readsFrom_shift w w1 0 rest) by reflexivity.
    exists w'. split; [reflexivity|].
    split; [rewrite Ht'; subst w1; simpl; rewrite <- app_assoc; reflexivity|].
    repeat split; assumption.
Qed.

(** Every read settles, and a card that was read has its [prop]. *)
Lemma readsFrom_settled w i (ids : list string) :
  Forall settledLoader (readsFrom w i ids).
Proof.
  revert i. induction ids as [|id rest IH]; intros i; constructor; [|apply IH].
  unfold readAt. destruct (faultAt i w); [exact I|].
  destruct (store w !! id); simpl; eauto.
Qed.

Lemma afterRejection_settled (os : list (Outcome Card.t)) :
  Forall settledLoader os -> Forall settledLoader (afterRejection os).
Proof.
  induction 1 as [|o r Ho Hr IH]; [constructor|].
  destruct o; simpl; assumption.
Qed.

Lemma beforeRejection_settled (os : list (Outcome Card.t)) :
  Forall settledLoader os -> Forall settledLoader (beforeRejection os).
Proof.
  induction 1 as [|o r Ho Hr IH]; [constructor|].
  destruct o; simpl; constructor; assumption.
Qed.

Lemma In_readsFrom w i (ids : list string) c :
  In (Returned c) (readsFrom w i ids) ->
  exists id p, In id ids /\ store w !! id = Some p /\
               c = Card.mk Load (Some p) (GetCardData id).
Proof.
  revert i. induction ids as [|id rest IH]; intros i; simpl; [intros []|].
  intros [Hc|Hin].
  - unfold readAt in Hc. destruct (faultAt i w); [discriminate|].
    destruct (store w !! id) as [p|] eqn:Hp; [|discriminate].
    injection Hc as <-. exists id, p. auto.
  - destruct (IH _ Hin) as (id' & p & Hi & Hp & Hc). exists id', p. auto.
Qed.


Lemma In_beforeRejection (os : list (Outcome Card.t)) o :
  In o (beforeRejection os) -> In o os.
Proof.
  induction os as [|o0 r IH]; [intros []|].
  destruct o0; simpl; tauto.
Qed.

Lemma In_afterRejection (os : list (Outcome Card.t)) o :
  In o (afterRejection os) -> In o os.
Proof.
  induction os as [|o0 r IH]; [intros []|].
  destruct o0; simpl; auto.
Qed.

(** Every card in the registry after some loaders have resumed was there
    before or is the card of one of them. *)
Lemma registerLoaded_provenance (os : list (Outcome Card.t)) cs k c :
  fold_left registerLoaded os cs !! k = Some c ->
  cs !! k = Some c \/
  In (Returned c) os /\ exists p, Card.prop c = Some p /\ k = CardProp.id p.
Proof.
  revert cs. induction os as [|o r IH]; intros cs; simpl; [auto|].
  intros H. destruct (IH _ H) as [H0|[Hin Hp]]; [|now right; auto].
  destruct o as [c0| |]; simpl in H0; auto.
  destruct (Card.prop c0) as [p|] eqn:Hp0; auto.
  destruct (decide (CardProp.id p = k)) as [<-|Hne].
  - rewrite lookup_insert_eq in H0. injection H0 as <-. right. eauto.
  - rewrite lookup_insert_ne in H0 by exact Hne. auto.
Qed.



(** The loaders that resume before the handler and those left behind
    register, together, what all the loaders register. *)
Lemma registerLoaded_split (os : list (Outcome Card.t)) cs :
  fold_left registerLoaded (afterRejection os)
    (fold_left registerLoaded (beforeRejection os) cs) =
  fold_left registerLoaded os cs.
Proof.
  revert cs. induction os as [|o r IH]; intros cs; [reflexivity|].
  destruct o; simpl; [apply IH|reflexivity..].
Qed.


(** A loader that resumes: its card is registered, or it rejects. *)
Lemma resumeLoadCard_run (loaded : Outcome Card.t) w :
  settledLoader loaded ->
  resumeLoadCard loaded w =
    match loaded with
    | Returned card =>
        (Returned tt, set_cards (fun cs => registerLoaded cs loaded) w)
    | Thrown e => (Thrown e, w)
    | Pending => (Pending, w)
    end.
Proof.
  unfold resumeLoadCard, await, readProp. destruct loaded as [c| |]; simpl.
  - intros [p Hp]. unfold bind. rewrite Hp. reflexivity.
  - reflexivity.
  - intros [].
Qed.

(** The wait for the loaders: those before the first rejection register
    their cards, the rejection is reported, and the others are left. *)
Lemma awaitLoaders_run (os : list (Outcome Card.t)) w :
  Forall settledLoader os ->
  exists w' t,
    awaitLoaders os w = (Returned (afterRejection os), w') /\
    trace w' = (trace w ++ t)%list /\
    (forall f, watched f -> forallb (fun e => negb (f e)) t = true) /\
    avatars w' = avatars w /\ renderer w' = renderer w /\
    store w' = store w /\
    cards w' = fold_left registerLoaded (beforeRejection os) (cards w).
Proof.
  intros Hos. revert w. induction Hos as [|o r Ho Hr IH]; intros w.
  - exists w, []. split; [reflexivity|]. split; [now rewrite app_nil_r|].
    repeat split.
  - pose proof (resumeLoadCard_run o w Ho) as Hres.
    simpl awaitLoaders. destruct o as [c|e|]; [| |destruct Ho].
    + erewrite bind_returned;
        [|apply tryCatch_returned; rewrite (bind_returned _ _ _ _ _ Hres);
          reflexivity].
      cbv iota.
      destruct (IH (set_cards (fun cs => registerLoaded cs (Returned c)) w))
        as (w' & t & Hrun & Ht & Hq & Hav & Hrn & Hs & Hc).
      exists w', t. split; [exact Hrun|]. repeat split; assumption.
    + erewrite bind_returned;
        [|rewrite (tryCatch_thrown _ _ _ _ _ (bind_thrown _ _ _ _ _ Hres));
          reflexivity].
      cbv iota. unfold consoleError. js_run.
      eexists; eexists. split; [reflexivity|]. simpl.
      split; [reflexivity|]. split; [watched_cases|]. repeat split.
Qed.

(** The loaders left behind, resuming: they register their cards and do
    nothing else. *)
Lemma resumeBehind_run (os : list (Outcome Card.t)) w :
  Forall settledLoader os ->
  resumeBehind os w =
    (Returned tt, set_cards (fun cs => fold_left registerLoaded os cs) w).
Proof.
  unfold resumeBehind. intros Hos. revert w.
  induction Hos as [|o r Ho Hr IH]; intros w.
  - destruct w; reflexivity.
  - pose proof (resumeLoadCard_run o w Ho) as Hres. simpl forEach.
    destruct o as [c|e|]; [| |destruct Ho].
    + rewrite (bind_returned _ _ _ _ _ (tryCatch_returned _ _ _ _ _ Hres)).
      rewrite IH. reflexivity.
    + erewrite bind_returned;
        [|rewrite (tryCatch_thrown _ _ _ _ _ Hres); reflexivity].
      rewrite IH. reflexivity.
Qed.

(** The loading branch of the [ready] handler. It always returns: a failed
    read is reported; the cards read before it are registered, and the
    loaders after it are left to resume later. *)
Lemma loadCards_run (urls : list string) w :
  let ids := unique (map getIdFromUrl urls) in
  let os := readsFrom w 0 ids in
  exists w' t,
    loadCards urls w = (Returned (afterRejection os), w') /\
    trace w' = (trace w ++ map IoGetCardData ids ++ t)%list /\
    (forall f, watched f -> forallb (fun e => negb (f e)) t = true) /\
    avatars w' = avatars w /\ renderer w' = renderer w /\
    store w' = store w /\
    (forall k c, cards w' !! k = Some c ->
       cards w !! k = Some c \/
       exists id p, In id ids /\ store w !! id = Some p /\
                    k = CardProp.id p /\
                    c = Card.mk Load (Some p) (GetCardData id)) /\
    cards w' = fold_left registerLoaded (beforeRejection os) (cards w) /\
    Forall settledLoader (afterRejection os).
Proof.
  intros ids os. unfold loadCards. fold ids.
  destruct (loaders_run ids w) as (w1 & Hrun & Ht & Hc & Hav & Hr & Hs).
  rewrite (bind_returned _ _ _ _ _ Hrun). fold os.
  pose proof (readsFrom_settled w 0 ids) as Hos. fold os in Hos.
  destruct (awaitLoaders_run os w1 Hos)
    as (w' & t & Hwait & Ht' & Hq & Hav' & Hr' & Hs' & Hc').
  exists w', t. split; [exact Hwait|].
  split; [rewrite Ht', Ht, <- app_assoc; reflexivity|].
  split; [exact Hq|]. split; [congruence|]. split; [congruence|].
  split; [congruence|]. rewrite Hc in Hc'.
  split; [|split; [exact Hc'|now apply afterRejection_settled]].
  intros k c Hk. rewrite Hc' in Hk.
  destruct (registerLoaded_provenance _ _ _ _ Hk) as [H0|[Hin (p & Hp & ->)]];
    [now left|right].
  apply In_beforeRejection in Hin.
  destruct (In_readsFrom _ _ _ _ Hin) as (id & p' & Hi & Hp' & ->).
  simpl in Hp. injection Hp as <-. exists id, p'. auto.
Qed.

(** Every card registered once all the loaders have resumed was read from
    the store. *)
Lemma loaders_provenance w i (ids : list string) cs k c :
  fold_left registerLoaded (readsFrom w i ids) cs !! k = Some c ->
  cs !! k = Some c \/
  exists id p, In id ids /\ store w !! id = Some p /\
               k = CardProp.id p /\
               c = Card.mk Load (Some p) (GetCardData id).
Proof.
  intros Hk.
  destruct (registerLoaded_provenance _ _ _ _ Hk) as [H0|[Hin (p & Hp & ->)]];
    [now left|right].
  destruct (In_readsFrom _ _ _ _ Hin) as (id & p' & Hi & Hp' & ->).
  simpl in Hp. injection Hp as <-. exists id, p'. auto.
Qed.

End LoadCards.

(** ** Start-up: from the registered cards to the raised windows *)
Section RestoreWindows.
Context {P : Payload} {M : CardPropModule}.
Hypothesis AvatarProp_new_url :
  forall u d f, AvatarProp.url (AvatarProp_new u d f) = u.

Lemma reads_quiet f (ids : list string) :
  f = isWinMoveTop \/ f = isAnyWinDestroy ->
  forallb (fun e => negb (f e)) (map IoGetCardData ids) = true.
Proof. intros [-> | ->]; induction ids; simpl; auto. Qed.

Lemma forallb_app_true {A} (f : A -> bool) (l1 l2 : list A) :
  forallb f l1 = true -> forallb f l2 = true -> forallb f (l1 ++ l2) = true.
Proof. intros H1 H2. rewrite forallb_app, H1, H2. reflexivity. Qed.

(** The second half of the [ready] handler, from a world in which the
    cards are registered and no avatar is: every url gets an avatar, built
    from the cards registered at that point; the loaders left behind
    register theirs afterwards. *)
Lemma restoreWindows_run (urls : list string)
    (behind : list (Outcome Card.t)) w :
  cardsLoaded w -> avatars w = [] ->
  (forall u, renderer w u <> NeverAcknowledged) ->
  forallb (fun e => negb (isAnyWinDestroy e)) (trace w) = true ->
  Forall settledLoader behind ->
  exists w' t,
    (forEach urls openAvatar ;; resumeBehind behind ;;
     renderAvatars ;; raiseWindows) w
      = (Returned tt, w') /\
    trace w' =
      (trace w ++ t ++
       map WinMoveTop
         (map (windowOf (avatars w')) (backToFrontOf (avatars w'))))%list /\
    (forall f, watched f -> forallb (fun e => negb (f e)) t = true) /\
    cards w' = fold_left registerLoaded behind (cards w) /\
    store w' = store w /\
    (NoDup urls -> JsMap.keys (avatars w') = urls) /\
    (forall u a, JsMap.get u (avatars w') = Some a ->
       In u urls /\
       exists d f,
         fst (getCardData u w) = Returned d /\
         fst (getAvatarProp u w) = Returned f /\
         Avatar.prop a = AvatarProp_new u d f) /\
    (forall u, In u urls -> is_Some (JsMap.get u (avatars w'))).
Proof.
  intros Hl Hav Hr Hnd Hbehind.
  destruct (openAvatars_run AvatarProp_new_url urls w Hl)
    as (wC0 & HrunC & HkC & HkeysC & HsubC & HallC & _ & HsetC & HqC).
  { rewrite Hav. apply wellKeyed_empty. }
  rewrite Hav in HkeysC, HsubC. simpl in HkeysC, HsubC.
  destruct HsetC as (HcC & HsC & _ & _ & HrC & _).
  pose proof (resumeBehind_run behind wC0 Hbehind) as HrunR.
  set (wC := set_cards (fun cs => fold_left registerLoaded behind cs) wC0)
    in *.
  destruct HqC as (tC & HtC & HquC).
  change (trace wC0) with (trace wC) in HtC.
  change (avatars wC0) with (avatars wC) in HkC, HkeysC, HsubC, HallC.
  destruct (renderAvatars_run wC HkC) as (wD & HrunD).
  { intros u. change (renderer wC) with (renderer wC0). rewrite HrC. apply Hr. }
  pose proof (renderAvatars_shape wC) as HshD.
  pose proof (renderAvatars_setting wC) as HsetD.
  pose proof (renderAvatars_quiet wC) as HqD.
  rewrite HrunD in HshD, HsetD, HqD. simpl in HshD, HsetD, HqD.
  destruct HsetD as (HcD & HsD & _).
  destruct HqD as (tD & HtD & HquD).
  destruct (raiseWindows_run wD) as (wE & HrunE & HtE & HavE & HcE & HsE).
  { rewrite HtD, HtC. apply forallb_app_true; [apply forallb_app_true|].
    - exact Hnd.
    - apply HquC. right. now right.
    - apply HquD. right. now right. }
  exists wE, (tC ++ tD)%list.
  split.
  { rewrite (bind_returned _ _ _ _ _ HrunC), (bind_returned _ _ _ _ _ HrunR),
      (bind_returned _ _ _ _ _ HrunD).
    exact HrunE. }
  split.
  { rewrite HtE, HtD, HtC, HavE, map_map, <- !app_assoc. reflexivity. }
  split.
  { intros f Hf. apply forallb_app_true; [now apply HquC|now apply HquD]. }
  split; [rewrite HcE, HcD; subst wC; simpl; now rewrite HcC|].
  split; [rewrite HsE, HsD; subst wC; simpl; exact HsC|].
  rewrite HavE.
  split.
  { intros Hn. rewrite (shape_keys _ _ HshD). now apply HkeysC. }
  split.
  - intros u a Hg.
    assert (In u urls) as Hin.
    { apply get_Some_keys in Hg. rewrite (shape_keys _ _ HshD) in Hg.
      destruct (HsubC u Hg) as [[]|Hin]. exact Hin. }
    split; [exact Hin|].
    destruct (HallC u Hin) as (a0 & d & f & Hg0 & Hd & Hf & Hp).
    destruct (shape_get _ _ _ _ HshD Hg0) as (a' & Hg' & Hp' & _).
    exists d, f. split; [exact Hd|]. split; [exact Hf|]. congruence.
  - intros u Hin.
    destruct (HallC u Hin) as (a0 & _ & _ & Hg0 & _).
    destruct (shape_get _ _ _ _ HshD Hg0) as (a' & Hg' & _). eauto.
Qed.

End RestoreWindows.

(** ** Start-up: the [ready] handler *)
Section Ready.
Context {P : Payload} {M : CardPropModule}.

Lemma count_moveTops id (hs : list nat) :
  count (isIoGetCardData id) (map WinMoveTop hs) = 0%nat.
Proof. unfold count. induction hs; simpl; auto. Qed.

(** The log of a start-up, read back: the windows raised are those of
    the last phase, and the reads of the store are those of the loaders. *)
Lemma startup_log (tA tB t : list Event) (ids : list string) (hs : list nat) :
  (forall f, watched f -> forallb (fun e => negb (f e)) tA = true) ->
  (forall f, watched f -> forallb (fun e => negb (f e)) tB = true) ->
  (forall f, watched f -> forallb (fun e => negb (f e)) t = true) ->
  let tr := ((tA ++ map IoGetCardData ids ++ tB) ++ t ++ map WinMoveTop hs)%list in
  raisedWindows tr = hs /\
  (forall id, count (isIoGetCardData id) tr =
              count (isIoGetCardData id) (map IoGetCardData ids)) /\
  forallb (fun e => negb (isAnyWinDestroy e))
    (tA ++ map IoGetCardData ids ++ tB) = true.
Proof.
  intros HA HB Ht tr. subst tr.
  assert (watched isWinMoveTop) as Hm by (right; now left).
  assert (watched isAnyWinDestroy) as Hd by (right; now right).
  split; [|split].
  - rewrite !raisedWindows_app, raisedWindows_moveTops.
    rewrite (raisedWindows_quiet tA), (raisedWindows_quiet tB),
      (raisedWindows_quiet t), (raisedWindows_quiet (map _ ids)); auto.
    apply reads_quiet. now left.
  - intros id. assert (watched (isIoGetCardData id)) as Hi by (left; eauto).
    rewrite !count_app, count_moveTops.
    rewrite (count_quiet _ tA), (count_quiet _ tB), (count_quiet _ t); auto.
    lia.
  - apply forallb_app_true; [auto|]. apply forallb_app_true; [|auto].
    apply reads_quiet. now right.
Qed.

(** What [getCardData] and [getAvatarProp] read from the registry. *)
Lemma getCardData_at u w :
  fst (getCardData u w) =
    match cards w !! getIdFromUrl u with
    | None => Returned None
    | Some c =>
        match Card.prop c with
        | Some p => Returned (Some (CardProp.data p))
        | None => Thrown (TypeError "Cannot read properties of undefined")
        end
    end.
Proof.
  unfold getCardData, getCardFromUrl. js_run.
  destruct (cards w !! getIdFromUrl u) as [c|]; [|reflexivity].
  unfold readProp. destruct (Card.prop c); reflexivity.
Qed.

Lemma getAvatarProp_at u w :
  fst (getAvatarProp u w) =
    match cards w !! getIdFromUrl u with
    | None => Returned None
    | Some c =>
        match Card.prop c with
        | Some p =>
            Returned (JsMap.get (getAvatarLocation u) (CardProp.avatars p))
        | None => Thrown (TypeError "Cannot read properties of undefined")
        end
    end.
Proof.
  unfold getAvatarProp, getCardFromUrl. js_run.
  destruct (cards w !! getIdFromUrl u) as [c|]; [|reflexivity].
  unfold readProp. destruct (Card.prop c); reflexivity.
Qed.




End Ready.

(** * Further properties of the registry operations *)
Section DeleteCardOutcome.
Context {P : Payload} {M : CardPropModule}.
Implicit Types (w : World) (id url : string).

(** X1. [deleteCard] on a registered card asks the persistence layer
    exactly once. If that request succeeds the card is unregistered; if
    it fails, [deleteCard] throws an error whose message is that of the
    request wrapped twice, first by ["Error in delete-card: "] and then by
    ["Error in destroy window: "], and the card stays registered. On an
    id that is not registered it only reports the fact on the console. *)
Theorem deleteCard_outcome id w :
  (cards w !! id = None ->
   deleteCard id w =
     (Returned tt,
      emit (ConsoleError ("Error in deleteCard: card does not exist: " +:+ id))
        w)) /\
  (forall card prop,
     cards w !! id = Some card -> Card.prop card = Some prop ->
     let w' := snd (deleteCard id w) in
     count isIoDeleteCardData (traceSince w w') = 1%nat /\
     match fst (CardIO_deleteCardData id w) with
     | Returned _ =>
         fst (deleteCard id w) = Returned tt /\
         cards w' = delete id (cards w) /\ store w' = delete id (store w)
     | Thrown e =>
         fst (deleteCard id w) =
           Thrown (Error ("Error in destroy window: "
                          +:+ ("Error in delete-card: " +:+ message e))) /\
         cards w' = cards w /\ store w' = store w
     | Pending => False
     end).
Proof.
  split.
  - intros Hc. unfold deleteCard, consoleError. js_run. now rewrite Hc.
  - intros card prop Hc Hp. unfold deleteCard. js_run. rewrite Hc.
    unfold readProp. rewrite Hp. js_run.
    destruct (destroyLoop_run (JsMap.keys (CardProp.avatars prop)) w)
      as (w1 & t & Hrun & Ht & Hc1 & _ & _ & Hcs & Hst & Hfl & _).
    rewrite (bind_returned _ _ _ _ _ Hrun), deleteCardRecord_run,
      CardIO_deleteCardData_run.
    assert (faultAt 0 w1 = faultAt 0 w) as Hf
      by (unfold faultAt; now rewrite Hfl).
    rewrite Hf, Hst. cbv zeta.
    assert (forall w2 : World,
              trace w2 = (trace w1 ++ [IoDeleteCardData id])%list ->
              count isIoDeleteCardData (traceSince w w2) = 1%nat) as Hcount.
    { intros w2 H2. erewrite traceSince_app
        by (rewrite H2, Ht, <- app_assoc; reflexivity).
      rewrite count_app, Hc1. reflexivity. }
    destruct (faultAt 0 w); [|destruct (store w !! id)]; simpl;
      (split; [apply Hcount; reflexivity|]); repeat split; congruence.
Qed.

End DeleteCardOutcome.

Section DeleteAvatarEdges.
Context {P : Payload} {M : CardPropModule}.
Implicit Types (w : World) (id url : string).

(** X2. [deleteAvatar] on a url with no registered avatar destroys no
    window and sends no request about the placement list. If the card
    behind the url is not registered either, nothing happens at all;
    if it is, the placement is still removed from the card and the card
    is saved. *)
Theorem deleteAvatar_without_window url w :
  JsMap.get url (avatars w) = None ->
  (getCardFromUrl url w = None -> deleteAvatar url w = (Returned tt, w)) /\
  (forall card prop,
     getCardFromUrl url w = Some card -> Card.prop card = Some prop ->
     let prop' :=
       CardProp.mk (CardProp.id prop) (CardProp.data prop)
         (JsMap.delete (getAvatarLocation url) (CardProp.avatars prop)) in
     exists w',
       deleteAvatar url w = (Returned tt, w') /\
       avatars w' = avatars w /\ workspaces w' = workspaces w /\
       placements w' = placements w /\
       cards w' = <[getIdFromUrl url := Card.set_prop prop' card]> (cards w) /\
       trace w' =
         (trace w ++ IoUpdateOrCreateCardData (CardProp.id prop) ::
            if faultAt 0 w then [ConsoleError "I/O failure"] else [])%list /\
       store w' =
         if faultAt 0 w then store w
         else <[CardProp.id prop := prop']> (store w)).
Proof.
  intros Hget. split.
  - intros Hc. unfold deleteAvatar. js_run. rewrite Hget. js_run.
    now rewrite Hc.
  - intros card prop Hc Hp prop'. unfold deleteAvatar. js_run.
    rewrite Hget. js_run. rewrite Hc. unfold readProp. rewrite Hp. js_run.
    rewrite saveCard_run.
    eexists. split; [reflexivity|]. simpl.
    change (faultAt 0 (set_cards _ w)) with (faultAt 0 w).
    destruct (faultAt 0 w); simpl; repeat split; try reflexivity;
      rewrite <- app_assoc; reflexivity.
Qed.

(** X3. When the request that removes the url from the placement list
    fails, [deleteAvatar] throws. By then the avatar is unregistered and
    its window destroyed, while the workspace, the placement list, the
    card and the store still hold the placement. *)
Theorem deleteAvatar_interrupted url avatar w :
  JsMap.get url (avatars w) = Some avatar ->
  faultAt 0 w = true ->
  exists e w',
    deleteAvatar url w = (Thrown e, w') /\
    avatars w' = JsMap.delete url (avatars w) /\
    isDestroyed (Avatar.window avatar) w' = true /\
    workspaces w' = workspaces w /\ placements w' = placements w /\
    cards w' = cards w /\ store w' = store w.
Proof.
  intros Hget Hf. unfold deleteAvatar. js_run. rewrite Hget.
  unfold windowDestroy, CardIO_deleteAvatarUrl. js_run.
  rewrite bind_ioFault_failed by exact Hf.
  eexists. eexists. split; [reflexivity|]. simpl.
  repeat split; try reflexivity.
  unfold isDestroyed. simpl. rewrite !existsb_app. simpl.
  rewrite Nat.eqb_refl. simpl. rewrite ?orb_true_r. reflexivity.
Qed.

End DeleteAvatarEdges.

(** * The focus protocol *)
Section FocusProtocol.
Context {P : Payload} {M : CardPropModule}.
Implicit Types (w : World) (url u : string) (a b : Avatar.t).

Lemma set_same {V} k (v : V) (m : JsMap.t V) :
  JsMap.get k m = Some v -> JsMap.set k v m = m.
Proof.
  induction m as [|[k' v'] r IH]; simpl; [discriminate|].
  destruct (String.eqb_spec k k') as [->|Hne].
  - now intros [= ->].
  - intros H. now rewrite IH.
Qed.

Lemma set_set {V} k (v v' : V) (m : JsMap.t V) :
  JsMap.set k v (JsMap.set k v' m) = JsMap.set k v m.
Proof.
  induction m as [|[k0 v0] r IH]; simpl.
  - now rewrite String.eqb_refl.
  - destruct (String.eqb k k0) eqn:He; simpl.
    + now rewrite String.eqb_refl.
    + now rewrite He, IH.
Qed.

Lemma set_avatars_same u b w :
  JsMap.get u (avatars w) = Some b -> set_avatars (JsMap.set u b) w = w.
Proof.
  destruct w as [cs avs g wi wu wss st pl fl en rd nw tr]. simpl.
  intros H. unfold set_avatars. simpl. now rewrite set_same.
Qed.

(** While the gate is closed, a focus event on an avatar none of whose
    focus flags is set changes nothing. *)
Lemma focus_gated_noop u w :
  globalFocusListenerPermission w = false ->
  (forall b, JsMap.get u (avatars w) = Some b ->
     Avatar.suppressFocusEventOnce b = false /\
     Avatar.recaptureGlobalFocusEventAfterLocalFocusEvent b = false) ->
  emitFocus u w = w.
Proof.
  intros Hg Hb. unfold emitFocus.
  destruct (JsMap.get u (avatars w)) as [b|] eqn:Hget; [|reflexivity].
  destruct (Hb b eq_refl) as [Hs Hr]. unfold _focusListener.
  rewrite Hr, Hs. unfold getGlobalFocusEventListenerPermission.
  rewrite Hg. simpl. now apply set_avatars_same.
Qed.

Lemma focus_others_noop (others : list string) w :
  globalFocusListenerPermission w = false ->
  (forall u b, In u others -> JsMap.get u (avatars w) = Some b ->
     Avatar.suppressFocusEventOnce b = false /\
     Avatar.recaptureGlobalFocusEventAfterLocalFocusEvent b = false) ->
  deliverAll (map FocusEvent others) w = w.
Proof.
  intros Hg Hb. induction others as [|u r IH]; [reflexivity|].
  unfold deliverAll. simpl. rewrite focus_gated_noop; [|exact Hg|].
  - apply IH. intros u' b Hin. apply Hb. now right.
  - intros b. apply Hb. now left.
Qed.

Lemma deliverAll_app es1 es2 w :
  deliverAll (es1 ++ es2) w = deliverAll es2 (deliverAll es1 w).
Proof. unfold deliverAll. apply fold_left_app. Qed.

Lemma emitBlur_registered url a w :
  JsMap.get url (avatars w) = Some a ->
  emitBlur url w =
    set_avatars (JsMap.set url (fst (_blurListener a w)))
      (snd (_blurListener a w)).
Proof.
  intros H. unfold emitBlur. rewrite H.
  destruct (_blurListener a w). reflexivity.
Qed.

Lemma emitFocus_registered url a w :
  JsMap.get url (avatars w) = Some a ->
  emitFocus url w =
    set_avatars (JsMap.set url (fst (_focusListener a w)))
      (snd (_focusListener a w)).
Proof.
  intros H. unfold emitFocus. rewrite H.
  destruct (_focusListener a w). reflexivity.
Qed.

(** X4. The handler [blur-and-focus-with-suppress-events] closes the
    gate, blurs the window and focuses it again. When the window system
    then delivers the blur event, focus events of any other cards and at
    last the focus event of this card, no message at all is sent to a
    renderer; after the last event the gate is open again and every
    avatar is as it was before the handler ran. *)
Theorem suppressed_blur_and_focus url a (others : list string) w :
  JsMap.get url (avatars w) = Some a ->
  allFlagsClear a ->
  (forall u b, In u others -> JsMap.get u (avatars w) = Some b ->
     u <> url /\ allFlagsClear b) ->
  let w1 := snd (blurAndFocusWithSuppressEvents url w) in
  let w2 :=
    deliverAll (BlurEvent url :: map FocusEvent others ++ [FocusEvent url])%list
      w1 in
  fst (blurAndFocusWithSuppressEvents url w) = Returned tt /\
  globalFocusListenerPermission w1 = false /\
  trace w2 =
    (trace w ++ [WinBlur (Avatar.window a); WinFocus (Avatar.window a)])%list /\
  globalFocusListenerPermission w2 = true /\
  avatars w2 = avatars w.
Proof.
  intros Hget (Hsf & Hsb & Hrc) Hothers.
  destruct a as [p h sf sb rc rd]. simpl in Hsf, Hsb, Hrc. subst sf sb rc.
  set (a2 := Avatar.mk p h true true true rd).
  set (a3 := Avatar.mk p h true false true rd).
  set (W1 := emit (WinFocus h)
               (set_avatars (JsMap.set url a2)
                  (emit (WinBlur h)
                     (set_avatars
                        (JsMap.set url (Avatar.mk p h false true false rd))
                        (setGlobalFocusEventListenerPermission false w))))).
  assert (blurAndFocusWithSuppressEvents url w = (Returned tt, W1)) as Hrun.
  { unfold blurAndFocusWithSuppressEvents. js_run. rewrite Hget. js_run.
    reflexivity. }
  rewrite Hrun. cbv zeta. cbn [fst snd].
  unfold deliverAll. cbn [fold_left deliver].
  rewrite (emitBlur_registered url a2) by (subst W1; simpl; apply get_set_eq).
  cbn [_blurListener Avatar.suppressBlurEventOnce a2 fst snd].
  change (Avatar.set_suppressBlurEventOnce false a2) with a3.
  set (W2 := set_avatars (JsMap.set url a3) W1).
  fold (deliverAll (map FocusEvent others ++ [FocusEvent url]) W2).
  rewrite deliverAll_app, focus_others_noop; [| reflexivity |].
  2:{ intros u b Hin Hb. subst W2 W1. simpl in Hb.
      destruct (string_dec u url) as [->|Hne].
      - rewrite get_set_eq in Hb. injection Hb as <-.
        destruct (In_keys_get url (avatars w)) as [b Hb];
          [eapply get_Some_keys; eauto|].
        destruct (Hothers url b Hin Hb) as [Hne _]. now destruct Hne.
      - rewrite !get_set_ne in Hb by congruence.
        destruct (Hothers u b Hin Hb) as [_ (H1 & _ & H3)]. now split. }
  unfold deliverAll. cbn [fold_left deliver].
  rewrite (emitFocus_registered url a3) by (subst W2; simpl; apply get_set_eq).
  split; [reflexivity|]. split; [reflexivity|].
  subst W2 W1. simpl. rewrite <- app_assoc. split; [reflexivity|].
  split; [reflexivity|]. rewrite !set_set. now apply set_same.
Qed.

(** X5. The handler [blur-and-focus-with-suppress-focus-event] silences
    the focus events of the other cards only: of the events delivered
    afterwards, the blur event of this card is reported to its renderer,
    focus events of other cards are not, and the focus event of this
    card opens the gate again and is reported. *)
Theorem suppressed_focus_of_others url a (others : list string) w :
  JsMap.get url (avatars w) = Some a ->
  allFlagsClear a ->
  (forall u b, In u others -> JsMap.get u (avatars w) = Some b ->
     u <> url /\ allFlagsClear b) ->
  let w1 := snd (blurAndFocusWithSuppressFocusEvent url w) in
  let w2 :=
    deliverAll (BlurEvent url :: map FocusEvent others ++ [FocusEvent url])%list
      w1 in
  fst (blurAndFocusWithSuppressFocusEvent url w) = Returned tt /\
  globalFocusListenerPermission w1 = false /\
  trace w2 =
    (trace w ++ [WinBlur (Avatar.window a); WinFocus (Avatar.window a);
                 WinSend (Avatar.window a) "card-blurred";
                 WinSend (Avatar.window a) "card-focused"])%list /\
  globalFocusListenerPermission w2 = true /\
  avatars w2 = avatars w.
Proof.
  intros Hget (Hsf & Hsb & Hrc) Hothers.
  destruct a as [p h sf sb rc rd]. simpl in Hsf, Hsb, Hrc. subst sf sb rc.
  set (a2 := Avatar.mk p h false false true rd).
  set (W1 := emit (WinFocus h)
               (set_avatars (JsMap.set url a2)
                  (emit (WinBlur h)
                     (setGlobalFocusEventListenerPermission false w)))).
  assert (blurAndFocusWithSuppressFocusEvent url w = (Returned tt, W1)) as Hrun.
  { unfold blurAndFocusWithSuppressFocusEvent. js_run. rewrite Hget. js_run.
    reflexivity. }
  rewrite Hrun. cbv zeta. cbn [fst snd].
  unfold deliverAll. cbn [fold_left deliver].
  rewrite (emitBlur_registered url a2) by (subst W1; simpl; apply get_set_eq).
  cbn [_blurListener Avatar.suppressBlurEventOnce a2 fst snd].
  set (W2 := set_avatars (JsMap.set url a2)
               (emit (WinSend (Avatar.window a2) "card-blurred") W1)).
  fold (deliverAll (map FocusEvent others ++ [FocusEvent url]) W2).
  rewrite deliverAll_app, focus_others_noop; [| reflexivity |].
  2:{ intros u b Hin Hb. subst W2 W1. simpl in Hb.
      destruct (string_dec u url) as [->|Hne].
      - rewrite get_set_eq in Hb. injection Hb as <-.
        destruct (In_keys_get url (avatars w)) as [b Hb];
          [eapply get_Some_keys; eauto|].
        destruct (Hothers url b Hin Hb) as [Hne _]. now destruct Hne.
      - rewrite !get_set_ne in Hb by congruence.
        destruct (Hothers u b Hin Hb) as [_ (H1 & _ & H3)]. now split. }
  unfold deliverAll. cbn [fold_left deliver].
  rewrite (emitFocus_registered url a2) by (subst W2; simpl; apply get_set_eq).
  split; [reflexivity|]. split; [reflexivity|].
  subst W2 W1. simpl. rewrite <- !app_assoc. split; [reflexivity|].
  split; [reflexivity|]. rewrite !set_set. now apply set_same.
Qed.

End FocusProtocol.

(** * Rearranging the windows *)
Section Rearrange.
Context {P : Payload} {M : CardPropModule}.
Implicit Types (w : World) (url k : string) (a b : Avatar.t).

Lemma windowOf_set_flag avs k a k' :
  JsMap.get k avs = Some a ->
  windowOf (JsMap.set k (Avatar.set_suppressFocusEventOnce true a) avs) k'
    = windowOf avs k'.
Proof.
  intros Ha. unfold windowOf. destruct (String.eqb_spec k' k) as [->|Hne].
  - rewrite get_set_eq, Ha. reflexivity.
  - now rewrite get_set_ne.
Qed.

(** The rearranging loop: every key of the list gets its flag armed and
    its window focused, in the order of the list. *)
Lemma rearrange_run (l : list string) w :
  (forall k, In k l -> In k (JsMap.keys (avatars w))) ->
  exists w',
    forEach l suppressAndFocus w = (Returned tt, w') /\
    trace w' =
      (trace w ++ map (fun k => WinFocus (windowOf (avatars w) k)) l)%list /\
    globalFocusListenerPermission w' = globalFocusListenerPermission w /\
    (forall k b, JsMap.get k (avatars w) = Some b ->
       JsMap.get k (avatars w') =
         Some (if mem k l then Avatar.set_suppressFocusEventOnce true b
               else b)) /\
    JsMap.keys (avatars w') = JsMap.keys (avatars w).
Proof.
  revert w. induction l as [|k r IH]; intros w Hreg.
  - exists w. simpl. rewrite app_nil_r. repeat split; auto.
  - destruct (In_keys_get k (avatars w)) as [a Ha]; [apply Hreg; now left|].
    set (w1 := emit (WinFocus (Avatar.window a))
                 (set_avatars
                    (JsMap.set k (Avatar.set_suppressFocusEventOnce true a)) w)).
    assert (JsMap.keys (avatars w1) = JsMap.keys (avatars w)) as Hk1.
    { subst w1. simpl. apply keys_set_present. eapply get_Some_keys; eauto. }
    destruct (IH w1) as (w' & Hrun & Ht & Hg & Hfl & Hk).
    { intros k' Hk'. rewrite Hk1. apply Hreg. now right. }
    exists w'. simpl forEach.
    rewrite (bind_returned _ _ _ _ _ (suppressAndFocus_registered _ _ _ Ha)).
    split; [exact Hrun|]. split.
    { rewrite Ht. subst w1. simpl. rewrite <- app_assoc. simpl.
      unfold windowOf at 2. rewrite Ha. do 2 f_equal.
      apply map_ext. intros k'. f_equal. now apply windowOf_set_flag. }
    split; [rewrite Hg; reflexivity|]. split; [|congruence].
    intros k0 b Hb. unfold mem. simpl. fold (mem k0 r).
    destruct (String.eqb_spec k0 k) as [->|Hne].
    + rewrite Ha in Hb. injection Hb as <-. simpl.
      rewrite (Hfl k (Avatar.set_suppressFocusEventOnce true a))
        by (subst w1; simpl; apply get_set_eq).
      destruct (mem k r); reflexivity.
    + simpl. apply Hfl. subst w1. simpl. now rewrite get_set_ne.
Qed.

Lemma focus_suppressed b w :
  Avatar.suppressFocusEventOnce b = true ->
  trace (snd (_focusListener b w)) = trace w /\
  Avatar.suppressFocusEventOnce (fst (_focusListener b w)) = false.
Proof.
  destruct b as [p h sf sb rc rd]. simpl. intros ->.
  unfold _focusListener. destruct rc; simpl; auto.
Qed.

(** Focus events delivered once each to avatars whose flag is armed send
    nothing. *)
Lemma focus_events_silent (l : list string) w :
  NoDup l ->
  (forall k, In k l ->
     exists b, JsMap.get k (avatars w) = Some b /\
               Avatar.suppressFocusEventOnce b = true) ->
  trace (deliverAll (map FocusEvent l) w) = trace w.
Proof.
  revert w. induction l as [|k r IH]; intros w Hnd Harm; [reflexivity|].
  apply NoDup_cons in Hnd as [Hk Hnd].
  destruct (Harm k) as (b & Hb & Hs); [now left|].
  unfold deliverAll. simpl. fold (deliverAll (map FocusEvent r) (emitFocus k w)).
  rewrite (emitFocus_registered k b w Hb).
  destruct (focus_suppressed b w Hs) as [Ht _].
  rewrite IH; [exact Ht|exact Hnd|].
  intros k' Hk'. destruct (Harm k') as (b' & Hb' & Hs'); [now right|].
  exists b'. split; [|exact Hs']. simpl. rewrite get_set_ne.
  - unfold _focusListener.
    destruct (Avatar.recaptureGlobalFocusEventAfterLocalFocusEvent b);
      cbn [fst snd];
      repeat match goal with
      | |- context [if ?c then _ else _] => destruct c
      end; exact Hb'.
  - intros ->. apply Hk. now apply list_elem_of_In.
Qed.

Lemma removeFirst_perm u (l : list string) :
  In u l -> Permutation (u :: removeFirst u l) l.
Proof.
  induction l as [|v r IH]; [easy|]. simpl.
  destruct (String.eqb_spec v u) as [->|Hne]; [reflexivity|].
  intros [->|Hin]; [congruence|].
  rewrite perm_swap. constructor. now apply IH.
Qed.

Lemma removeFirst_sorted (R : string -> string -> Prop) u l :
  StronglySorted R l -> StronglySorted R (removeFirst u l).
Proof.
  induction 1 as [|v r Hs IH Hall]; simpl; [constructor|].
  destruct (String.eqb v u); [exact Hs|]. constructor; [exact IH|].
  apply List.Forall_forall. intros x Hx.
  apply (proj1 (List.Forall_forall _ _) Hall). eapply removeFirst_In; eauto.
Qed.

Lemma spliceOut_registered url a w :
  JsMap.get url (avatars w) = Some a ->
  let rest := spliceOut url (backToFrontOf (avatars w)) in
  Permutation (url :: rest) (JsMap.keys (avatars w)) /\
  StronglySorted
    (fun x y => (zOf (avatars w) x <= zOf (avatars w) y)%Z) rest.
Proof.
  intros Ha rest. subst rest.
  assert (In url (backToFrontOf (avatars w))) as Hin.
  { apply sort_In. eapply get_Some_keys; eauto. }
  unfold spliceOut. rewrite (proj2 (mem_In _ _) Hin). split.
  - rewrite removeFirst_perm by exact Hin. apply sort_perm.
  - apply removeFirst_sorted. apply sort_sorted.
Qed.

Lemma armed_after_rearrange (order : list string) w w' :
  Permutation order (JsMap.keys (avatars w)) ->
  (forall k b, JsMap.get k (avatars w) = Some b ->
     JsMap.get k (avatars w') =
       Some (if mem k order then Avatar.set_suppressFocusEventOnce true b
             else b)) ->
  (forall k b, JsMap.get k (avatars w) = Some b ->
     JsMap.get k (avatars w') =
       Some (Avatar.set_suppressFocusEventOnce true b)) /\
  (forall k, In k order ->
     exists b, JsMap.get k (avatars w') = Some b /\
               Avatar.suppressFocusEventOnce b = true).
Proof.
  intros Hperm Hfl.
  assert (forall k b, JsMap.get k (avatars w) = Some b -> mem k order = true)
    as Hmem.
  { intros k b Hb. apply mem_In. apply (Permutation_in _ (symmetry Hperm)).
    eapply get_Some_keys; eauto. }
  split.
  - intros k b Hb. rewrite (Hfl k b Hb), (Hmem k b Hb). reflexivity.
  - intros k Hk. apply (Permutation_in _ Hperm) in Hk.
    destruct (In_keys_get _ _ Hk) as [b Hb].
    exists (Avatar.set_suppressFocusEventOnce true b).
    rewrite (Hfl k b Hb), (Hmem k b Hb). split; reflexivity.
Qed.

(** X6. [send-to-back] on a registered url focuses every registered
    window exactly once: the window of the url first, then the others in
    ascending order of z. It arms [suppressFocusEventOnce] on every
    avatar, so that the focus events these calls cause, delivered in the
    same order, send nothing to any renderer. *)
Theorem sendToBack_focus_order url a w :
  JsMap.get url (avatars w) = Some a ->
  NoDup (JsMap.keys (avatars w)) ->
  let rest := spliceOut url (backToFrontOf (avatars w)) in
  exists z w',
    sendToBack url w = (Returned (Some z), w') /\
    trace w' =
      (trace w ++
       map (fun k => WinFocus (windowOf (avatars w) k)) (url :: rest))%list /\
    Permutation (url :: rest) (JsMap.keys (avatars w)) /\
    StronglySorted
      (fun x y => (zOf (avatars w) x <= zOf (avatars w) y)%Z) rest /\
    (forall k b, JsMap.get k (avatars w) = Some b ->
       JsMap.get k (avatars w') =
         Some (Avatar.set_suppressFocusEventOnce true b)) /\
    trace (deliverAll (map FocusEvent (url :: rest)) w') = trace w'.
Proof.
  intros Ha Hnd rest.
  destruct (spliceOut_registered url a w Ha) as [Hperm Hsorted].
  fold rest in Hperm, Hsorted.
  assert (In url (backToFrontOf (avatars w))) as Hin.
  { apply sort_In. eapply get_Some_keys; eauto. }
  destruct (head_nonempty _ _ Hin) as [kh Hh].
  destruct (In_keys_get kh (avatars w)) as [ah Hah].
  { apply (sort_In (avatars w)). now apply head_In. }
  destruct (rearrange_run (url :: rest) w) as (w' & Hrun & Ht & _ & Hfl & _).
  { intros k Hk. now apply (Permutation_in _ Hperm). }
  destruct (armed_after_rearrange _ w w' Hperm Hfl) as [Hall Harm].
  exists (Geometry.z (AvatarProp.geometry (Avatar.prop ah)) - 1)%Z, w'.
  split.
  { unfold sendToBack. js_run. rewrite Ha. cbv beta iota.
    rewrite Hh, (bind_returned _ _ _ _ _ (zOfKey_registered _ _ _ Hah)).
    fold rest. now rewrite (bind_returned _ _ _ _ _ Hrun). }
  split; [exact Ht|]. split; [exact Hperm|]. split; [exact Hsorted|].
  split; [exact Hall|].
  apply focus_events_silent; [|exact Harm].
  rewrite Hperm. exact Hnd.
Qed.

(** X7. [bring-to-front] without [rearrange] changes nothing. With
    [rearrange] it focuses every registered window exactly once, the
    others in ascending order of z and the window of the url last, and
    arms [suppressFocusEventOnce] on every avatar, so that the focus
    events that follow send nothing to any renderer. *)
Theorem bringToFront_focus_order url a w :
  JsMap.get url (avatars w) = Some a ->
  NoDup (JsMap.keys (avatars w)) ->
  let rest := spliceOut url (backToFrontOf (avatars w)) in
  (exists z, bringToFront url false w = (Returned (Some z), w)) /\
  exists z w',
    bringToFront url true w = (Returned (Some z), w') /\
    trace w' =
      (trace w ++
       map (fun k => WinFocus (windowOf (avatars w) k)) (rest ++ [url]))%list /\
    Permutation (rest ++ [url]) (JsMap.keys (avatars w)) /\
    StronglySorted
      (fun x y => (zOf (avatars w) x <= zOf (avatars w) y)%Z) rest /\
    (forall k b, JsMap.get k (avatars w) = Some b ->
       JsMap.get k (avatars w') =
         Some (Avatar.set_suppressFocusEventOnce true b)) /\
    trace (deliverAll (map FocusEvent (rest ++ [url])) w') = trace w'.
Proof.
  intros Ha Hnd rest.
  destruct (spliceOut_registered url a w Ha) as [Hperm Hsorted].
  fold rest in Hperm, Hsorted.
  assert (Permutation (rest ++ [url]) (JsMap.keys (avatars w))) as Hperm'.
  { rewrite <- Hperm. symmetry. apply Permutation_cons_append. }
  assert (In url (backToFrontOf (avatars w))) as Hin.
  { apply sort_In. eapply get_Some_keys; eauto. }
  destruct (last_nonempty _ _ Hin) as [kl Hl].
  destruct (In_keys_get kl (avatars w)) as [al Hal].
  { apply (sort_In (avatars w)). now apply last_In. }
  split.
  { eexists. unfold bringToFront. js_run. rewrite Ha. cbv beta iota.
    rewrite Hl, (bind_returned _ _ _ _ _ (zOfKey_registered _ _ _ Hal)).
    js_run. reflexivity. }
  destruct (rearrange_run (rest ++ [url]) w) as (w' & Hrun & Ht & _ & Hfl & _).
  { intros k Hk. now apply (Permutation_in _ Hperm'). }
  destruct (armed_after_rearrange _ w w' Hperm' Hfl) as [Hall Harm].
  exists (Geometry.z (AvatarProp.geometry (Avatar.prop al)) + 1)%Z, w'.
  split.
  { unfold bringToFront. js_run. rewrite Ha. cbv beta iota.
    rewrite Hl, (bind_returned _ _ _ _ _ (zOfKey_registered _ _ _ Hal)).
    fold rest. now rewrite (bind_returned _ _ _ _ _ Hrun). }
  split; [exact Ht|]. split; [exact Hperm'|]. split; [exact Hsorted|].
  split; [exact Hall|].
  apply focus_events_silent; [|exact Harm].
  rewrite Hperm'. exact Hnd.
Qed.

End Rearrange.

(** * Closed windows *)
Section ClosedWindow.
Context {P : Payload} {M : CardPropModule}.
Implicit Types (w : World) (url u : string) (a : Avatar.t).

(** X8. When the window of a registered avatar is closed, the [closed]
    handler unregisters that avatar and nothing else: the other avatars,
    the cards, the workspace and the recorded placements stay, and no
    request is sent. From then on every handler of main.ts that takes the
    url of a card finds no avatar and changes nothing. *)
Theorem closed_window_is_forgotten url a w :
  JsMap.get url (avatars w) = Some a ->
  AvatarProp.url (Avatar.prop a) = url ->
  let w' := deliver (ClosedEvent url) w in
  (JsMap.get url (avatars w') = None /\
   (forall u, u <> url -> JsMap.get u (avatars w') = JsMap.get u (avatars w)) /\
   cards w' = cards w /\ store w' = store w /\
   workspaces w' = workspaces w /\ placements w' = placements w /\
   trace w' = trace w) /\
  (finishRenderCard url w' = (Returned tt, w') /\
   blur url w' = (Returned tt, w') /\
   focus url w' = (Returned tt, w') /\
   blurAndFocusWithSuppressEvents url w' = (Returned tt, w') /\
   blurAndFocusWithSuppressFocusEvent url w' = (Returned tt, w') /\
   (forall rearrange, bringToFront url rearrange w' = (Returned None, w')) /\
   sendToBack url w' = (Returned None, w') /\
   deliver (FocusEvent url) w' = w' /\
   deliver (BlurEvent url) w' = w').
Proof.
  intros Ha Hu w'. subst w'. simpl. unfold emitClosed. rewrite Ha.
  unfold closedListener, modify. simpl. rewrite Hu.
  assert (JsMap.get url (JsMap.delete url (avatars w)) = None) as Hnone
    by apply get_delete_eq.
  split.
  - split; [exact Hnone|]. split; [|repeat split].
    intros u Hne. now apply get_delete_ne.
  - unfold finishRenderCard, blur, focus, blurAndFocusWithSuppressEvents,
      blurAndFocusWithSuppressFocusEvent, bringToFront, sendToBack,
      emitFocus, emitBlur.
    js_run. simpl. rewrite Hnone. repeat split.
    intros rearrange. js_run. simpl. now rewrite Hnone.
Qed.

End ClosedWindow.

(** * [createCard] without a window or without a workspace *)
Section CreateCardEdges.
Context {P : Payload} {M : CardPropModule}.
Implicit Types (w : World) (url id loc : string).

Lemma render_workspaces this : preserves workspaces (render this).
Proof. preserves_tac. Qed.

Lemma render_placements this : preserves placements (render this).
Proof. preserves_tac. Qed.

(** Locations that do not match the url of the workspace are passed over. *)
Lemma createAvatars_skip workspaceUrl id (l1 l2 : list string) :
  (forall loc, In loc l1 -> stringMatch loc workspaceUrl = false) ->
  createAvatars workspaceUrl id (l1 ++ l2) = createAvatars workspaceUrl id l2.
Proof.
  induction l1 as [|loc r IH]; intros Hno; [reflexivity|]. simpl.
  rewrite (Hno loc) by now left. apply IH. intros l Hl. apply Hno. now right.
Qed.

(** X9. A card none of whose locations matches the url of the current
    workspace is registered by [createCard] and handed to the persistence
    layer (a failure there is only reported), and that is all: no window
    is created, no avatar is registered and neither the workspace nor
    the list of placements changes. *)
Theorem createCard_elsewhere propObject prop0 card prop w w1 :
  CardProp_fromObject propObject = inr prop0 ->
  Card_new New (ArgCardProp prop0) w = (Returned card, w1) ->
  Card.prop card = Some prop ->
  (forall loc, In loc (JsMap.keys (CardProp.avatars prop)) ->
     stringMatch loc (currentWorkspaceUrl w) = false) ->
  exists w',
    createCard propObject w = (Returned (CardProp.id prop), w') /\
    cards w' = <[CardProp.id prop := card]> (cards w) /\
    avatars w' = avatars w /\ nextWindow w' = nextWindow w /\
    workspaces w' = workspaces w /\ placements w' = placements w /\
    trace w' =
      (trace w ++ IoUpdateOrCreateCardData (CardProp.id prop) ::
         if faultAt 0 w then [ConsoleError "I/O failure"] else [])%list /\
    store w' =
      if faultAt 0 w then store w
      else <[CardProp.id prop := prop]> (store w).
Proof.
  intros Hobj Hnew Hprop Hno.
  assert (w1 = w \/ w1 = set_entropy (@tl (list N)) w) as Hw1.
  { rewrite Card_new_CardProp in Hnew.
    destruct (String.eqb (CardProp.id prop0) ""); injection Hnew as _ <-; auto. }
  assert (currentWorkspaceUrl w1 = currentWorkspaceUrl w) as Hurl
    by (destruct Hw1 as [-> | ->]; reflexivity).
  rewrite (createCard_run _ _ _ _ _ _ Hobj Hnew Hprop), Hurl.
  rewrite <- (app_nil_r (JsMap.keys (CardProp.avatars prop))).
  rewrite (createAvatars_skip _ _ _ [] Hno). simpl createAvatars. js_run.
  erewrite (bind_returned (tryCatch _ _))
    by (apply tryCatch_returned; reflexivity).
  rewrite (bind_returned _ _ _ _ _ (saveCard_run _ _)). unfold ret.
  eexists. split; [reflexivity|].
  change (faultAt 0 (set_cards _ w1)) with (faultAt 0 w1).
  assert (faultAt 0 w1 = faultAt 0 w) as ->
    by (destruct Hw1 as [-> | ->]; reflexivity).
  destruct Hw1 as [-> | ->]; destruct (faultAt 0 w); simpl;
    repeat split; try reflexivity; rewrite <- app_assoc; reflexivity.
Qed.

(** X10. When there is no current workspace, [createCard] on a card with
    a location that matches the url of the workspace throws a TypeError
    at the first such location. By then the card is registered and an
    avatar with a window exists for that location, but the card has not
    been handed to the persistence layer and no placement is recorded. *)
Theorem createCard_without_workspace
    propObject prop0 card prop (l1 l2 : list string) loc w w1 :
  CardProp_fromObject propObject = inr prop0 ->
  Card_new New (ArgCardProp prop0) w = (Returned card, w1) ->
  Card.prop card = Some prop ->
  cardsLoaded w ->
  getCurrentWorkspace w = None ->
  JsMap.keys (CardProp.avatars prop) = (l1 ++ loc :: l2)%list ->
  (forall l, In l l1 -> stringMatch l (currentWorkspaceUrl w) = false) ->
  stringMatch loc (currentWorkspaceUrl w) = true ->
  exists w',
    createCard propObject w =
      (Thrown (TypeError "Cannot read properties of undefined"), w') /\
    cards w' = <[CardProp.id prop := card]> (cards w) /\
    In (loc +:+ CardProp.id prop) (JsMap.keys (avatars w')) /\
    nextWindow w' = S (nextWindow w) /\
    store w' = store w /\ placements w' = placements w /\
    workspaces w' = workspaces w.
Proof.
  intros Hobj Hnew Hprop Hl Hws Hkeys Hno Hyes.
  assert (w1 = w \/ w1 = set_entropy (@tl (list N)) w) as Hw1.
  { rewrite Card_new_CardProp in Hnew.
    destruct (String.eqb (CardProp.id prop0) ""); injection Hnew as _ <-; auto. }
  assert (currentWorkspaceUrl w1 = currentWorkspaceUrl w) as Hurl
    by (destruct Hw1 as [-> | ->]; reflexivity).
  rewrite (createCard_run _ _ _ _ _ _ Hobj Hnew Hprop), Hurl, Hkeys.
  rewrite (createAvatars_skip _ _ _ _ Hno). simpl createAvatars. rewrite Hyes.
  set (w0 := set_cards <[CardProp.id prop := card]> w1).
  set (url := loc +:+ CardProp.id prop).
  assert (cardsLoaded w0) as Hl0.
  { intros k c. subst w0. simpl.
    replace (cards w1) with (cards w) by (destruct Hw1 as [-> | ->]; reflexivity).
    intros Hk. apply lookup_insert_Some in Hk as [[_ <-]|[_ Hk]]; [eauto|].
    exact (Hl k c Hk). }
  destruct (getCardData_loaded url w0 Hl0) as [d Hd].
  destruct (getAvatarProp_loaded url w0 Hl0) as [f Hf].
  js_run. unfold createAvatar at 1.
  rewrite bind_assoc, (bind_returned _ _ _ _ _ Hd).
  rewrite bind_assoc, (bind_returned _ _ _ _ _ Hf).
  unfold Avatar_new, newBrowserWindow. js_run.
  set (avatar := Avatar.mk (AvatarProp_new url d f) (nextWindow w0)
                   false false false false).
  set (wa := set_avatars (JsMap.set url avatar)
               (emit (WinCreate (nextWindow w0)
                        (AvatarProp.url (AvatarProp_new url d f)))
                  (set_nextWindow S w0))).
  rewrite (bind_returned _ _ _ _ _ (spawn_run _ _)).
  pose proof (render_setting avatar wa) as (Hc & Hs & Hid & _).
  pose proof (render_workspaces avatar wa) as Hwss.
  pose proof (render_placements avatar wa) as Hpl.
  pose proof (render_shape avatar wa) as Hsh.
  assert (nextWindow (snd (render avatar wa)) = nextWindow wa) as Hnw
    by (apply (ltac:(preserves_tac) : preserves nextWindow (render avatar))).
  simpl in Hwss, Hpl, Hsh.
  set (wr := snd (render avatar wa)) in *.
  assert (getCurrentWorkspace wr = None) as Hwsr.
  { unfold getCurrentWorkspace. rewrite Hwss, Hid. subst wa w0. simpl.
    destruct Hw1 as [-> | ->]; exact Hws. }
  unfold pushWorkspaceAvatar. js_run. rewrite Hwsr. unfold throw at 1.
  js_run. unfold bind, throw. simpl.
  exists wr. split; [reflexivity|].
  split; [rewrite Hc; subst wa w0; simpl;
          destruct Hw1 as [-> | ->]; reflexivity|].
  split.
  { rewrite (shape_keys _ _ Hsh). subst wa. simpl.
    eapply get_Some_keys. apply get_set_eq. }
  split; [rewrite Hnw; subst wa w0; simpl;
          destruct Hw1 as [-> | ->]; reflexivity|].
  split; [rewrite Hs; subst wa w0; simpl;
          destruct Hw1 as [-> | ->]; reflexivity|].
  split; [rewrite Hpl; subst wa w0; simpl;
          destruct Hw1 as [-> | ->]; reflexivity|].
  rewrite Hwss. subst wa w0. simpl. destruct Hw1 as [-> | ->]; reflexivity.
Qed.

End CreateCardEdges.

(** * Start-up with cards that cannot be read *)
Section ReadyEdges.
Context {P : Payload} {M : CardPropModule}.
Hypothesis AvatarProp_new_url :
  forall u d f, AvatarProp.url (AvatarProp_new u d f) = u.

(** X11. A recorded url whose card is not in the store still gets a
    window at start-up: the [ready] handler reports the failed read,
    registers no card for it and opens an avatar built from no data at
    all, whose window is raised with the others. *)
Theorem ready_opens_unreadable_card w u :
  cards w = ∅ -> avatars w = [] -> trace w = [] ->
  (forall v, renderer w v <> NeverAcknowledged) ->
  In u (recordedUrls w) ->
  (forall id p, store w !! id = Some p -> CardProp.id p <> getIdFromUrl u) ->
  exists w' a,
    onReady w = (Returned tt, w') /\
    cards w' !! getIdFromUrl u = None /\
    JsMap.get u (avatars w') = Some a /\
    Avatar.prop a = AvatarProp_new u None None /\
    In (Avatar.window a) (raisedWindows (trace w')).
Proof.
  intros Hc Hav Ht Hr Hin Hstore.
  destruct (getRecordedAvatarUrls_run w)
    as (wA & HrunA & HcA & HavA & HsA & _ & _ & HrA & _ & _ & HqA).
  destruct HqA as (tA & HtA & HquA). rewrite Ht in HtA. simpl in HtA.
  unfold onReady. rewrite (bind_returned _ _ _ _ _ HrunA).
  destruct (recordedUrls w) as [|u0 rest] eqn:Hurls; [destruct Hin|].
  cbv iota. set (urls := u0 :: rest) in *.
  destruct (loadCards_run urls wA)
    as (wB & tB & HrunB & HtB & HquB & HavB & HrB & HsB & Hprov & HcB
        & Hbehind).
  set (ids := unique (map getIdFromUrl urls)) in *.
  set (os := readsFrom wA 0 ids) in *.
  erewrite bind_returned;
    [|rewrite (bind_returned _ _ _ _ _ HrunB); reflexivity].
  cbn [fst snd].
  destruct (startup_log tA tB [] ids [] HquA HquB ltac:(reflexivity))
    as (_ & _ & Hnd).
  assert (cardsLoaded wB) as HlB.
  { intros k c Hk. destruct (Hprov k c Hk) as [Hk0|(id & p & _ & _ & _ & ->)].
    - rewrite HcA, Hc, lookup_empty in Hk0. discriminate.
    - simpl. eauto. }
  assert (avatars wB = []) as HavB' by congruence.
  assert (forall v, renderer wB v <> NeverAcknowledged) as HrB'
    by (intros v; rewrite HrB, HrA; apply Hr).
  assert (forallb (fun e => negb (isAnyWinDestroy e)) (trace wB) = true)
    as HndB by (rewrite HtB, HtA; exact Hnd).
  destruct (restoreWindows_run AvatarProp_new_url urls (afterRejection os) wB
              HlB HavB' HrB' HndB Hbehind)
    as (w' & t & Hrun & Htr & Hqt & Hc' & _ & _ & Hall & Hopen).
  destruct (Hopen u Hin) as [a Ha].
  assert (cards wB !! getIdFromUrl u = None) as HnoneB.
  { destruct (cards wB !! getIdFromUrl u) as [c|] eqn:Hk; [|reflexivity].
    destruct (Hprov _ c Hk) as [Hk0|(id & p & _ & Hp & Hkp & _)].
    - rewrite HcA, Hc, lookup_empty in Hk0. discriminate.
    - rewrite HsA in Hp. destruct (Hstore id p Hp). now symmetry. }
  assert (cards w' !! getIdFromUrl u = None) as Hnone.
  { rewrite Hc', HcB, registerLoaded_split, HcA, Hc.
    destruct (fold_left registerLoaded os ∅ !! getIdFromUrl u) as [c|] eqn:Hk;
      [|reflexivity].
    destruct (loaders_provenance _ _ _ _ _ _ Hk)
      as [Hk0|(id & p & _ & Hp & Hkp & _)].
    - rewrite lookup_empty in Hk0. discriminate.
    - rewrite HsA in Hp. destruct (Hstore id p Hp). now symmetry. }
  exists w', a. split; [exact Hrun|]. split; [exact Hnone|].
  split; [exact Ha|]. split.
  - destruct (Hall u a Ha) as (_ & d & f & Hd & Hf & Hp).
    rewrite getCardData_at, HnoneB in Hd.
    rewrite getAvatarProp_at, HnoneB in Hf.
    injection Hd as <-. injection Hf as <-. exact Hp.
  - destruct (startup_log tA tB t ids
                (map (windowOf (avatars w')) (backToFrontOf (avatars w')))
                HquA HquB Hqt) as (Hraised & _ & _).
    rewrite Htr, HtB, HtA, Hraised.
    apply in_map_iff. exists u. split.
    + unfold windowOf. now rewrite Ha.
    + apply sort_In. eapply get_Some_keys; eauto.
Qed.

End ReadyEdges.

(** * Start-up with a renderer that never acknowledges *)
Section ReadyStalls.
Context {P : Payload} {M : CardPropModule}.
Hypothesis AvatarProp_new_url :
  forall u d f, AvatarProp.url (AvatarProp_new u d f) = u.

(** The avatars opened at start-up have not been rendered yet. *)
Lemma openAvatars_fresh (urls : list string) w :
  cardsLoaded w ->
  (forall k a, In (k, a) (avatars w) -> Avatar.renderingCompleted a = false) ->
  forall k a, In (k, a) (avatars (snd (forEach urls openAvatar w))) ->
              Avatar.renderingCompleted a = false.
Proof.
  revert w. induction urls as [|u r IH]; intros w Hl Hfr; [exact Hfr|].
  destruct (openAvatar_run AvatarProp_new_url u w Hl) as (d & f & _ & _ & Hrun).
  simpl forEach. rewrite (bind_returned _ _ _ _ _ Hrun).
  apply IH.
  - intros k c. apply Hl.
  - intros k a Hin. simpl in Hin. apply In_set in Hin as [[= -> ->]|Hin].
    + reflexivity.
    + now apply (Hfr k).
Qed.

(** The renders of avatars that are registered and not yet rendered, when
    no page fails to load: none of the promises is rejected, and one of
    them stays pending if a renderer never acknowledges. *)
Lemma renderAll_stalls (vs : list Avatar.t) w :
  NoDup (map (fun a => AvatarProp.url (Avatar.prop a)) vs) ->
  (forall a, In a vs ->
     exists a',
       JsMap.get (AvatarProp.url (Avatar.prop a)) (avatars w) = Some a' /\
       Avatar.window a' = Avatar.window a /\
       Avatar.renderingCompleted a' = false) ->
  (forall u description, renderer w u <> LoadFailed description) ->
  exists os w',
    mapJs (fun avatar => spawn (render avatar)) vs w = (Returned os, w') /\
    firstThrown os = None /\
    ((exists a, In a vs /\
        renderer w (AvatarProp.url (Avatar.prop a)) = NeverAcknowledged) ->
     existsb isPending os = true).
Proof.
  revert w. induction vs as [|a r IH]; intros w Hnd Hreg Hr.
  - exists [], w. split; [reflexivity|]. split; [reflexivity|].
    intros (a & [] & _).
  - simpl map in Hnd. apply NoDup_cons in Hnd as [Ha Hnd].
    destruct (Hreg a (or_introl eq_refl)) as (a' & Hg & Hw & Hfl).
    pose proof (render_run a a' w Hg Hw Hfl) as Hrun. cbv zeta in Hrun.
    destruct (render_setting a w) as (_ & _ & _ & _ & Hrn & _).
    simpl mapJs. rewrite (bind_returned _ _ _ _ _ (spawn_run _ _)).
    destruct (IH (snd (render a w))) as (os & w' & Hrest & Hth & Hpe).
    { exact Hnd. }
    { intros b Hb. destruct (Hreg b (or_intror Hb)) as (b' & Hgb & Hwb & Hfb).
      exists b'. split; [|split; assumption].
      assert (AvatarProp.url (Avatar.prop b) <> AvatarProp.url (Avatar.prop a))
        as Hne.
      { intros He. apply Ha. rewrite <- He. apply list_elem_of_In.
        now apply (in_map (fun a => AvatarProp.url (Avatar.prop a))). }
      rewrite Hrun.
      destruct (renderer w (AvatarProp.url (Avatar.prop a))); simpl;
        rewrite ?get_set_ne by congruence; exact Hgb. }
    { intros u description. rewrite Hrn. apply Hr. }
    rewrite (bind_returned _ _ _ _ _ Hrest).
    exists (fst (render a w) :: os), w'. split; [reflexivity|].
    rewrite Hrun.
    destruct (renderer w (AvatarProp.url (Avatar.prop a))) as [|description|]
      eqn:Hans; simpl.
    + split; [exact Hth|]. intros (b & [<-|Hb] & Hnever); [congruence|].
      apply Hpe. exists b. split; [exact Hb|]. now rewrite Hrn.
    + destruct (Hr _ _ Hans).
    + split; [exact Hth|]. reflexivity.
Qed.

Lemma renderAvatars_stalls w u a :
  wellKeyed (avatars w) ->
  (forall k b, In (k, b) (avatars w) -> Avatar.renderingCompleted b = false) ->
  (forall v description, renderer w v <> LoadFailed description) ->
  JsMap.get u (avatars w) = Some a ->
  renderer w u = NeverAcknowledged ->
  fst (renderAvatars w) = Pending.
Proof.
  intros [Hn Hk] Hfr Hr Ha Hnever. unfold renderAvatars. js_run.
  destruct (renderAll_stalls (JsMap.values (avatars w)) w)
    as (os & w1 & Hrun & Hth & Hpe).
  - replace (map (fun a0 => AvatarProp.url (Avatar.prop a0))
               (JsMap.values (avatars w))) with (JsMap.keys (avatars w));
      [exact Hn|].
    unfold JsMap.values, JsMap.keys. rewrite map_map.
    apply map_ext_in. intros [k b] Hin. simpl. symmetry. now apply Hk.
  - intros b Hb. unfold JsMap.values in Hb. apply in_map_iff in Hb.
    destruct Hb as ([k b0] & <- & Hin). simpl. exists b0.
    rewrite (Hk _ _ Hin). split; [now apply get_In_NoDup|].
    split; [reflexivity|]. now apply (Hfr k).
  - exact Hr.
  - rewrite (bind_returned _ _ _ _ _ Hrun).
    unfold tryCatch, await, promiseAll. rewrite Hth, Hpe; [reflexivity|].
    exists a. split.
    + unfold JsMap.values. apply in_map_iff. exists (u, a).
      split; [reflexivity|]. now apply get_Some_In.
    + rewrite (Hk u a) by now apply get_Some_In. exact Hnever.
Qed.

(** X12. If no page fails to load and the renderer of one recorded url
    never acknowledges its render, the [ready] handler stays pending for
    ever at the wait for the renders: it never raises a window. *)
Theorem ready_stalls_without_acknowledgement w u :
  cards w = ∅ -> avatars w = [] -> trace w = [] ->
  In u (recordedUrls w) ->
  renderer w u = NeverAcknowledged ->
  (forall v description, renderer w v <> LoadFailed description) ->
  exists w', onReady w = (Pending, w') /\ raisedWindows (trace w') = [].
Proof.
  intros Hc Hav Ht Hin Hnever Hr.
  destruct (getRecordedAvatarUrls_run w)
    as (wA & HrunA & HcA & HavA & HsA & _ & _ & HrA & _ & _ & HqA).
  destruct HqA as (tA & HtA & HquA). rewrite Ht in HtA. simpl in HtA.
  unfold onReady. rewrite (bind_returned _ _ _ _ _ HrunA).
  destruct (recordedUrls w) as [|u0 rest] eqn:Hurls; [destruct Hin|].
  cbv iota. set (urls := u0 :: rest) in *.
  destruct (loadCards_run urls wA)
    as (wB & tB & HrunB & HtB & HquB & HavB & HrB & HsB & Hprov & _
        & Hbehind).
  set (ids := unique (map getIdFromUrl urls)) in *.
  set (os := readsFrom wA 0 ids) in *.
  erewrite bind_returned;
    [|rewrite (bind_returned _ _ _ _ _ HrunB); reflexivity].
  cbn [fst snd].
  assert (cardsLoaded wB) as HlB.
  { intros k c Hk. destruct (Hprov k c Hk) as [Hk0|(id & p & _ & _ & _ & ->)].
    - rewrite HcA, Hc, lookup_empty in Hk0. discriminate.
    - simpl. eauto. }
  assert (avatars wB = []) as HavB' by congruence.
  destruct (openAvatars_run AvatarProp_new_url urls wB HlB)
    as (wC0 & HrunC & HkC & _ & _ & HallC & _ & HsetC & HqC).
  { rewrite HavB'. apply wellKeyed_empty. }
  pose proof (openAvatars_fresh urls wB HlB) as Hfresh.
  rewrite HrunC, HavB' in Hfresh. simpl in Hfresh.
  destruct HsetC as (_ & _ & _ & _ & HrC & _).
  pose proof (resumeBehind_run (afterRejection os) wC0 Hbehind) as HrunR.
  set (wC := set_cards
               (fun cs => fold_left registerLoaded (afterRejection os) cs)
               wC0) in *.
  change (avatars wC0) with (avatars wC) in HkC, HallC, Hfresh.
  destruct HqC as (tC & HtC & HquC).
  change (trace wC0) with (trace wC) in HtC.
  destruct (HallC u Hin) as (a & _ & _ & Ha & _).
  rewrite (bind_returned _ _ _ _ _ HrunC), (bind_returned _ _ _ _ _ HrunR).
  pose proof (renderAvatars_stalls wC u a HkC) as Hstall.
  pose proof (renderAvatars_quiet wC) as HqD.
  destruct (renderAvatars wC) as [o wD] eqn:HrunD. simpl in Hstall, HqD.
  rewrite Hstall in HrunD.
  - exists wD. split; [exact (bind_pending _ _ _ _ HrunD)|].
    destruct HqD as (tD & HtD & HquD).
    destruct (startup_log tA tB (tC ++ tD) ids [] HquA HquB) as (Hraised & _).
    { intros f Hf. apply forallb_app_true; [now apply HquC|now apply HquD]. }
    rewrite HtD, HtC, HtB, HtA.
    change (map WinMoveTop []) with (@nil Event) in Hraised.
    rewrite app_nil_r in Hraised. rewrite <- app_assoc. exact Hraised.
  - intros k b Hkb. now apply (Hfresh ltac:(intros ? ? []) k).
  - intros v description. change (renderer wC) with (renderer wC0).
    rewrite HrC, HrB, HrA. apply Hr.
  - exact Ha.
  - change (renderer wC) with (renderer wC0).
    rewrite HrC, HrB, HrA. exact Hnever.
Qed.

End ReadyStalls.

(** * The renderer process: the query of [onload] *)
Section OnloadQuery.
Import Renderer.
Implicit Types (s id : string) (l arr : list string).

Lemma split_nonempty sep s : split sep s <> [].
Proof.
  destruct s as [|c r]; simpl; [discriminate|].
  destruct (Ascii.eqb c sep); [discriminate|].
  destruct (split sep r); discriminate.
Qed.

(** A string without the separator is one piece. *)
Lemma split_clean sep s :
  ~ In sep (list_ascii_of_string s) -> split sep s = [s].
Proof.
  induction s as [|c r IH]; simpl; [reflexivity|]. intros Hn.
  destruct (Ascii.eqb_spec c sep) as [->|Hne]; [tauto|].
  rewrite IH by tauto. reflexivity.
Qed.

(** The first separator ends the first piece. *)
Lemma split_at_first sep s1 s2 :
  ~ In sep (list_ascii_of_string s1) ->
  split sep (s1 +:+ String sep s2) = s1 :: split sep s2.
Proof.
  induction s1 as [|c r IH]; simpl; intros Hn.
  - now rewrite Ascii.eqb_refl.
  - destruct (Ascii.eqb_spec c sep) as [->|Hne]; [tauto|].
    change (String.app r (String sep s2)) with (r +:+ String sep s2).
    rewrite IH by tauto. reflexivity.
Qed.

Lemma get_params_other k arr (m : JsMap.t (option string)) :
  (forall s, In s arr -> List.hd EmptyString (split "=" s) <> k) ->
  JsMap.get k (fold_left setParam arr m) = JsMap.get k m.
Proof.
  revert m. induction arr as [|s r IH]; intros m Hno; [reflexivity|].
  simpl. rewrite IH by (intros s' Hs'; apply Hno; now right).
  unfold setParam. apply get_set_ne. apply Hno. now left.
Qed.

(** The property [k] of [params] is written by the last piece whose key
    is [k], if there is one. *)
Lemma get_params_last k arr (m : JsMap.t (option string)) :
  (JsMap.get k (fold_left setParam arr m) = JsMap.get k m /\
   forall s, In s arr -> List.hd EmptyString (split "=" s) <> k) \/
  exists l1 s l2,
    arr = (l1 ++ s :: l2)%list /\
    List.hd EmptyString (split "=" s) = k /\
    (forall s', In s' l2 -> List.hd EmptyString (split "=" s') <> k) /\
    JsMap.get k (fold_left setParam arr m) = Some (split "=" s !! 1%nat).
Proof.
  induction arr as [|s r IH] using rev_ind.
  - left. split; [reflexivity|]. intros s [].
  - rewrite fold_left_app. simpl.
    destruct (string_dec (List.hd EmptyString (split "=" s)) k) as [He|Hne].
    + right. exists r, s, []. split; [reflexivity|]. split; [exact He|].
      split; [intros s' []|]. unfold setParam. rewrite He. apply get_set_eq.
    + assert (JsMap.get k (setParam (fold_left setParam r m) s)
              = JsMap.get k (fold_left setParam r m)) as Hsame
        by (unfold setParam; now apply get_set_ne).
      rewrite Hsame.
      destruct IH as [[Hg Hno]|(l1 & s0 & l2 & -> & Hk & Hno & Hg)].
      * left. split; [exact Hg|]. intros s' Hs'.
        apply in_app_or in Hs' as [Hs'|[<-|[]]]; auto.
      * right. exists l1, s0, (l2 ++ [s])%list.
        split; [now rewrite <- app_assoc|]. split; [exact Hk|].
        split; [|exact Hg]. intros s' Hs'.
        apply in_app_or in Hs' as [Hs'|[<-|[]]]; auto.
Qed.

(** X13. [onload] sends ['finish-load'] for [id] exactly when, among the
    pieces of the query between ['&'], the last one whose text before
    the first ['='] is [id] has a non-empty text between its first and
    second ['=']; that text is the id sent. In every other case it shows
    the restart alert. *)
Theorem onload_finishes_iff search id :
  onload search = FinishLoad id <->
  id <> EmptyString /\
  exists l1 s l2 rest,
    split "&" (slice1 search) = (l1 ++ s :: l2)%list /\
    split "=" s = "id" :: id :: rest /\
    forall s', In s' l2 -> List.hd EmptyString (split "=" s') <> "id".
Proof.
  unfold onload, paramsOf. split.
  - destruct (get_params_last "id" (split "&" (slice1 search)) JsMap.empty)
      as [[Hg _]|(l1 & s & l2 & Harr & Hk & Hno & Hg)]; rewrite Hg.
    + simpl. discriminate.
    + simpl. destruct (split "=" s) as [|k [|v rest]] eqn:Hs; simpl;
        try discriminate.
      destruct (String.eqb_spec v "") as [->|Hne]; [discriminate|].
      intros [= <-]. split; [exact Hne|].
      exists l1, s, l2, rest. simpl in Hk. subst k. auto.
  - intros (Hne & l1 & s & l2 & rest & Harr & Hs & Hno).
    destruct (get_params_last "id" (split "&" (slice1 search)) JsMap.empty)
      as [[_ Hall]|(l1' & s' & l2' & Harr' & Hk & Hno' & Hg)].
    + exfalso. apply (Hall s).
      * rewrite Harr. apply in_or_app. right. now left.
      * now rewrite Hs.
    + rewrite Hg. assert (s' = s /\ l2' = l2) as [-> ->].
      { rewrite Harr in Harr'. clear -Harr' Hno Hno' Hk Hs.
        assert (List.hd EmptyString (split "=" s) = "id") as Hk0
          by now rewrite Hs.
        revert l1' Harr'. induction l1 as [|a r IH]; intros [|a' r'] Heq;
          simpl in Heq; injection Heq as Ha Hr.
        - subst. auto.
        - subst. exfalso. apply (Hno s'); [|exact Hk].
          apply in_or_app. right. now left.
        - subst. exfalso. apply (Hno' s); [|exact Hk0].
          apply in_or_app. right. now left.
        - now apply (IH r'). }
      rewrite Hs. simpl.
      destruct (String.eqb_spec id "") as [->|_]; [now destruct Hne|].
      reflexivity.
Qed.

Lemma In_ascii_app c s1 s2 :
  In c (list_ascii_of_string (s1 +:+ s2)) <->
  In c (list_ascii_of_string s1) \/ In c (list_ascii_of_string s2).
Proof.
  induction s1 as [|a r IH]; simpl; [tauto|].
  change (String.app r s2) with (r +:+ s2). rewrite IH. tauto.
Qed.

(** X14. A query that consists of [id=] and a non-empty value without
    ['&'] and ['='] gives that value back as the id. Text after a second
    ['='] is dropped: [id=a=b] is read as the id [a]. *)
Theorem onload_reads_up_to_second_equals id v :
  id <> EmptyString ->
  ~ In "&"%char (list_ascii_of_string id) ->
  ~ In "="%char (list_ascii_of_string id) ->
  ~ In "&"%char (list_ascii_of_string v) ->
  onload ("?id=" +:+ id) = FinishLoad id /\
  onload ("?id=" +:+ id +:+ "=" +:+ v) = FinishLoad id.
Proof.
  intros Hne Hamp Heq Hampv.
  assert (forall tail rest,
            ~ In "&"%char (list_ascii_of_string tail) ->
            split "=" (id +:+ tail) = id :: rest ->
            onload ("?id=" +:+ id +:+ tail) = FinishLoad id) as Hgen.
  { intros tail rest Htail Hsplit. unfold onload, paramsOf.
    change (slice1 ("?id=" +:+ id +:+ tail)) with ("id=" +:+ id +:+ tail).
    rewrite split_clean.
    - simpl fold_left. unfold setParam.
      change ("id=" +:+ id +:+ tail) with ("id" +:+ String "=" (id +:+ tail)).
      rewrite split_at_first by (simpl; intuition discriminate).
      rewrite Hsplit. simpl.
      destruct (String.eqb_spec id "") as [->|_]; [now destruct Hne|].
      reflexivity.
    - change ("id=" +:+ id +:+ tail) with ("id=" +:+ (id +:+ tail)).
      rewrite !In_ascii_app. simpl. intuition discriminate. }
  assert (id +:+ "" = id) as Hnil
    by (clear; induction id as [|c r IH]; [reflexivity|];
        change (String c r +:+ "") with (String c (r +:+ ""));
        now rewrite IH).
  split.
  - pose proof (Hgen "" []) as H1. rewrite Hnil in H1. apply H1.
    + simpl. tauto.
    + now apply split_clean.
  - apply (Hgen ("=" +:+ v) (split "=" v)).
    + rewrite In_ascii_app. simpl. intuition discriminate.
    + change ("=" +:+ v) with (String "=" v). now apply split_at_first.
Qed.

End OnloadQuery.

(** * The renderer process: the save queue *)
Section SaveQueue.
Import Renderer.
Implicit Types (s : State) (m : Z * HandEvent) (ms : list (Z * HandEvent)).

Local Abbreviation saves s := (List.filter isSaveData (calls s)).

Lemma handle_queues e s :
  execSaveCommandTimeout (handle e s) = Some (clock s + 1000)%Z /\
  clock (handle e s) = clock s /\
  saves (handle e s) = saves s.
Proof.
  destruct e; simpl; repeat split.
  rewrite List.filter_app. simpl. now rewrite app_nil_r.
Qed.

(** Time that passes before the timer is due changes nothing but the
    clock. *)
Lemma elapse_early dt s :
  (dt < 1000)%Z ->
  execSaveCommandTimeout s = None \/
  execSaveCommandTimeout s = Some (clock s + 1000)%Z ->
  calls (elapse dt s) = calls s /\ rect (elapse dt s) = rect s /\
  clock (elapse dt s) = (clock s + dt)%Z.
Proof.
  intros Hdt [Hn|Ha]; unfold elapse; rewrite ?Hn, ?Ha; [repeat split|].
  destruct (Z.leb_spec (clock s + 1000) (clock s + dt)); [lia|].
  repeat split.
Qed.

(** Once the timer is due it runs: one call of [saveData], with the
    rectangle of that moment. *)
Lemma elapse_due dt s :
  (1000 <= dt)%Z ->
  execSaveCommandTimeout s = Some (clock s + 1000)%Z ->
  calls (elapse dt s) = (calls s ++ [SaveData (rect s)])%list /\
  rect (elapse dt s) = rect s /\
  execSaveCommandTimeout (elapse dt s) = None /\
  clock (elapse dt s) = (clock s + dt)%Z.
Proof.
  intros Hdt Ha. unfold elapse. rewrite Ha.
  destruct (Z.leb_spec (clock s + 1000) (clock s + dt)); [|lia].
  repeat split.
Qed.

Lemma arrive_quiet m s :
  (fst m < 1000)%Z ->
  execSaveCommandTimeout s = None \/
  execSaveCommandTimeout s = Some (clock s + 1000)%Z ->
  execSaveCommandTimeout (arrive s m) = Some (clock (arrive s m) + 1000)%Z /\
  saves (arrive s m) = saves s.
Proof.
  intros Hm Hs. unfold arrive.
  destruct (handle_queues (snd m) (elapse (fst m) s)) as (Ht & Hc & Hsv).
  destruct (elapse_early _ _ Hm Hs) as (Hcalls & _ & _).
  rewrite Ht, Hc, Hsv, Hcalls. split; reflexivity.
Qed.

Lemma arriveAll_quiet ms s :
  (forall m, In m ms -> (fst m < 1000)%Z) ->
  execSaveCommandTimeout s = None \/
  execSaveCommandTimeout s = Some (clock s + 1000)%Z ->
  saves (arriveAll ms s) = saves s /\
  (ms <> [] ->
   execSaveCommandTimeout (arriveAll ms s)
     = Some (clock (arriveAll ms s) + 1000)%Z).
Proof.
  revert s. induction ms as [|m r IH]; intros s Hgap Hs.
  - split; [reflexivity|]. intros H. now destruct H.
  - unfold arriveAll. simpl. fold (arriveAll r (arrive s m)).
    destruct (arrive_quiet m s) as [Ha Hsv]; [apply Hgap; now left|exact Hs|].
    destruct (IH (arrive s m)) as [Hsv' Ha'].
    { intros m' Hm'. apply Hgap. now right. }
    { now right. }
    split; [congruence|]. intros _.
    destruct r as [|m' r']; [exact Ha|]. now apply Ha'.
Qed.

(** X15. Moves and resizes by hand that follow one another by less than
    a second cause no call of [saveData] while they last. One second
    after the last of them [saveData] is called exactly once, with the
    rectangle the card has then; after a move that is the position of
    the last move. *)
Theorem burst_saves_once ms s dt :
  execSaveCommandTimeout s = None ->
  ms <> [] ->
  (forall m, In m ms -> (fst m < 1000)%Z) ->
  (1000 <= dt)%Z ->
  let s1 := arriveAll ms s in
  List.filter isSaveData (calls s1) = List.filter isSaveData (calls s) /\
  calls (elapse dt s1) = (calls s1 ++ [SaveData (rect s1)])%list /\
  execSaveCommandTimeout (elapse dt s1) = None /\
  (forall ms' gap newBounds,
     ms = (ms' ++ [(gap, MoveByHand newBounds)])%list ->
     x (rect s1) = x newBounds /\ y (rect s1) = y newBounds).
Proof.
  intros Hs Hne Hgap Hdt s1.
  destruct (arriveAll_quiet ms s Hgap (or_introl Hs)) as [Hsv Ha].
  destruct (elapse_due dt s1 Hdt (Ha Hne)) as (Hc & _ & Ht & _).
  repeat split; auto; subst s1; subst ms; unfold arriveAll;
    rewrite fold_left_app; reflexivity.
Qed.

Lemma arrive_spaced m s :
  (1000 <= fst m)%Z ->
  execSaveCommandTimeout s = None \/
  execSaveCommandTimeout s = Some (clock s + 1000)%Z ->
  execSaveCommandTimeout (arrive s m) = Some (clock (arrive s m) + 1000)%Z /\
  length (saves (arrive s m)) =
    (length (saves s) +
     (match execSaveCommandTimeout s with Some _ => 1 | None => 0 end))%nat.
Proof.
  intros Hm Hs. unfold arrive.
  destruct (handle_queues (snd m) (elapse (fst m) s)) as (Ht & Hc & Hsv).
  rewrite Ht, Hc, Hsv. split; [reflexivity|].
  destruct Hs as [Hn|Ha].
  - rewrite Hn. unfold elapse. rewrite Hn. simpl. lia.
  - destruct (elapse_due _ _ Hm Ha) as (Hcalls & _). rewrite Hcalls, Ha.
    rewrite List.filter_app, length_app. reflexivity.
Qed.

(** X16. Moves and resizes by hand that are more than a second apart are
    each saved: after a run of them and one more second, [saveData] has
    been called once for every one of them. *)
Theorem spaced_moves_save_each ms s dt :
  execSaveCommandTimeout s = None ->
  (forall m, In m ms -> (1000 < fst m)%Z) ->
  (1000 <= dt)%Z ->
  length (List.filter isSaveData (calls (elapse dt (arriveAll ms s)))) =
    (length (List.filter isSaveData (calls s)) + length ms)%nat.
Proof.
  intros Hs Hgap Hdt.
  assert (forall ms s,
            (forall m, In m ms -> (1000 <= fst m)%Z) ->
            execSaveCommandTimeout s = None \/
            execSaveCommandTimeout s = Some (clock s + 1000)%Z ->
            let s1 := arriveAll ms s in
            (execSaveCommandTimeout s1 = None \/
             execSaveCommandTimeout s1 = Some (clock s1 + 1000)%Z) /\
            (length (saves s1) + (match execSaveCommandTimeout s1 with Some _ => 1 | None => 0 end) =
             length (saves s) + ((match execSaveCommandTimeout s with Some _ => 1 | None => 0 end))
             + length ms)%nat) as Hinv.
  { clear. induction ms as [|m r IH]; intros s Hgap Hs.
    - simpl. split; [exact Hs|lia].
    - unfold arriveAll. simpl. fold (arriveAll r (arrive s m)).
      destruct (arrive_spaced m s) as [Ha Hlen]; [apply Hgap; now left|exact Hs|].
      destruct (IH (arrive s m)) as [Hs' Hlen'].
      { intros m' Hm'. apply Hgap. now right. }
      { now right. }
      split; [exact Hs'|]. rewrite Hlen', Hlen, Ha. simpl. lia. }
  destruct (Hinv ms s) as [Hs1 Hlen];
    [intros m Hm; specialize (Hgap m Hm); lia|now left|].
  rewrite Hs in Hlen. set (s1 := arriveAll ms s) in *.
  destruct Hs1 as [Hn|Ha].
  - rewrite Hn in Hlen. unfold elapse. rewrite Hn. simpl.
    fold (saves s1). lia.
  - destruct (elapse_due dt s1 Hdt Ha) as (Hc & _). rewrite Hc, Ha in *.
    rewrite List.filter_app, length_app. simpl.
    unfold s1 in *. lia.
Qed.

End SaveQueue.

(** * Runs on explicit worlds *)
Section DemoRuns.
Import Demo.

(** C3, counterexample to the claim as stated: the recapture flag is set,
    a focus event arrives, and ['card-focused'] is sent all the same; the
    flag has silenced nothing. *)
Lemma recapture_flag_suppresses_nothing :
  Avatar.recaptureGlobalFocusEventAfterLocalFocusEvent recapturing = true /\
  trace (snd (_focusListener recapturing emptyWorld))
    = [WinSend 0 "card-focused"] /\
  trace (snd (_focusListener recapturing emptyWorld)) <> trace emptyWorld.
Proof. repeat split. discriminate. Qed.

(** C3, the amended statement at an avatar with all three flags set. *)
Lemma once_flags_are_one_shot_witness :
  let this :=
    Avatar.set_suppressBlurEventOnce true
      (Avatar.set_suppressFocusEventOnce true recapturing) in
  Avatar.suppressFocusEventOnce this = true /\
  trace (snd (_focusListener this gateClosed)) = [] /\
  trace (snd (_focusListener (fst (_focusListener this gateClosed))
                (snd (_focusListener this gateClosed))))
    = [WinSend 0 "card-focused"] /\
  globalFocusListenerPermission (snd (_focusListener this gateClosed)) = true /\
  globalFocusListenerPermission
    (snd (_focusListener (fst (_focusListener this gateClosed)) gateClosed))
    = false.
Proof.
  intros this.
  pose proof (once_flags_are_one_shot this gateClosed _ _ _ _ _ _ _ _
                eq_refl eq_refl eq_refl eq_refl) as (_ & Hf & _ & Hr & _).
  specialize (Hf eq_refl). destruct Hf as (H1 & _ & _ & H2).
  specialize (Hr eq_refl). destruct Hr as (H3 & _ & _ & H4).
  split; [reflexivity|]. split; [exact H1|]. split; [exact H2|].
  split; [exact H3|]. exact (H4 gateClosed).
Defined.

(** C9, counterexample to the claim as stated: [suppressBlurEventOnce] is
    unset and the gate is closed, yet the focus listener sends
    ['card-focused'], because the recapture flag is set. *)
Lemma focus_listener_sends_with_gate_closed :
  Avatar.suppressBlurEventOnce recapturing = false /\
  globalFocusListenerPermission gateClosed = false /\
  trace (snd (_blurListener recapturing gateClosed))
    = [WinSend 0 "card-blurred"] /\
  trace (snd (_focusListener recapturing gateClosed))
    = [WinSend 0 "card-focused"] /\
  trace (snd (_focusListener recapturing gateClosed)) <> trace gateClosed.
Proof. repeat split. discriminate. Qed.

(** C9, the amended statement at an avatar with no flag set. *)
Lemma blur_is_not_gated_witness :
  trace (snd (_blurListener (avatarAt "ws0/c1" 0 0) gateClosed))
    = [WinSend 0 "card-blurred"] /\
  trace (snd (_focusListener (avatarAt "ws0/c1" 0 0) gateClosed)) = [].
Proof.
  destruct (blur_is_not_gated (avatarAt "ws0/c1" 0 0) gateClosed
              eq_refl eq_refl) as (Hb & Hf & _).
  split.
  - rewrite Hb. reflexivity.
  - exact (proj1 (Hf eq_refl)).
Defined.

Lemma oneCard_reached :
  createCard ("c1", "hello", [("ws0/", 5)]) emptyWorld
    = (Returned "c1", oneCard).
Proof. vm_compute. reflexivity. Qed.

Lemma twoPlacements_reached :
  createCard ("c1", "hello", [("ws0/a/", 1); ("ws0/b/", 2)]) emptyWorld
    = (Returned "c1", twoPlacements).
Proof. vm_compute. reflexivity. Qed.

(** C1, the code at a failing input. [createCard] has registered the card
    [c1] and its avatar under the url [ws0/c1], whose id is [c1]. Then
    [deleteCard "c1"] returns; the card is out of the registry and of the
    store, and reading it fails with NotFound; but the avatar is still
    registered and its window has not been destroyed: the loop looked
    [avatars] up under the location [ws0/], not under the url. *)
Theorem deleteCard_leaves_avatar_registered :
  let w' := snd (deleteCard "c1" oneCard) in
  getIdFromUrl "ws0/c1" = "c1" /\
  cards oneCard !! "c1" = Some oneCardCard /\
  JsMap.keys (avatars oneCard) = ["ws0/c1"] /\
  fst (deleteCard "c1" oneCard) = Returned tt /\
  cards w' !! "c1" = None /\
  store w' !! "c1" = None /\
  fst (CardIO_getCardData "c1" w') = Thrown (notFound "c1") /\
  JsMap.keys (avatars w') = ["ws0/c1"] /\
  isDestroyed (windowOf (avatars oneCard) "ws0/c1") w' = false /\
  traceSince oneCard w' = [IoDeleteCardData "c1"].
Proof. vm_compute. repeat split. Qed.

(** C2, counterexample to the claim as stated: all five attempts to delete
    the record fail, and [deleteCardWithRetry] returns normally; the card
    and its record are still there. *)
Lemma retry_exhausted_returns_normally :
  let attempt :=
    [IoDeleteCardData "c1";
     ConsoleError
       "Error in destroy window: Error in delete-card: I/O failure";
     Sleep 1000] in
  fst (deleteCardWithRetry "c1" failingDisk) = Returned tt /\
  (forall e, fst (deleteCardWithRetry "c1" failingDisk) <> Thrown e) /\
  traceSince failingDisk (snd (deleteCardWithRetry "c1" failingDisk))
    = (attempt ++ attempt ++ attempt ++ attempt ++ attempt)%list /\
  store (snd (deleteCardWithRetry "c1" failingDisk)) !! "c1"
    = Some oneCardProp /\
  cards (snd (deleteCardWithRetry "c1" failingDisk)) !! "c1"
    = Some oneCardCard.
Proof. vm_compute. repeat split. discriminate. Qed.

(** C2, the amended statement on the failing disk: five requests, five
    logged errors, five sleeps, and the card is still registered. *)
Lemma deleteCardWithRetry_gives_up_silently_witness :
  (exists e w1,
     deleteCard "c1" failingDisk = (Thrown e, w1) /\
     deleteCardWithRetry "c1" failingDisk =
       deleteCardRetryLoop 4 "c1"
         (emit (Sleep 1000) (emit (ConsoleError (message e)) w1))) /\
  let w' := snd (deleteCardWithRetry "c1" failingDisk) in
  count isIoDeleteCardData (traceSince failingDisk w') = 5%nat /\
  count isSleep (traceSince failingDisk w') = 5%nat /\
  count isConsoleError (traceSince failingDisk w') = 5%nat /\
  cards w' = cards failingDisk /\ store w' = store failingDisk.
Proof.
  destruct (deleteCardWithRetry_gives_up_silently "c1" failingDisk)
    as (_ & _ & _ & _ & _ & H & _ & Hexact).
  split.
  - do 2 eexists. split; [vm_compute; reflexivity|].
    apply H. vm_compute. reflexivity.
  - destruct (Hexact oneCardCard oneCardProp 5%nat)
      as (H1 & H2 & H3 & _ & H5).
    + vm_compute. reflexivity.
    + reflexivity.
    + lia.
    + intros i Hi. left.
      do 5 (destruct i as [|i]; [reflexivity|]). lia.
    + lia.
    + cbv zeta. rewrite H1, H2, H3. destruct (H5 eq_refl) as [H6 H7].
      repeat split; assumption.
Defined.

(** C4 on the card [c1]: its avatar moves to z = 9 with new content. *)
Lemma updateAvatar_overwrites_parent_witness :
  exists w',
    updateAvatar ("ws0/c1", "bye", 9) oneCard = (Returned tt, w') /\
    (Card.prop <$> cards w' !! "c1") =
      Some (Some (CardProp.mk "c1" "bye" [("ws0/", featureAt 9)])) /\
    store w' !! "c1" = Some (CardProp.mk "c1" "bye" [("ws0/", featureAt 9)]).
Proof.
  destruct (updateAvatar_overwrites_parent (P := payload)
              (M := cardPropModule) ("ws0/c1", "bye", 9)
              movedAvatar oneCard eq_refl) as [_ H].
  destruct (H oneCardCard oneCardProp) as (w' & Hrun & Hc & _ & _ & _ & Hs & _).
  { vm_compute. reflexivity. }
  { reflexivity. }
  exists w'. split; [exact Hrun|]. split.
  - rewrite Hc. vm_compute. reflexivity.
  - destruct Hs as [_ ->]; [reflexivity|]. vm_compute. reflexivity.
Defined.


(** [createCard] when the render completes and the request to add the
    placement to the list fails: the failure is logged, the card is
    registered and written all the same, and the placement list of the
    workspace is left without the new avatar. *)
Lemma createCard_with_failing_placement_list :
  let w := set_faults (fun _ => [true]) emptyWorld in
  let r := createCard ("c1", "hello", [("ws0/", 5)]) w in
  fst r = Returned "c1" /\
  trace (snd r) =
    [WinCreate 0 "ws0/c1"; WinLoadURL 0; WinSetSize 0 300 300;
     WinSetPosition 0 70 70; WinShowInactive 0; WinSend 0 "render-card";
     IoAddAvatarUrl "0" "ws0/c1";
     ConsoleError "Error in createCard: I/O failure";
     IoUpdateOrCreateCardData "c1"] /\
  store (snd r) !! "c1"
    = Some (CardProp.mk "c1" "hello" [("ws0/", featureAt 5)]) /\
  placed "0" (snd r) = [].
Proof. vm_compute. repeat split. Qed.

(** The same run, evaluated: the render fails, the failure is logged, the
    card is registered and written all the same. *)
Lemma createCard_with_broken_renderer :
  let r := createCard ("c1", "hello", [("ws0/", 5)]) brokenRenderer in
  fst r = Returned "c1" /\
  trace (snd r) =
    [WinCreate 0 "ws0/c1"; WinLoadURL 0; IoAddAvatarUrl "0" "ws0/c1";
     ConsoleError
       "Error in createCard: Error in render(): Error in loadHTML: ERR_FAILED";
     IoUpdateOrCreateCardData "c1"] /\
  store (snd r) !! "c1"
    = Some (CardProp.mk "c1" "hello" [("ws0/", featureAt 5)]).
Proof. vm_compute. repeat split. Qed.

(** C6 on a card with two placements: the one at [ws0/a/] is deleted. *)
Lemma deleteAvatar_removes_one_placement_witness :
  exists w',
    deleteAvatar "ws0/a/c1" twoPlacements = (Returned tt, w') /\
    JsMap.keys (avatars w') = ["ws0/b/c1"] /\
    is_Some (cards w' !! "c1") /\
    isDestroyed (Avatar.window placementA) w' = true /\
    placed "0" w' = ["ws0/b/c1"] /\
    ~ In "ws0/a/c1" (placed "0" w').
Proof.
  destruct (deleteAvatar_removes_one_placement "ws0/a/c1" twoPlacements
              placementA cardC1 propC1) as [_ H].
  destruct H as (w' & Hrun & Hav & _ & Hd & _ & Hpl & Hc & _ & _ & _ & _ & _
                 & _ & _ & _ & _ & Hgone & _);
    try (vm_compute; reflexivity).
  exists w'. split; [exact Hrun|]. split; [|split; [|split; [|split]]].
  - rewrite Hav. vm_compute. reflexivity.
  - rewrite Hc. vm_compute. eauto.
  - exact Hd.
  - change (placed "0" w') with (placed (currentWorkspaceId twoPlacements) w').
    rewrite Hpl. vm_compute. reflexivity.
  - exact Hgone.
Defined.

(** C8 on the two avatars at z = 1 and z = 2. *)
Lemma z_order_requests_witness :
  exists zmax zmin : Z,
    fst (bringToFront "ws0/a/c1" true twoPlacements)
      = Returned (Some (zmax + 1)%Z) /\
    fst (sendToBack "ws0/a/c1" twoPlacements) = Returned (Some (zmin - 1)%Z) /\
    (forall u a, JsMap.get u (avatars twoPlacements) = Some a ->
       (zmin <= Geometry.z (AvatarProp.geometry (Avatar.prop a)) <= zmax)%Z).
Proof.
  pose proof (z_order_requests (P := payload) twoPlacements "ws0/a/c1" true)
    as H.
  change (JsMap.get "ws0/a/c1" (avatars twoPlacements))
    with (Some placementA) in H.
  destruct H as (zmax & zmin & Hb & Hs & _ & Hmax & _ & Hmin).
  - intros u a Ha. apply get_Some_In in Ha.
    destruct Ha as [Ha|[Ha|[]]]; injection Ha as _ <-;
      vm_compute; split; reflexivity.
  - exists zmax, zmin. split; [exact Hb|]. split; [exact Hs|].
    intros u a Ha. split; [exact (Hmin u a Ha)|exact (Hmax u a Ha)].
Defined.

Lemma z_order_requests_example :
  fst (bringToFront "ws0/a/c1" false twoPlacements) = Returned (Some 3) /\
  fst (sendToBack "ws0/b/c1" twoPlacements) = Returned (Some 0) /\
  fst (bringToFront "ws0/zz" true twoPlacements) = Returned None.
Proof. vm_compute. repeat split. Qed.

(** C10 at a payload whose id is empty. *)
Lemma card_id_never_empty_witness :
  exists id w',
    createCard ("", "hello", [("ws0/", 5)]) emptyWorld = (Returned id, w') /\
    id = "00000000-0000-4000-8000-000000000000" /\ id <> "" /\
    exists card p,
      cards w' !! id = Some card /\ Card.prop card = Some p /\
      CardProp.id p = id.
Proof.
  do 2 eexists. split; [vm_compute; reflexivity|]. split; [reflexivity|].
  eapply (card_id_never_empty (P := payload) (M := cardPropModule)
            (CardProp.mk "" "" []) ""
            ("", "hello", [("ws0/", 5)]) emptyWorld).
  vm_compute. reflexivity.
Defined.


(** A launch on which the read of the first of two cards is rejected:
    the handler goes on before the second card is registered, so both
    avatars are built from no data, although the second card is
    registered in the end. *)
Lemma ready_after_rejected_read :
  let w := {|
    cards := ∅;
    avatars := [];
    globalFocusListenerPermission := true;
    currentWorkspaceId := "0";
    currentWorkspaceUrl := "ws0/";
    workspaces := {[ "0" := {| ws_avatars := ["ws0/c1"; "ws0/c2"] |} ]};
    store := {[ "c2" := CardProp.mk "c2" "hi" [("ws0/", featureAt 7)] ]};
    placements := {[ "0" := ["ws0/c1"; "ws0/c2"] ]};
    faults := [];
    entropy := [];
    renderer := fun _ => RenderCompleted;
    nextWindow := 0;
    trace := []
  |} in
  let w' := snd (onReady w) in
  fst (onReady w) = Returned tt /\
  loadedBefore w 1 ["c1"; "c2"] = [] /\
  (Avatar.prop <$> JsMap.get "ws0/c2" (avatars w')) =
    Some (AvatarProp_new "ws0/c2" None None) /\
  is_Some (cards w' !! "c2") /\
  cards w' !! "c1" = None /\
  count isConsoleError (trace w') = 1%nat.
Proof. vm_compute. repeat split; eauto. Qed.

Lemma restarted_session_run :
  recordedUrls restarted = ["ws0/a/c2"; "ws0/b/c2"] /\
  fst (onReady restarted) = Returned tt /\
  JsMap.keys (avatars (snd (onReady restarted))) = ["ws0/a/c2"; "ws0/b/c2"] /\
  List.filter (fun e => isIoGetCardData "c2" e) (trace (snd (onReady restarted)))
    = [IoGetCardData "c2"] /\
  raisedWindows (trace (snd (onReady restarted))) = [1%nat; 0%nat].
Proof. vm_compute. repeat split; reflexivity. Qed.

End DemoRuns.

(** * Runs of the further properties on explicit worlds *)
Section MoreDemoRuns.
Import Demo.

Ltac two_keys :=
  vm_compute; apply NoDup_cons; split;
    [ rewrite list_elem_of_In; simpl; intros [H|[]]; discriminate
    | apply NoDup_cons; split; [rewrite list_elem_of_In; simpl; tauto
                               |apply NoDup_nil_2] ].

(** X2 after the window at [ws0/a/] has been closed: the placement is
    still removed from the card [c1]. *)
Lemma deleteAvatar_without_window_witness :
  exists w',
    deleteAvatar "ws0/a/c1" windowClosed = (Returned tt, w') /\
    avatars w' = avatars windowClosed /\
    placements w' = placements windowClosed.
Proof.
  destruct (deleteAvatar_without_window (P := payload)
              "ws0/a/c1" windowClosed) as [_ H].
  - vm_compute. reflexivity.
  - destruct (H cardC1 propC1) as (w' & Hrun & Hav & _ & Hpl & _);
      try (vm_compute; reflexivity).
    exists w'. auto.
Defined.

(** X3 on the failing disk. *)
Lemma deleteAvatar_interrupted_witness :
  exists e w',
    deleteAvatar "ws0/c1" failingDisk = (Thrown e, w') /\
    avatars w' = JsMap.delete "ws0/c1" (avatars failingDisk) /\
    isDestroyed (Avatar.window oneCardAvatar) w' = true /\
    workspaces w' = workspaces failingDisk /\
    placements w' = placements failingDisk /\
    cards w' = cards failingDisk /\ store w' = store failingDisk.
Proof.
  apply (deleteAvatar_interrupted (P := payload)).
  - vm_compute. reflexivity.
  - reflexivity.
Defined.

Lemma others_clear :
  forall u b, In u ["ws0/b/c1"] ->
    JsMap.get u (avatars twoPlacements) = Some b ->
    u <> "ws0/a/c1" /\ allFlagsClear b.
Proof.
  intros u b [<-|[]] Hb. split; [discriminate|].
  vm_compute in Hb. injection Hb as <-. repeat split.
Qed.

(** X4 on the two placements of [c1]. *)
Lemma suppressed_blur_and_focus_witness :
  trace
    (deliverAll
       [BlurEvent "ws0/a/c1"; FocusEvent "ws0/b/c1"; FocusEvent "ws0/a/c1"]
       (snd (blurAndFocusWithSuppressEvents "ws0/a/c1" twoPlacements)))
    = (trace twoPlacements ++ [WinBlur (Avatar.window placementA);
                               WinFocus (Avatar.window placementA)])%list.
Proof.
  destruct (suppressed_blur_and_focus (P := payload)
              "ws0/a/c1" placementA ["ws0/b/c1"] twoPlacements)
    as (_ & _ & Ht & _).
  - vm_compute. reflexivity.
  - repeat split.
  - exact others_clear.
  - exact Ht.
Defined.

(** X5 on the two placements of [c1]. *)
Lemma suppressed_focus_of_others_witness :
  trace
    (deliverAll
       [BlurEvent "ws0/a/c1"; FocusEvent "ws0/b/c1"; FocusEvent "ws0/a/c1"]
       (snd (blurAndFocusWithSuppressFocusEvent "ws0/a/c1" twoPlacements)))
    = (trace twoPlacements ++
       [WinBlur (Avatar.window placementA);
        WinFocus (Avatar.window placementA);
        WinSend (Avatar.window placementA) "card-blurred";
        WinSend (Avatar.window placementA) "card-focused"])%list.
Proof.
  destruct (suppressed_focus_of_others (P := payload)
              "ws0/a/c1" placementA ["ws0/b/c1"] twoPlacements)
    as (_ & _ & Ht & _).
  - vm_compute. reflexivity.
  - repeat split.
  - exact others_clear.
  - exact Ht.
Defined.

(** X6: the placement at z = 2 is sent to the back. *)
Lemma sendToBack_focus_order_witness :
  exists z w',
    sendToBack "ws0/b/c1" twoPlacements = (Returned (Some z), w') /\
    trace (deliverAll
             (map FocusEvent
                ("ws0/b/c1" ::
                 spliceOut "ws0/b/c1" (backToFrontOf (avatars twoPlacements))))
             w') = trace w'.
Proof.
  destruct (sendToBack_focus_order (P := payload)
              "ws0/b/c1" placementB twoPlacements)
    as (z & w' & Hrun & _ & _ & _ & _ & Hsilent).
  - vm_compute. reflexivity.
  - two_keys.
  - exists z, w'. split; assumption.
Defined.

(** X7: the placement at z = 1 is brought to the front. *)
Lemma bringToFront_focus_order_witness :
  (exists z, bringToFront "ws0/a/c1" false twoPlacements
             = (Returned (Some z), twoPlacements)) /\
  exists z w',
    bringToFront "ws0/a/c1" true twoPlacements = (Returned (Some z), w') /\
    trace (deliverAll
             (map FocusEvent
                (spliceOut "ws0/a/c1" (backToFrontOf (avatars twoPlacements))
                 ++ ["ws0/a/c1"])%list)
             w') = trace w'.
Proof.
  destruct (bringToFront_focus_order (P := payload)
              "ws0/a/c1" placementA twoPlacements)
    as (Hstill & z & w' & Hrun & _ & _ & _ & _ & Hsilent).
  - vm_compute. reflexivity.
  - two_keys.
  - split; [exact Hstill|]. exists z, w'. split; assumption.
Defined.

(** X8: the window at [ws0/a/] is closed. *)
Lemma closed_window_is_forgotten_witness :
  JsMap.get "ws0/a/c1" (avatars (deliver (ClosedEvent "ws0/a/c1") twoPlacements))
    = None /\
  placements (deliver (ClosedEvent "ws0/a/c1") twoPlacements)
    = placements twoPlacements.
Proof.
  destruct (closed_window_is_forgotten (P := payload)
              "ws0/a/c1" placementA twoPlacements)
    as ((Hnone & _ & _ & _ & _ & Hpl & _) & _).
  - vm_compute. reflexivity.
  - reflexivity.
  - split; assumption.
Defined.

(** X9: a card placed in another workspace only. *)
Lemma createCard_elsewhere_witness :
  exists w',
    createCard ("c3", "hi", [("other/", 1%Z)]) emptyWorld
      = (Returned "c3", w') /\
    avatars w' = [] /\ nextWindow w' = 0%nat /\
    store w' =
      <["c3" := CardProp.mk "c3" "hi" [("other/", featureAt 1)]]> ∅.
Proof.
  destruct (createCard_elsewhere (P := payload)
              ("c3", "hi", [("other/", 1%Z)])
              (CardProp.mk "c3" "hi" [("other/", featureAt 1)])
              (Card.mk New
                 (Some (CardProp.mk "c3" "hi" [("other/", featureAt 1)]))
                 ResolveAtOnce)
              (CardProp.mk "c3" "hi" [("other/", featureAt 1)])
              emptyWorld emptyWorld)
    as (w' & Hrun & _ & Hav & Hnw & _ & _ & _ & Hst).
  - reflexivity.
  - reflexivity.
  - reflexivity.
  - intros loc [<-|[]]. reflexivity.
  - exists w'. split; [exact Hrun|]. split; [exact Hav|].
    split; [exact Hnw|]. exact Hst.
Defined.

(** X10: the card [c1] is created while there is no workspace. *)
Lemma createCard_without_workspace_witness :
  exists w',
    createCard ("c1", "hello", [("ws0/", 5%Z)]) noWorkspace
      = (Thrown (TypeError "Cannot read properties of undefined"), w') /\
    is_Some (cards w' !! "c1") /\
    In "ws0/c1" (JsMap.keys (avatars w')) /\
    store w' = ∅.
Proof.
  destruct (createCard_without_workspace (P := payload)
              ("c1", "hello", [("ws0/", 5%Z)])
              (CardProp.mk "c1" "hello" [("ws0/", featureAt 5)])
              (Card.mk New
                 (Some (CardProp.mk "c1" "hello" [("ws0/", featureAt 5)]))
                 ResolveAtOnce)
              (CardProp.mk "c1" "hello" [("ws0/", featureAt 5)])
              [] [] "ws0/" noWorkspace noWorkspace)
    as (w' & Hrun & Hc & Hav & _ & Hst & _).
  - reflexivity.
  - reflexivity.
  - reflexivity.
  - intros k c H. simpl in H. rewrite lookup_empty in H. discriminate.
  - reflexivity.
  - reflexivity.
  - intros l [].
  - reflexivity.
  - exists w'. split; [exact Hrun|]. split.
    + rewrite Hc. simpl. rewrite lookup_insert_eq. eauto.
    + split; [exact Hav|exact Hst].
Defined.

(** X11: the launch after the cards have gone from the disk. *)
Lemma ready_opens_unreadable_card_witness :
  exists w' a,
    onReady lostCard = (Returned tt, w') /\
    cards w' !! getIdFromUrl "ws0/a/c2" = None /\
    JsMap.get "ws0/a/c2" (avatars w') = Some a /\
    Avatar.prop a = AvatarProp_new "ws0/a/c2" None None /\
    In (Avatar.window a) (raisedWindows (trace w')).
Proof.
  apply (ready_opens_unreadable_card (P := payload)).
  - intros u d f. reflexivity.
  - reflexivity.
  - reflexivity.
  - reflexivity.
  - intros v. discriminate.
  - vm_compute. left. reflexivity.
  - intros id p H. simpl in H. rewrite lookup_empty in H. discriminate.
Defined.

(** X12: the launch with renderers that never acknowledge. *)
Lemma ready_stalls_without_acknowledgement_witness :
  exists w',
    onReady silentRenderer = (Pending, w') /\
    raisedWindows (trace w') = [].
Proof.
  apply (ready_stalls_without_acknowledgement (P := payload)) with "ws0/a/c2".
  - intros u d f. reflexivity.
  - reflexivity.
  - reflexivity.
  - reflexivity.
  - vm_compute. left. reflexivity.
  - reflexivity.
  - intros v description. discriminate.
Defined.

(** X14 at the id [c2]. *)
Lemma onload_reads_up_to_second_equals_witness :
  Renderer.onload "?id=c2" = Renderer.FinishLoad "c2" /\
  Renderer.onload "?id=c2=x" = Renderer.FinishLoad "c2".
Proof.
  apply (onload_reads_up_to_second_equals "c2" "x").
  - discriminate.
  - simpl. intuition discriminate.
  - simpl. intuition discriminate.
  - simpl. intuition discriminate.
Defined.

(** X15 on a drag in three steps. *)
Lemma burst_saves_once_witness :
  Renderer.calls (Renderer.elapse 1000 (Renderer.arriveAll drag atRest))
    = [Renderer.SaveData (Renderer.mkRect 80 75 300 300)].
Proof.
  destruct (burst_saves_once drag atRest 1000) as (_ & Hc & _).
  - reflexivity.
  - discriminate.
  - intros m [<-|[<-|[<-|[]]]]; simpl; lia.
  - lia.
  - exact Hc.
Defined.

(** X16 on two moves two seconds apart. *)
Lemma spaced_moves_save_each_witness :
  length
    (List.filter Renderer.isSaveData
       (Renderer.calls
          (Renderer.elapse 1000
             (Renderer.arriveAll
                [(2000%Z, Renderer.MoveByHand (Renderer.mkRect 71 70 300 300));
                 (2000%Z, Renderer.MoveByHand (Renderer.mkRect 75 72 300 300))]
                atRest)))) = 2%nat.
Proof.
  apply (spaced_moves_save_each
           [(2000%Z, Renderer.MoveByHand (Renderer.mkRect 71 70 300 300));
            (2000%Z, Renderer.MoveByHand (Renderer.mkRect 75 72 300 300))]
           atRest 1000).
  - reflexivity.
  - intros m [<-|[<-|[]]]; simpl; lia.
  - lia.
Defined.

(** X1 on the failing disk: the card [c1] stays registered. *)
Lemma deleteCard_outcome_witness :
  fst (deleteCard "c1" failingDisk) =
    Thrown (Error ("Error in destroy window: "
                   +:+ ("Error in delete-card: " +:+ "I/O failure"))) /\
  cards (snd (deleteCard "c1" failingDisk)) = cards failingDisk.
Proof.
  destruct (deleteCard_outcome (P := payload) "c1" failingDisk) as [_ H].
  destruct (H oneCardCard oneCardProp) as (_ & Hthrown & Hcards & _);
    try (vm_compute; reflexivity).
  split; assumption.
Defined.

(** X13 on a query that gives the id twice: the last one counts. *)
Lemma onload_finishes_iff_witness :
  Renderer.onload "?x=1&id=c2&id=c7" = Renderer.FinishLoad "c7".
Proof.
  apply (proj2 (onload_finishes_iff "?x=1&id=c2&id=c7" "c7")).
  split; [discriminate|].
  exists ["x=1"; "id=c2"], "id=c7", [], []. repeat split. intros s' [].
Defined.

End MoreDemoRuns.
